(** * claude-collab: relay, durable store, conversation repair, tool executor

    A shallow embedding of the coordination core of the collaborative
    session system:

    - [Database]: the SQLite-backed store of [src/server/database.ts];
    - [Relay]: the WebSocket relay of [src/server/relay.ts] (session
      registry, turn lock, broadcast and sync);
    - [Client]: the tool_use / tool_result pairing repair of the TUI client
      ([validateToolMessages]) and the conversion of a synced history;
    - [Executor]: the tools and the path check of
      [src/client/tools/executor.ts];
    - [Connection]: the reconnection of [src/client/api/websocket-client.ts];
    - [Tui]: the handlers of the terminal client that decide when an input is
      sent.

    Conventions.  A handler is a function from the state before to the
    state after together with the list of effects it performs, in program
    order.  Console output is not an effect of the model.  The readings of
    the clock and of the random generator made while one event is handled
    are supplied by the environment of that event; all clock readings of
    one event are the same instant.

    A message of a client is what [JSON.parse] made of its text.  Its
    [clientId] is modelled as it compares in the guards of the relay:
    [undefined], [null] or a string.  The other fields are taken of the type
    the client of this repository sends (strings, a content, a flag). *)

From Stdlib Require Import Ascii.
From stdpp Require Import gmap strings list fin_maps pretty sorting.

Open Scope Z_scope.

(** ** The JSON runtime

    [JSON.stringify] and [JSON.parse] belong to the JavaScript runtime, not
    to the repository: the development is parametric in them.  [JSON_parse]
    answers [None] where [JSON.parse] throws. *)

Class JsonCodec (JSValue : Type) := {
  JSON_stringify : JSValue → string;
  JSON_parse : string → option JSValue
}.

(** A [content] field as the relay receives it: [typeof content === 'string']
    or any other value. *)
Inductive Content (JSValue : Type) :=
  | CString (s : string)
  | CValue (v : JSValue).
Arguments CString {JSValue} s.
Arguments CValue {JSValue} v.

Inductive Role := user | assistant.

Global Instance Role_eq_dec : EqDecision Role.
Proof. solve_decision. Defined.

(** What [msg.clientId] evaluates to, and what [session.lockHolder] holds:
    [undefined] (the message has no such field), [null], or a string. *)
Inductive Id :=
  | undefined
  | null
  | str (s : string).

Global Instance Id_eq_dec : EqDecision Id.
Proof. solve_decision. Defined.

(** The truthiness of an id: [undefined], [null] and the empty string are
    falsy. *)
Definition truthy (i : Id) : bool :=
  match i with
  | str s => negb (bool_decide (s = ""))
  | _ => false
  end.

(** The id as a key of a [Map] whose keys are strings, and as the
    [excludeClientId] of a broadcast: only a string is equal to a string. *)
Definition as_string (i : Id) : option string :=
  match i with
  | str s => Some s
  | _ => None
  end.

(** ** The durable store (database.ts) *)

Module Database.

(** A row of table [messages]. *)
Record StoredMessage := {
  id : string;
  session_id : string;
  role : Role;
  content : string;                  (* JSON stringified *)
  author_username : option string;
  timestamp : Z
}.

(** A row of table [sessions], keyed by its [id]. *)
Record SessionRow := {
  created_at : Z;
  last_activity : Z
}.

(** A row of table [tool_results]. *)
Record ToolResultRow := {
  tr_id : string;
  tr_session_id : string;
  tool_use_id : string;
  tr_content : string;
  client_id : string;
  tr_timestamp : Z
}.

(** The three tables.  Rows of [messages] and [tool_results] are kept in
    insertion order.  Of the constraints of the schema, the foreign keys
    ([session_id] references [sessions(id)]) and [NOT NULL] are modelled by
    the inserts below; the primary keys of [messages] and [tool_results] are
    not: generated ids are taken to be fresh. *)
Record SessionDatabase := {
  sessions : gmap string SessionRow;
  messages : list StoredMessage;
  tool_results : list ToolResultRow
}.

Definition empty : SessionDatabase :=
  {| sessions := ∅; messages := []; tool_results := [] |}.

(** What [saveMessage] is handed by the relay: [{role, content,
    author_username}] (no [id] field). *)
Record NewMessage (JSValue : Type) := {
  nm_role : Role;
  nm_content : Content JSValue;
  nm_author_username : option string
}.
Arguments nm_role {JSValue} _.
Arguments nm_content {JSValue} _.
Arguments nm_author_username {JSValue} _.

(** What [getMessages] answers for a row: [content] is the parsed JSON, or
    the raw column when it does not parse. *)
Inductive EntryContent (JSValue : Type) :=
  | Parsed (v : JSValue)
  | Raw (s : string).
Arguments Parsed {JSValue} v.
Arguments Raw {JSValue} s.

Record Entry (JSValue : Type) := {
  e_id : string;
  e_role : Role;
  e_content : EntryContent JSValue;
  e_author_username : option string;
  e_timestamp : Z
}.
Arguments e_id {JSValue} _.
Arguments e_role {JSValue} _.
Arguments e_content {JSValue} _.
Arguments e_author_username {JSValue} _.
Arguments e_timestamp {JSValue} _.

Record ToolResultEntry (JSValue : Type) := {
  te_id : string;
  te_tool_use_id : string;
  te_content : JSValue;
  te_client_id : string;
  te_timestamp : Z
}.
Arguments te_id {JSValue} _.
Arguments te_tool_use_id {JSValue} _.
Arguments te_content {JSValue} _.
Arguments te_client_id {JSValue} _.
Arguments te_timestamp {JSValue} _.

(** [`msg_${Date.now()}_${Math.random()...}`] and [`${Date.now()}_...`];
    [rnd] is the random suffix. *)
Definition generateMessageId (now : Z) (rnd : string) : string :=
  "msg_" +:+ pretty now +:+ "_" +:+ rnd.

Definition generateId (now : Z) (rnd : string) : string :=
  pretty now +:+ "_" +:+ rnd.

(** [INSERT OR IGNORE INTO sessions]. *)
Definition createSession (sessionId : string) (now : Z)
    (db : SessionDatabase) : SessionDatabase :=
  match sessions db !! sessionId with
  | Some _ => db
  | None =>
      {| sessions := <[sessionId := {| created_at := now; last_activity := now |}]>
                       (sessions db);
         messages := messages db;
         tool_results := tool_results db |}
  end.

(** [UPDATE sessions SET last_activity = ? WHERE id = ?]. *)
Definition updateSessionActivity (sessionId : string) (now : Z)
    (db : SessionDatabase) : SessionDatabase :=
  {| sessions :=
       alter (λ r, {| created_at := created_at r; last_activity := now |})
             sessionId (sessions db);
     messages := messages db;
     tool_results := tool_results db |}.

(** [ORDER BY timestamp ASC]: a row goes before the rows that are not
    earlier than it, so rows of equal timestamp stay in insertion order. *)
Fixpoint insert_by_timestamp {A} (key : A → Z) (x : A) (l : list A) : list A :=
  match l with
  | [] => [x]
  | y :: l' =>
      if bool_decide (key x ≤ key y) then x :: y :: l'
      else y :: insert_by_timestamp key x l'
  end.

Definition order_by_timestamp {A} (key : A → Z) (l : list A) : list A :=
  foldr (insert_by_timestamp key) [] l.

Section WithCodec.
Context {JSValue : Type} `{!JsonCodec JSValue}.

(** The column written for a [content]. *)
Definition stored_content (c : Content JSValue) : string :=
  match c with
  | CString s => s
  | CValue v => JSON_stringify v
  end.

(** The row [saveMessage] inserts. *)
Definition message_row (sessionId : string) (message : NewMessage JSValue)
    (now : Z) (rnd : string) : StoredMessage :=
  {| id := generateMessageId now rnd;
     session_id := sessionId;
     role := nm_role message;
     content := stored_content (nm_content message);
     author_username :=
       match nm_author_username message with
       | Some "" => None           (* author_username || null *)
       | a => a
       end;
     timestamp := now |}.

(** [None] where the [INSERT] throws: the foreign key of [messages] fails
    when [sessions] has no row for the session, and nothing is written. *)
Definition saveMessage (sessionId : string) (message : NewMessage JSValue)
    (now : Z) (rnd : string) (db : SessionDatabase) : option SessionDatabase :=
  match sessions db !! sessionId with
  | None => None
  | Some _ =>
      Some (updateSessionActivity sessionId now
              {| sessions := sessions db;
                 messages := messages db ++ [message_row sessionId message now rnd];
                 tool_results := tool_results db |})
  end.

Definition row_entry (row : StoredMessage) : Entry JSValue :=
  {| e_id := id row;
     e_role := role row;
     e_content :=
       match JSON_parse (content row) with
       | Some v => Parsed v
       | None => Raw (content row)
       end;
     e_author_username := author_username row;
     e_timestamp := timestamp row |}.

(** [SELECT * FROM messages WHERE session_id = ? ORDER BY timestamp ASC]. *)
Definition select_messages (sessionId : string) (db : SessionDatabase)
    : list StoredMessage :=
  order_by_timestamp timestamp
    (filter (λ row, session_id row = sessionId) (messages db)).

Definition getMessages (sessionId : string) (db : SessionDatabase)
    : list (Entry JSValue) :=
  row_entry <$> select_messages sessionId db.

Definition tool_result_row (sessionId toolUseId : string) (c : JSValue)
    (clientId : string) (now : Z) (rnd : string) : ToolResultRow :=
  {| tr_id := generateId now rnd;
     tr_session_id := sessionId;
     tool_use_id := toolUseId;
     tr_content := JSON_stringify c;
     client_id := clientId;
     tr_timestamp := now |}.

(** [None] where the [INSERT] throws: [client_id] is [NOT NULL] and bound to
    what the relay was sent ([undefined] cannot be bound at all), and the
    foreign key of [tool_results] fails when [sessions] has no row for the
    session.  Nothing is written then. *)
Definition saveToolResult (sessionId toolUseId : string) (c : JSValue)
    (clientId : Id) (now : Z) (rnd : string) (db : SessionDatabase)
    : option SessionDatabase :=
  match clientId, sessions db !! sessionId with
  | str client, Some _ =>
      Some {| sessions := sessions db;
              messages := messages db;
              tool_results :=
                tool_results db
                  ++ [tool_result_row sessionId toolUseId c client now rnd] |}
  | _, _ => None
  end.

Definition select_tool_results (sessionId : string) (db : SessionDatabase)
    : list ToolResultRow :=
  order_by_timestamp tr_timestamp
    (filter (λ row, tr_session_id row = sessionId) (tool_results db)).

(** [JSON.parse(row.content)] is not guarded here: the call throws ([None])
    as soon as one column does not parse. *)
Definition getToolResults (sessionId : string) (db : SessionDatabase)
    : option (list (ToolResultEntry JSValue)) :=
  mapM (λ row,
          v ← JSON_parse (tr_content row);
          Some {| te_id := tr_id row;
                  te_tool_use_id := tool_use_id row;
                  te_content := v;
                  te_client_id := client_id row;
                  te_timestamp := tr_timestamp row |})
       (select_tool_results sessionId db).

End WithCodec.

(** [SELECT COUNT( * ) ... WHERE id = ?], [count > 0]. *)
Definition sessionExists (sessionId : string) (db : SessionDatabase) : bool :=
  bool_decide (is_Some (sessions db !! sessionId)).

(** [Date.now() - (olderThanDays * 24 * 60 * 60 * 1000)]. *)
Definition purge_cutoff (olderThanDays now : Z) : Z :=
  now - olderThanDays * 24 * 60 * 60 * 1000.

(** [session_id IN (SELECT id FROM sessions WHERE last_activity < ?)]. *)
Definition inactive_since (cutoff : Z) (db : SessionDatabase)
    (sessionId : string) : bool :=
  match sessions db !! sessionId with
  | Some row => bool_decide (last_activity row < cutoff)
  | None => false
  end.

(** The three [DELETE] statements: messages, then tool results, then the
    sessions themselves; the first two read the sessions not yet deleted. *)
Definition deleteOldSessions (olderThanDays now : Z) (db : SessionDatabase)
    : SessionDatabase :=
  let cutoff := purge_cutoff olderThanDays now in
  {| sessions := filter (λ entry, ¬ last_activity entry.2 < cutoff) (sessions db);
     messages :=
       filter (λ row, ¬ inactive_since cutoff db (session_id row)) (messages db);
     tool_results :=
       filter (λ row, ¬ inactive_since cutoff db (tr_session_id row))
              (tool_results db) |}.

End Database.

(** ** The relay (relay.ts) *)

Module Relay.

(** A connection is known by the identity of its socket object. *)
Definition WebSocket := nat.

Inductive ReadyState := CONNECTING | OPEN | CLOSING | CLOSED.

Global Instance ReadyState_eq_dec : EqDecision ReadyState.
Proof. solve_decision. Defined.

Record ClientInfo := {
  clientId : string;
  username : string;
  ws : WebSocket;
  connectedAt : Z
}.

Record Session := {
  id : string;
  clients : gmap string ClientInfo;    (* clientId -> ClientInfo *)
  lockHolder : Id;                     (* clientId *)
  lockUsername : option string;
  lockGrantedAt : option Z;
  lastActivity : Z
}.

(** Lock timeout (30 seconds of inactivity). *)
Definition LOCK_TIMEOUT_MS : Z := 30000.

(** What the environment supplies while one event is handled. *)
Record Env := {
  now : Z;                             (* Date.now() *)
  rnd : string;                        (* the suffix of a generated id *)
  readyState : WebSocket → ReadyState  (* ws.readyState *)
}.

Record Participant := {
  p_clientId : string;
  p_username : string
}.

(** How a handler ends: it returns, or an exception leaves it, after the
    state changes and effects made until then. *)
Inductive Outcome (R : Type) :=
  | returned (r : R)
  | threw (r : R).
Arguments returned {R} r.
Arguments threw {R} r.

Section WithCodec.
Context {JSValue : Type} `{!JsonCodec JSValue}.

(** The final message of a model turn: its [content] and the rest of it. *)
Record AssistantMessage := {
  content : Content JSValue;
  envelope : JSValue
}.

(** Messages of a client to the relay, by their [type]. *)
Inductive ClientMsg :=
  | client_connect (sessionId : string) (clientId : Id) (username : string)
  | sync_request (sessionId : string) (clientId : Id)
  | lock_request (sessionId : string) (clientId : Id) (username : string)
  | lock_release (sessionId : string) (clientId : Id)
  | user_message (sessionId : string) (clientId : Id) (username content : string)
  | assistant_chunk (sessionId : string) (clientId : Id) (delta : string)
  | assistant_complete (sessionId : string) (clientId : Id)
      (message : AssistantMessage)
  | tool_execute (sessionId : string) (clientId : Id) (toolUseId toolName : string)
      (input : JSValue)
  | tool_result (sessionId : string) (clientId : Id) (toolUseId : string)
      (content : JSValue) (isError : bool)
  | unknown (type : string).

(** Messages of the relay to a client, by their [type]. *)
Inductive ServerMsg :=
  | connected (clientId sessionId : string)
  | error (message : string)
  | participant_joined (username clientId : string)
  | sync_state (sessionId : string) (messages : list (Database.Entry JSValue))
      (participants : list Participant) (lockHolder : Id)
      (lockUsername : option string)
  | lock_granted (clientId : Id) (username : string)
  | lock_denied (holder : option string) (reason : string)
  | lock_released (reason : option string)
  | user_message_broadcast (username content : string) (timestamp : Z)
  | assistant_streaming (delta : string) (sourceClientId : Id)
  | assistant_complete_broadcast (message : AssistantMessage)
  | tool_executing (toolUseId toolName : string) (input : JSValue)
      (executingClientId : Id)
  | tool_result_broadcast (toolUseId : string) (content : JSValue) (isError : bool)
  | participant_left (username clientId : string).

(** Calls into the durable store. *)
Inductive DbCall :=
  | db_createSession (sessionId : string)
  | db_saveMessage (sessionId : string) (message : Database.NewMessage JSValue)
  | db_saveToolResult (sessionId toolUseId : string) (content : JSValue)
      (clientId : Id)
  | db_getMessages (sessionId : string)
  | db_deleteOldSessions (olderThanDays : Z).

(** What a handler does to the outside, in program order: a message put on
    a socket, a call that changed the store, a call that read it, a call that
    threw (and so wrote nothing). *)
Inductive Effect :=
  | Send (to : WebSocket) (message : ServerMsg)   (* ws.send(JSON.stringify(..)) *)
  | Persist (call : DbCall)
  | Query (call : DbCall)
  | Failed (call : DbCall).

(** The relay: the session table, the store, and the [sessionId] and
    [clientId] variables of each connection (absent while they are null). *)
Record State := {
  sessions : gmap string Session;
  db : Database.SessionDatabase;
  connection : gmap WebSocket (string * string)
}.

Definition initial : State :=
  {| sessions := ∅; db := Database.empty; connection := ∅ |}.

Definition with_sessions (st : State) (m : gmap string Session) : State :=
  {| sessions := m; db := db st; connection := connection st |}.

Definition with_db (st : State) (d : Database.SessionDatabase) : State :=
  {| sessions := sessions st; db := d; connection := connection st |}.

Definition with_lock (session : Session) (holder : Id) (uname : option string)
    (grantedAt : option Z) : Session :=
  {| id := id session; clients := clients session;
     lockHolder := holder; lockUsername := uname; lockGrantedAt := grantedAt;
     lastActivity := lastActivity session |}.

Definition with_lastActivity (session : Session) (t : Z) : Session :=
  {| id := id session; clients := clients session;
     lockHolder := lockHolder session; lockUsername := lockUsername session;
     lockGrantedAt := lockGrantedAt session;
     lastActivity := t |}.

Definition with_clients (session : Session) (m : gmap string ClientInfo)
    : Session :=
  {| id := id session; clients := m;
     lockHolder := lockHolder session; lockUsername := lockUsername session;
     lockGrantedAt := lockGrantedAt session;
     lastActivity := lastActivity session |}.

(** The clients a broadcast reaches: every client of the session but the
    excluded one, whose socket is open.  The list is in the order of the keys,
    where [Map.forEach] goes by insertion: the order of the sends within one
    broadcast is not the code's, and no statement below depends on it. *)
Definition recipients (env : Env) (session : Session)
    (excludeClientId : option string) : list ClientInfo :=
  filter (λ client, Some (clientId client) ≠ excludeClientId
                    ∧ readyState env (ws client) = OPEN)
         (snd <$> map_to_list (clients session)).

Definition broadcast (env : Env) (session : Session) (message : ServerMsg)
    (excludeClientId : option string) : list Effect :=
  (λ client, Send (ws client) message) <$> recipients env session excludeClientId.

(** One session in the periodic lock timeout check.  The guard
    [session.lockHolder && session.lockGrantedAt] is a truthiness test: it
    fails on [null] and [undefined], on the empty string and on [0]. *)
Definition expire (env : Env) (session : Session) : Session * list Effect :=
  match lockGrantedAt session with
  | Some grantedAt =>
      if truthy (lockHolder session) && bool_decide (grantedAt ≠ 0) then
        if bool_decide (now env - grantedAt > LOCK_TIMEOUT_MS) then
          let session' := with_lock session null None None in
          (session', broadcast env session' (lock_released (Some "timeout")) None)
        else (session, [])
      else (session, [])
  | None => (session, [])
  end.

(** The sweep: every session in turn (here in the order of the session ids,
    in the code in the order of creation). *)
Definition lockTimeoutCheck (env : Env) (st : State) : State * list Effect :=
  (with_sessions st ((λ session, (expire env session).1) <$> sessions st),
   mjoin ((λ entry, (expire env entry.2).2) <$> map_to_list (sessions st))).

(** [!msg.sessionId || !msg.clientId] lets only a truthy [clientId] pass,
    that is a non-empty string [cid]. *)
Definition handleClientConnect (env : Env) (socket : WebSocket)
    (sessionId : string) (clientId : Id) (username : string) (st : State)
    : State * list Effect :=
  match clientId with
  | str cid =>
      if bool_decide (sessionId = "" ∨ cid = "") then
        (st, [Send socket (error "Missing sessionId or clientId")])
      else
        let username :=
          if bool_decide (username = "") then "Anonymous" else username in
        let '(session, db', created) :=
          match sessions st !! sessionId with
          | Some session => (session, db st, [])
          | None =>
              ({| id := sessionId; clients := ∅;
                  lockHolder := null; lockUsername := None; lockGrantedAt := None;
                  lastActivity := now env |},
               Database.createSession sessionId (now env) (db st),
               [Persist (db_createSession sessionId)])
          end in
        let info := {| clientId := cid; username := username;
                       ws := socket; connectedAt := now env |} in
        let session' :=
          with_lastActivity
            (with_clients session (<[cid := info]> (clients session)))
            (now env) in
        ({| sessions := <[sessionId := session']> (sessions st);
            db := db';
            connection := <[socket := (sessionId, cid)]> (connection st) |},
         created
           ++ [Send socket (connected cid sessionId)]
           ++ broadcast env session' (participant_joined username cid)
                (Some cid))
  | _ => (st, [Send socket (error "Missing sessionId or clientId")])
  end.

(** The participants are listed in the order of the client ids (in the code,
    in the order of joining). *)
Definition handleSyncRequest (socket : WebSocket) (sessionId : string)
    (st : State) : State * list Effect :=
  match sessions st !! sessionId with
  | None => (st, [Send socket (error "Session not found")])
  | Some session =>
      let messages := Database.getMessages sessionId (db st) in
      let participants :=
        (λ c, {| p_clientId := clientId c; p_username := username c |})
          <$> (snd <$> map_to_list (clients session)) in
      (st, [Query (db_getMessages sessionId);
            Send socket
              (sync_state sessionId messages participants
                 (lockHolder session) (lockUsername session))])
  end.

(** [session.clients.get(msg.clientId)]: the keys are strings. *)
Definition client_of (session : Session) (clientId : Id) : option ClientInfo :=
  cid ← as_string clientId; clients session !! cid.

Definition handleLockRequest (env : Env) (sessionId : string) (clientId : Id)
    (username : string) (st : State) : State * list Effect :=
  match sessions st !! sessionId with
  | None => (st, [])
  | Some session =>
      if bool_decide (lockHolder session = null
                      ∨ lockHolder session = clientId) then
        let session' :=
          with_lastActivity
            (with_lock session clientId (Some username) (Some (now env)))
            (now env) in
        (with_sessions st (<[sessionId := session']> (sessions st)),
         broadcast env session' (lock_granted clientId username) None)
      else
        match client_of session clientId with
        | Some client =>
            (st, [Send (ws client)
                    (lock_denied (lockUsername session) "lock_held")])
        | None => (st, [])
        end
  end.

Definition handleLockRelease (env : Env) (sessionId : string) (clientId : Id)
    (st : State) : State * list Effect :=
  match sessions st !! sessionId with
  | None => (st, [])
  | Some session =>
      if bool_decide (lockHolder session = clientId) then
        let session' := with_lock session null None None in
        (with_sessions st (<[sessionId := session']> (sessions st)),
         broadcast env session' (lock_released None) None)
      else (st, [])
  end.

(** The handlers that save: [session.lastActivity] is set before the store
    is called, so it stays set when the call throws. *)
Definition handleUserMessage (env : Env) (sessionId : string) (clientId : Id)
    (username content : string) (st : State) : Outcome (State * list Effect) :=
  match sessions st !! sessionId with
  | None => returned (st, [])
  | Some session =>
      (* Verify lock holder *)
      if bool_decide (lockHolder session ≠ clientId) then returned (st, [])
      else
        let session' := with_lastActivity session (now env) in
        let st' := with_sessions st (<[sessionId := session']> (sessions st)) in
        let message :=
          {| Database.nm_role := user;
             Database.nm_content := CString content;
             Database.nm_author_username := Some username |} in
        match Database.saveMessage sessionId message (now env) (rnd env) (db st) with
        | None => threw (st', [Failed (db_saveMessage sessionId message)])
        | Some db' =>
            returned
              (with_db st' db',
               Persist (db_saveMessage sessionId message)
                 :: broadcast env session'
                      (user_message_broadcast username content (now env))
                      (as_string clientId))
        end
  end.

Definition handleAssistantChunk (env : Env) (sessionId : string) (clientId : Id)
    (delta : string) (st : State) : State * list Effect :=
  match sessions st !! sessionId with
  | None => (st, [])
  | Some session =>
      (* Verify lock holder *)
      if bool_decide (lockHolder session ≠ clientId) then (st, [])
      else
        let session' := with_lastActivity session (now env) in
        (with_sessions st (<[sessionId := session']> (sessions st)),
         broadcast env session' (assistant_streaming delta clientId)
           (as_string clientId))
  end.

Definition handleAssistantComplete (env : Env) (sessionId : string)
    (clientId : Id) (message : AssistantMessage) (st : State)
    : Outcome (State * list Effect) :=
  match sessions st !! sessionId with
  | None => returned (st, [])
  | Some session =>
      (* Verify lock holder *)
      if bool_decide (lockHolder session ≠ clientId) then returned (st, [])
      else
        let session' := with_lastActivity session (now env) in
        let st' := with_sessions st (<[sessionId := session']> (sessions st)) in
        let saved :=
          {| Database.nm_role := assistant;
             Database.nm_content := content message;
             Database.nm_author_username := None |} in
        match Database.saveMessage sessionId saved (now env) (rnd env) (db st) with
        | None => threw (st', [Failed (db_saveMessage sessionId saved)])
        | Some db' =>
            returned
              (with_db st' db',
               Persist (db_saveMessage sessionId saved)
                 :: broadcast env session' (assistant_complete_broadcast message)
                      (as_string clientId))
        end
  end.

Definition handleToolExecute (env : Env) (sessionId : string) (clientId : Id)
    (toolUseId toolName : string) (input : JSValue)
    (st : State) : State * list Effect :=
  match sessions st !! sessionId with
  | None => (st, [])
  | Some session =>
      (st, broadcast env session
             (tool_executing toolUseId toolName input clientId) None)
  end.

Definition handleToolResult (env : Env) (sessionId : string) (clientId : Id)
    (toolUseId : string) (content : JSValue) (isError : bool) (st : State)
    : Outcome (State * list Effect) :=
  match sessions st !! sessionId with
  | None => returned (st, [])
  | Some session =>
      match Database.saveToolResult sessionId toolUseId content clientId
              (now env) (rnd env) (db st) with
      | None =>
          threw (st, [Failed (db_saveToolResult sessionId toolUseId content clientId)])
      | Some db' =>
          returned
            (with_db st db',
             Persist (db_saveToolResult sessionId toolUseId content clientId)
               :: broadcast env session
                    (tool_result_broadcast toolUseId content isError) None)
      end
  end.

Definition handleClientDisconnect (env : Env) (sessionId clientId : string)
    (st : State) : State * list Effect :=
  match sessions st !! sessionId with
  | None => (st, [])
  | Some session =>
      match clients session !! clientId with
      | None => (st, [])
      | Some clientInfo =>
          let removed := with_clients session (delete clientId (clients session)) in
          (* Release lock if held *)
          let '(session', released) :=
            if bool_decide (lockHolder removed = str clientId) then
              let idle := with_lock removed null None None in
              (idle,
               broadcast env idle (lock_released (Some "holder_disconnected")) None)
            else (removed, []) in
          (* Notify others *)
          let left :=
            broadcast env session'
              (participant_left (username clientInfo) clientId) None in
          (* Clean up empty sessions *)
          (with_sessions st
             (if bool_decide (size (clients session') = 0%nat)
              then delete sessionId (sessions st)
              else <[sessionId := session']> (sessions st)),
           released ++ left)
      end
  end.

(** The [catch] of [ws.on('message')]: what the handler did until it threw
    stays, and the socket of the message is answered with an error. *)
Definition settle (socket : WebSocket) (outcome : Outcome (State * list Effect))
    : State * list Effect :=
  match outcome with
  | returned r => r
  | threw (st, effects) =>
      (st, effects ++ [Send socket (error "Internal server error")])
  end.

(** [ws.on('message')]: the dispatch on [msg.type], within [try]. *)
Definition handleMessage (env : Env) (socket : WebSocket) (msg : ClientMsg)
    (st : State) : State * list Effect :=
  match msg with
  | client_connect sessionId clientId username =>
      handleClientConnect env socket sessionId clientId username st
  | sync_request sessionId _ => handleSyncRequest socket sessionId st
  | lock_request sessionId clientId username =>
      handleLockRequest env sessionId clientId username st
  | lock_release sessionId clientId =>
      handleLockRelease env sessionId clientId st
  | user_message sessionId clientId username content =>
      settle socket (handleUserMessage env sessionId clientId username content st)
  | assistant_chunk sessionId clientId delta =>
      handleAssistantChunk env sessionId clientId delta st
  | assistant_complete sessionId clientId message =>
      settle socket (handleAssistantComplete env sessionId clientId message st)
  | tool_execute sessionId clientId toolUseId toolName input =>
      handleToolExecute env sessionId clientId toolUseId toolName input st
  | tool_result sessionId clientId toolUseId content isError =>
      settle socket
        (handleToolResult env sessionId clientId toolUseId content isError st)
  | unknown _ => (st, [])
  end.

(** [ws.on('close')]: the connection's own [sessionId] and [clientId], when
    set, are disconnected; the handlers of a closed socket never run again. *)
Definition handleClose (env : Env) (socket : WebSocket) (st : State)
    : State * list Effect :=
  match connection st !! socket with
  | None => (st, [])
  | Some (sessionId, clientId) =>
      let '(st', effects) := handleClientDisconnect env sessionId clientId st in
      ({| sessions := sessions st'; db := db st';
          connection := delete socket (connection st') |},
       effects)
  end.

(** The daily cleanup: [db.deleteOldSessions(30)], on a timer of its own.  It
    does not look at the session table. *)
Definition cleanupOldSessions (env : Env) (st : State) : State :=
  with_db st (Database.deleteOldSessions 30 (now env) (db st)).

(** What the event loop of the relay runs, one at a time: a message of a
    socket, the close of a socket, the two timers, and a text of a socket on
    which the first lines of the handler throw ([JSON.parse] rejects it, or
    it is the JSON [null]). *)
Inductive Event :=
  | Message (socket : WebSocket) (msg : ClientMsg)
  | Close (socket : WebSocket)
  | LockTimeoutCheck
  | DailyCleanup
  | Unparsable (socket : WebSocket).

Definition step (env : Env) (ev : Event) (st : State) : State * list Effect :=
  match ev with
  | Message socket msg => handleMessage env socket msg st
  | Close socket => handleClose env socket st
  | LockTimeoutCheck => lockTimeoutCheck env st
  | DailyCleanup =>
      (cleanupOldSessions env st, [Persist (db_deleteOldSessions 30)])
  | Unparsable socket => (st, [Send socket (error "Internal server error")])
  end.

(** A run: the events in order, each with its environment.  The event loop
    handles one event to its end before the next. *)
Fixpoint run (trace : list (Env * Event)) (st : State) : State * list Effect :=
  match trace with
  | [] => (st, [])
  | (env, ev) :: trace' =>
      let '(st', effects) := step env ev st in
      let '(st'', effects') := run trace' st' in
      (st'', effects ++ effects')
  end.

(** The reading of the lock invariant on a state: the holder of every
    session, when it is not [null], is among the clients of that session. *)
Definition holder_connected (session : Session) : Prop :=
  lockHolder session ≠ null → is_Some (client_of session (lockHolder session)).

Definition lock_invariant (st : State) : Prop :=
  ∀ sessionId session,
    sessions st !! sessionId = Some session → holder_connected session.

(** A lock request is from a participant when its [clientId] is among the
    clients of the session it names (a request on a session that does not
    exist does nothing); the other events are not constrained. *)
Definition from_participant (st : State) (ev : Event) : bool :=
  match ev with
  | Message _ (lock_request sessionId clientId _) =>
      match sessions st !! sessionId with
      | Some session => bool_decide (is_Some (client_of session clientId))
      | None => true
      end
  | _ => true
  end.

Fixpoint requests_from_participants (trace : list (Env * Event)) (st : State)
    : bool :=
  match trace with
  | [] => true
  | (env, ev) :: trace' =>
      from_participant st ev
        && requests_from_participants trace' (step env ev st).1
  end.

(** The lock fields are cleared together, and a holder is only set together
    with a grant time. *)
Definition lock_consistent (session : Session) : Prop :=
  (lockHolder session = null ∧ lockUsername session = None
   ∧ lockGrantedAt session = None)
  ∨ is_Some (lockGrantedAt session).

(** What the session table keeps of its keys: a session is stored under its
    own id and a client under its own [clientId], no id is empty, and no
    stored session is without clients. *)
Definition well_registered (session_key : string) (session : Session) : Prop :=
  id session = session_key ∧ session_key ≠ ""
  ∧ clients session ≠ ∅
  ∧ ∀ key client, clients session !! key = Some client →
      clientId client = key ∧ key ≠ "".

(** The events that leave the lock fields of every session alone: all the
    messages but lock.request and lock.release, the daily cleanup, and a text
    that is no message. *)
Definition lock_neutral (ev : Event) : bool :=
  match ev with
  | Message _ (lock_request _ _ _) | Message _ (lock_release _ _) => false
  | Message _ _ => true
  | Close _ | LockTimeoutCheck => false
  | DailyCleanup | Unparsable _ => true
  end.

Definition is_cleanup (ev : Event) : bool :=
  match ev with
  | DailyCleanup => true
  | _ => false
  end.

(** What every stored session and connection satisfies along a run. *)
Definition registry_sound (st : State) : Prop :=
  (∀ sessionId session, sessions st !! sessionId = Some session →
     well_registered sessionId session ∧ lock_consistent session)
  ∧ (∀ socket sessionId clientId,
       connection st !! socket = Some (sessionId, clientId) →
       sessionId ≠ "" ∧ clientId ≠ "").

(** The events whose handlers call the store: four messages write to it,
    sync.request reads it, the daily cleanup deletes from it. *)
Definition calls_store (ev : Event) : bool :=
  match ev with
  | Message _ (client_connect _ _ _) | Message _ (user_message _ _ _ _)
  | Message _ (assistant_complete _ _ _) | Message _ (tool_result _ _ _ _ _)
  | Message _ (sync_request _ _) | DailyCleanup =>
      true
  | _ => false
  end.

(** The effects that are calls on the store. *)
Definition store_call (e : Effect) : bool :=
  match e with
  | Send _ _ => false
  | Persist _ | Query _ | Failed _ => true
  end.

End WithCodec.

Arguments AssistantMessage JSValue : clear implicits.
Arguments ClientMsg JSValue : clear implicits.
Arguments ServerMsg JSValue : clear implicits.
Arguments DbCall JSValue : clear implicits.
Arguments Effect JSValue : clear implicits.
Arguments Event JSValue : clear implicits.

End Relay.

(** ** The client's repair of tool messages (client/index.ts) *)

Module Client.

(** The content blocks of the model API, by their [type]. *)
Inductive ContentBlock :=
  | text (text : string)
  | image (source : string)
  | tool_use (id name input : string)
  | tool_result (tool_use_id content : string).

Global Instance ContentBlock_eq_dec : EqDecision ContentBlock.
Proof. solve_decision. Defined.

(** [content] of a message: a string or an array of blocks. *)
Inductive MessageContent :=
  | Text (s : string)
  | Blocks (blocks : list ContentBlock).

Global Instance MessageContent_eq_dec : EqDecision MessageContent.
Proof. solve_decision. Defined.

Record MessageParam := {
  role : Role;
  content : MessageContent
}.

Global Instance MessageParam_eq_dec : EqDecision MessageParam.
Proof. solve_decision. Defined.

(** [block.type === 'tool_result'] *)
Definition is_tool_result (block : ContentBlock) : bool :=
  match block with
  | tool_result _ _ => true
  | _ => false
  end.

(** The ids of the [tool_use] blocks of a content; a string content has
    none ([Array.isArray(prevMsg.content) ? prevMsg.content : []]). *)
Definition tool_use_ids (c : MessageContent) : gset string :=
  match c with
  | Text _ => ∅
  | Blocks blocks =>
      list_to_set
        (omap (λ block, match block with
                        | tool_use id _ _ => Some id
                        | _ => None
                        end) blocks)
  end.

(** [toolUseIds.has(block.tool_use_id)], on a [tool_result] block. *)
Definition has_matching_tool_use (toolUseIds : gset string)
    (block : ContentBlock) : bool :=
  match block with
  | tool_result tool_use_id _ => bool_decide (tool_use_id ∈ toolUseIds)
  | _ => false
  end.

(** The body of the loop: [result] so far, and the message at hand. *)
Definition validate_message (result : list MessageParam) (msg : MessageParam)
    : list MessageParam :=
  match role msg, content msg with
  | user, Blocks blocks =>
      let toolResults := filter is_tool_result blocks in
      if bool_decide (0 < length toolResults)%nat then
        (* Find the previous assistant message *)
        match last result with
        | None => result
        | Some prevMsg =>
            if bool_decide (role prevMsg ≠ assistant) then result
            else
              let toolUseIds := tool_use_ids (content prevMsg) in
              let validToolResults :=
                filter (has_matching_tool_use toolUseIds) toolResults in
              if bool_decide (length validToolResults = 0%nat) then result
              else
                let otherContent :=
                  filter (λ block, negb (is_tool_result block)) blocks in
                let validContent := otherContent ++ validToolResults in
                if bool_decide (0 < length validContent)%nat then
                  result ++ [{| role := user; content := Blocks validContent |}]
                else result
        end
      else result ++ [msg]
  | _, _ => result ++ [msg]
  end.

Definition validateToolMessages (messages : list MessageParam)
    : list MessageParam :=
  foldl validate_message [] messages.

(** A user message that carries at least one [tool_result] block. *)
Definition carries_tool_result (msg : MessageParam) : bool :=
  match role msg, content msg with
  | user, Blocks blocks => existsb is_tool_result blocks
  | _, _ => false
  end.

Definition blocks_of (msg : MessageParam) : list ContentBlock :=
  match content msg with
  | Text _ => []
  | Blocks blocks => blocks
  end.

(** [content] of a message of a sync.state, by what the conversion tests:
    a string, an array, another object, or anything else ([null],
    [undefined], a number, a boolean). *)
Inductive SyncedContent :=
  | synced_string (s : string)
  | synced_array (blocks : list ContentBlock)
  | synced_object (block : ContentBlock)
  | synced_other.

Record SyncedMessage := {
  synced_role : Role;
  synced_content : SyncedContent
}.

(** The [map] of [convertToAnthropicFormat]. *)
Definition convert_message (msg : SyncedMessage) : MessageParam :=
  {| role := synced_role msg;
     content :=
       match synced_content msg with
       | synced_string s => Text s
       | synced_array blocks => Blocks blocks
       | synced_object block => Blocks [block]
       | synced_other => Text ""
       end |}.

(** The [filter] of [convertToAnthropicFormat]: no empty message. *)
Definition has_content (msg : MessageParam) : bool :=
  match content msg with
  | Text s => bool_decide (0 < String.length s)%nat
  | Blocks blocks => bool_decide (0 < length blocks)%nat
  end.

Definition convertToAnthropicFormat (messages : list SyncedMessage)
    : list MessageParam :=
  validateToolMessages (filter has_content (convert_message <$> messages)).

End Client.

(** ** The tool executor (client/tools/executor.ts) *)

Module Executor.

(** *** Node's [path] module, POSIX flavour

    [path.resolve], [path.join] and [path.dirname] belong to the runtime;
    they are written out here after its [lib/path.js]. *)

(** The pieces of [s] between occurrences of [sep]. *)
Fixpoint split_on (sep : ascii) (s : string) : list string :=
  match s with
  | EmptyString => [EmptyString]
  | String c s' =>
      if bool_decide (c = sep) then EmptyString :: split_on sep s'
      else
        match split_on sep s' with
        | [] => [String c EmptyString]
        | piece :: pieces => String c piece :: pieces
        end
  end.

(** [normalizeString]: the segments left after [.], [..] and empty segments
    are resolved; [stack] is the result so far, last segment first. *)
Fixpoint normalize_segments (allowAboveRoot : bool) (stack segments : list string)
    : list string :=
  match segments with
  | [] => reverse stack
  | segment :: rest =>
      if bool_decide (segment = "" ∨ segment = ".") then
        normalize_segments allowAboveRoot stack rest
      else if bool_decide (segment = "..") then
        match stack with
        | top :: below =>
            if bool_decide (top = "..") then
              normalize_segments allowAboveRoot (".." :: stack) rest
            else normalize_segments allowAboveRoot below rest
        | [] =>
            normalize_segments allowAboveRoot
              (if allowAboveRoot then [".."] else []) rest
        end
      else normalize_segments allowAboveRoot (segment :: stack) rest
  end.

Definition normalizeString (allowAboveRoot : bool) (p : string) : string :=
  String.concat "/" (normalize_segments allowAboveRoot [] (split_on "/"%char p)).

Definition isAbsolute (p : string) : bool := String.prefix "/" p.

(** [path.resolve(from, to)] in a process whose working directory is [cwd]
    (an absolute path): the arguments are taken from the right until an
    absolute one is met, empty ones are skipped. *)
Definition resolve (cwd from to : string) : string :=
  let joined :=
    if isAbsolute to then to
    else if isAbsolute from then from +:+ "/" +:+ to
    else cwd +:+ "/" +:+ from +:+ "/" +:+ to in
  "/" +:+ normalizeString false joined.

(** [path.join(a, b)]. *)
Definition join (a b : string) : string :=
  let joined :=
    if bool_decide (a = "") then b
    else if bool_decide (b = "") then a
    else a +:+ "/" +:+ b in
  if bool_decide (joined = "") then "."
  else
    let body := normalizeString (negb (isAbsolute joined)) joined in
    let trailing := bool_decide (last (split_on "/"%char joined) = Some "") in
    if bool_decide (body = "") then
      if isAbsolute joined then "/" else if trailing then "./" else "."
    else
      (if isAbsolute joined then "/" else "")
        +:+ body +:+ (if trailing then "/" else "").

(** [path.dirname] of a resolved path. *)
Definition dirname (resolved : string) : string :=
  "/" +:+ String.concat "/"
            (reverse (tail (reverse
               (normalize_segments false [] (split_on "/"%char resolved))))).

(** *** The file system

    What the calls of [fs/promises] and [glob] answer is not decided by the
    executor: it is read from [FileSystem]. *)

Record FsError := {
  code : string;
  message : string
}.

Inductive DirentType := file | directory.

Record Dirent := {
  name : string;
  isDirectory : bool
}.

Record FileSystem := {
  fs_readFile : string → string + FsError;
  fs_mkdir : string → option FsError;
  fs_writeFile : string → string → option FsError;
  fs_readdir : string → list Dirent + FsError;
  fs_glob : string → string → list string + FsError    (* pattern, cwd *)
}.

(** The calls made on the file system, in program order. *)
Inductive FsCall :=
  | call_readFile (fullPath : string)
  | call_mkdir (fullPath : string)
  | call_writeFile (fullPath content : string)
  | call_readdir (fullPath : string)
  | call_glob (pattern cwd : string).

Record DirectoryEntry := {
  de_name : string;
  de_type : DirentType;
  de_path : string
}.

Record ToolResult := {
  success : bool;
  path : option string;
  content : option string;
  entries : option (list DirectoryEntry);
  matches : option (list string);
  count : option nat;
  size : option nat;
  bytesWritten : option nat;
  error : option string;
  suggestion : option string
}.

Definition failed (e : string) : ToolResult :=
  {| success := false; path := None; content := None; entries := None;
     matches := None; count := None; size := None; bytesWritten := None;
     error := Some e; suggestion := None |}.

Definition succeeded : ToolResult :=
  {| success := true; path := None; content := None; entries := None;
     matches := None; count := None; size := None; bytesWritten := None;
     error := None; suggestion := None |}.

Definition with_path (r : ToolResult) (p : string) : ToolResult :=
  {| success := success r; path := Some p; content := content r;
     entries := entries r; matches := matches r; count := count r;
     size := size r; bytesWritten := bytesWritten r;
     error := error r; suggestion := suggestion r |}.

Definition with_suggestion (r : ToolResult) (s : string) : ToolResult :=
  {| success := success r; path := path r; content := content r;
     entries := entries r; matches := matches r; count := count r;
     size := size r; bytesWritten := bytesWritten r;
     error := error r; suggestion := Some s |}.

(** The input of a tool: the fields the executor reads, each absent or
    present. *)
Record ToolInput := {
  input_path : option string;
  input_content : option string;
  input_pattern : option string
}.

(** The message of the [TypeError] thrown by the runtime when an argument
    that must be a string is [undefined]. *)
Definition invalid_argument : string :=
  "The argument must be of type string. Received undefined".

Section WithFileSystem.

Variable cwd : string.            (* process.cwd(), an absolute path *)
Variable projectRoot : string.    (* this.projectRoot *)
Variable fs : FileSystem.

Definition readFile (relativePath : string) : list FsCall * ToolResult :=
  let fullPath := resolve cwd projectRoot relativePath in
  ([call_readFile fullPath],
   match fs_readFile fs fullPath with
   | inl text =>
       {| success := true; path := Some relativePath; content := Some text;
          entries := None; matches := None; count := None;
          size := Some (String.length text); bytesWritten := None;
          error := None; suggestion := None |}
   | inr e =>
       if bool_decide (code e = "ENOENT") then
         with_suggestion
           (with_path (failed ("File not found: " +:+ relativePath)) relativePath)
           "This file may not exist in your local project. Ensure all team members have synced the latest code from git, or check if the file path is correct."
       else if bool_decide (code e = "EISDIR") then
         with_suggestion
           (with_path
              (failed ("Path is a directory, not a file: " +:+ relativePath))
              relativePath)
           "Use list_directory tool to list directory contents"
       else
         with_path (failed ("Error reading file: " +:+ message e)) relativePath
   end).

(** [content] is [None] when [input.content] is undefined: [fs.writeFile]
    then rejects its argument without touching the file system. *)
Definition writeFile (relativePath : string) (content : option string)
    : list FsCall * ToolResult :=
  let fullPath := resolve cwd projectRoot relativePath in
  let writing_failed (e : string) :=
    with_path (failed ("Error writing file: " +:+ e)) relativePath in
  match fs_mkdir fs (dirname fullPath) with
  | Some e => ([call_mkdir (dirname fullPath)], writing_failed (message e))
  | None =>
      match content with
      | None => ([call_mkdir (dirname fullPath)], writing_failed invalid_argument)
      | Some text =>
          ([call_mkdir (dirname fullPath); call_writeFile fullPath text],
           match fs_writeFile fs fullPath text with
           | Some e => writing_failed (message e)
           | None =>
               {| success := true; path := Some relativePath; content := None;
                  entries := None; matches := None; count := None;
                  size := None; bytesWritten := Some (String.length text);
                  error := None; suggestion := None |}
           end)
      end
  end.

Definition listDirectory (relativePath : string) : list FsCall * ToolResult :=
  let fullPath := resolve cwd projectRoot relativePath in
  ([call_readdir fullPath],
   match fs_readdir fs fullPath with
   | inl dirents =>
       let files :=
         (λ entry, {| de_name := name entry;
                      de_type := if isDirectory entry then directory else file;
                      de_path := join relativePath (name entry) |})
           <$> dirents in
       {| success := true; path := Some relativePath; content := None;
          entries := Some files; matches := None; count := Some (length files);
          size := None; bytesWritten := None;
          error := None; suggestion := None |}
   | inr e =>
       if bool_decide (code e = "ENOENT") then
         with_suggestion
           (with_path (failed ("Directory not found: " +:+ relativePath))
              relativePath)
           "Check if the directory path is correct"
       else if bool_decide (code e = "ENOTDIR") then
         with_suggestion
           (with_path (failed ("Path is not a directory: " +:+ relativePath))
              relativePath)
           "Use read_file tool to read file contents"
       else
         with_path (failed ("Error listing directory: " +:+ message e))
           relativePath
   end).

Definition searchFiles (pattern : string) : list FsCall * ToolResult :=
  ([call_glob pattern projectRoot],
   match fs_glob fs pattern projectRoot with
   | inl found =>
       {| success := true; path := None; content := None; entries := None;
          matches := Some (merge_sort (λ a b, String.leb a b) found);
          count := Some (length found);
          size := None; bytesWritten := None;
          error := None; suggestion := None |}
   | inr e =>
       with_suggestion (failed ("Error searching files: " +:+ message e))
         "Check if the glob pattern is valid"
   end).

(** The security check at the head of [execute]: [true] when the call is
    refused.  It runs only for a truthy [input.path]. *)
Definition path_refused (input : ToolInput) : bool :=
  match input_path input with
  | Some p =>
      if bool_decide (p = "") then false
      else negb (String.prefix projectRoot (resolve cwd projectRoot p))
  | None => false
  end.

(** [execute]: the calls made on the file system and the result (before
    [JSON.stringify]).  An undefined [path] makes [path.resolve] throw, and
    the [catch] of [execute] answers with the message of the error. *)
Definition execute (toolName : string) (input : ToolInput)
    : list FsCall * ToolResult :=
  if path_refused input then
    ([], with_suggestion (failed "Path must be within project root")
           "Use relative paths from the project directory")
  else if bool_decide (toolName = "read_file") then
    match input_path input with
    | Some p => readFile p
    | None => ([], failed invalid_argument)
    end
  else if bool_decide (toolName = "write_file") then
    match input_path input with
    | Some p => writeFile p (input_content input)
    | None => ([], failed invalid_argument)
    end
  else if bool_decide (toolName = "list_directory") then
    match input_path input with
    | Some p => listDirectory p
    | None => ([], failed invalid_argument)
    end
  else if bool_decide (toolName = "search_files") then
    match input_pattern input with
    | Some pattern => searchFiles pattern
    | None =>
        ([], with_suggestion
               (failed ("Error searching files: " +:+ invalid_argument))
               "Check if the glob pattern is valid")
    end
  else ([], failed ("Unknown tool: " +:+ toolName)).

(** The path of the file system a call touches ([glob] walks under its
    [cwd]). *)
Definition touched (call : FsCall) : string :=
  match call with
  | call_readFile p | call_mkdir p | call_writeFile p _ | call_readdir p => p
  | call_glob _ dir => dir
  end.

(** The calls that change the file system. *)
Definition writes (call : FsCall) : bool :=
  match call with
  | call_mkdir _ | call_writeFile _ _ => true
  | _ => false
  end.

(** A resolved path is within the root when it is the root or lies below
    it. *)
Definition within_root (p : string) : bool :=
  bool_decide (p = projectRoot) || String.prefix (projectRoot +:+ "/") p.

End WithFileSystem.

End Executor.

(** ** The connection of a client (client/api/websocket-client.ts) *)

Module Connection.

Definition maxReconnectAttempts : nat := 10.

(** Start with 2 seconds. *)
Definition reconnectDelay : Z := 2000.

(** [Math.min(this.reconnectDelay * Math.pow(2, this.reconnectAttempts - 1),
    30000)], on the counter already incremented. *)
Definition backoff (reconnectAttempts : nat) : Z :=
  Z.min (reconnectDelay * 2 ^ (Z.of_nat reconnectAttempts - 1)) 30000.

(** [this.ws] ([None] for [null], else the state of the socket) and the
    counter of attempts. *)
Record State := {
  ws : option Relay.ReadyState;
  reconnectAttempts : nat
}.

Definition initial : State := {| ws := None; reconnectAttempts := 0 |}.

(** What happens to a connection: it is asked to connect (by its owner or
    by the timer of a reconnection), its socket opens or closes, its owner
    disconnects it. *)
Inductive Event :=
  | Connect
  | Opened
  | Closed
  | Disconnect.

Inductive Effect :=
  | SendClientConnect                       (* this.send({type: 'client.connect', ..}) *)
  | Emit (event : string)
  | EmitReconnecting (attempt : nat) (delay : Z)
  | ConnectAfter (delay : Z)                (* setTimeout, then this.connect(..) *)
  | CloseSocket.                            (* this.ws.close() *)

(** [send]: [None] where it throws. *)
Definition send (st : State) : option Effect :=
  match ws st with
  | Some Relay.OPEN => Some SendClientConnect
  | _ => None
  end.

Definition isConnected (st : State) : bool :=
  bool_decide (ws st = Some Relay.OPEN).

Definition step (ev : Event) (st : State) : State * list Effect :=
  match ev with
  | Connect =>
      ({| ws := Some Relay.CONNECTING;
          reconnectAttempts := reconnectAttempts st |}, [])
  | Opened =>
      ({| ws := (λ _, Relay.OPEN) <$> ws st; reconnectAttempts := 0 |},
       match ws st with
       | Some _ => [SendClientConnect]
       | None => []                         (* send throws *)
       end)
  | Closed =>
      let closed := (λ _, Relay.CLOSED) <$> ws st in
      if bool_decide (reconnectAttempts st < maxReconnectAttempts)%nat then
        (* attemptReconnect *)
        let attempt := S (reconnectAttempts st) in
        ({| ws := closed; reconnectAttempts := attempt |},
         [Emit "disconnected";
          EmitReconnecting attempt (backoff attempt);
          ConnectAfter (backoff attempt)])
      else
        ({| ws := closed; reconnectAttempts := reconnectAttempts st |},
         [Emit "disconnected"; Emit "reconnect_failed"])
  | Disconnect =>
      match ws st with
      | Some _ =>
          (* Set attempts to max to prevent reconnection *)
          ({| ws := None; reconnectAttempts := maxReconnectAttempts |},
           [CloseSocket])
      | None => (st, [])
      end
  end.

Fixpoint run (events : list Event) (st : State) : State * list Effect :=
  match events with
  | [] => (st, [])
  | ev :: events' =>
      let '(st', effects) := step ev st in
      let '(st'', effects') := run events' st' in
      (st'', effects ++ effects')
  end.

Definition is_reconnection (e : Effect) : bool :=
  match e with
  | ConnectAfter _ => true
  | _ => false
  end.

End Connection.

(** ** The terminal client (client/index.ts)

    The handlers of the client that decide when an input is sent: the lock
    flag, the pending input, the local conversation.  The turn with the model
    ([callAnthropicAPI]) is an effect of the model, not unfolded. *)

Module Tui.

(** [String.prototype.toLowerCase] and [trim], on ASCII text. *)
Definition lower (c : ascii) : ascii :=
  let n := nat_of_ascii c in
  if bool_decide (65 ≤ n ≤ 90)%nat then ascii_of_nat (n + 32) else c.

Fixpoint toLowerCase (s : string) : string :=
  match s with
  | EmptyString => EmptyString
  | String c s' => String (lower c) (toLowerCase s')
  end.

Definition is_white (c : ascii) : bool :=
  let n := nat_of_ascii c in
  bool_decide (9 ≤ n ≤ 13)%nat || bool_decide (n = 32%nat).

Fixpoint trimStart (s : string) : string :=
  match s with
  | EmptyString => EmptyString
  | String c s' => if is_white c then trimStart s' else s
  end.

Fixpoint trimEnd (s : string) : string :=
  match s with
  | EmptyString => EmptyString
  | String c s' =>
      match trimEnd s' with
      | EmptyString => if is_white c then EmptyString else String c EmptyString
      | rest => String c rest
      end
  end.

Definition trim (s : string) : string := trimEnd (trimStart s).

Record State := {
  clientId : string;
  username : string;
  hasLock : bool;
  pendingInput : option string;
  conversation : list Client.MessageParam;
  initialSyncDone : bool
}.

(** [new TUIClient(config)]. *)
Definition start (clientId username : string) : State :=
  {| clientId := clientId; username := username; hasLock := false;
     pendingInput := None; conversation := []; initialSyncDone := false |}.

Definition with_hasLock (st : State) (b : bool) : State :=
  {| clientId := clientId st; username := username st; hasLock := b;
     pendingInput := pendingInput st; conversation := conversation st;
     initialSyncDone := initialSyncDone st |}.

Definition with_pendingInput (st : State) (p : option string) : State :=
  {| clientId := clientId st; username := username st; hasLock := hasLock st;
     pendingInput := p; conversation := conversation st;
     initialSyncDone := initialSyncDone st |}.

Definition with_conversation (st : State) (c : list Client.MessageParam)
    : State :=
  {| clientId := clientId st; username := username st; hasLock := hasLock st;
     pendingInput := pendingInput st; conversation := c;
     initialSyncDone := initialSyncDone st |}.

(** Messages to the relay. *)
Inductive Outgoing :=
  | lock_request
  | lock_release
  | user_message (content : string)
  | sync_request.

Inductive UiCall :=
  | showStatus (text : string)
  | showError (text : string)
  | setLockState (locked : bool)
  | updateLockStatus (holder : option (string * string))
  | appendUserMessage (username content : string)
  | renderConversation
  | clearConversation
  | updateParticipants
  | finalizeAssistantMessage
  | showThinking
  | destroy.

Inductive Action :=
  | Send (msg : Outgoing)                  (* wsClient.send, when connected *)
  | Ui (call : UiCall)
  | CallModel (messages : list Client.MessageParam)   (* callAnthropicAPI *)
  | DisconnectSocket                       (* wsClient.disconnect() *)
  | Exit.                                  (* process.exit(0) *)

(** [requestLock]; [online] tells whether [wsClient.send] goes through.
    When it throws, nothing of what follows it runs ([None]). *)
Definition requestLock (online : bool) : option (list Action) :=
  if online then Some [Send lock_request; Ui (showStatus "Requesting lock...")]
  else None.

(** [releaseLock]; the state is [None] where [wsClient.send] throws. *)
Definition releaseLock (online : bool) (st : State)
    : option State * list Action :=
  if hasLock st then
    if online then
      (Some (with_hasLock st false), [Send lock_release; Ui (setLockState false)])
    else (None, [])
  else (Some st, []).

(** [handleUserMessage]: the message is sent, pushed on the conversation and
    shown, then the model is called.  When the send throws, the error is
    shown and the lock released. *)
Definition handleUserMessage (online : bool) (input : string) (st : State)
    : State * list Action :=
  if online then
    let st' :=
      with_conversation st
        (conversation st
           ++ [{| Client.role := user; Client.content := Client.Text input |}]) in
    (st',
     [Send (user_message input);
      Ui (appendUserMessage (username st) input);
      Ui showThinking;
      CallModel (conversation st')])
  else
    let '(released, actions) := releaseLock online st in
    (default st released,
     Ui (showError "Error: WebSocket is not connected") :: actions).

Definition handleCommand (online : bool) (cmd : string) (st : State)
    : State * list Action :=
  let command := trim (toLowerCase cmd) in
  if bool_decide (command = "/lock") then
    (st, default [] (requestLock online))
  else if bool_decide (command = "/release") then
    let '(released, actions) := releaseLock online st in
    (default st released, actions)
  else if bool_decide (command = "/clear") then
    (with_conversation st [],
     [Ui clearConversation; Ui (showStatus "Conversation cleared")])
  else if bool_decide (command = "/quit" ∨ command = "/exit") then
    (* cleanup, then process.exit(0) *)
    match releaseLock online st with
    | (Some st', actions) =>
        (st', actions ++ [DisconnectSocket; Ui destroy; Exit])
    | (None, actions) => (st, actions)
    end
  else if bool_decide (command = "/help") then
    (st, [Ui (showStatus "Commands: /clear, /lock, /release, /quit, /help")])
  else (st, [Ui (showError ("Unknown command: " +:+ command))]).

(** What the client reacts to: a line submitted by the user, and the
    messages of the relay. *)
Inductive Input :=
  | Submit (input : string)
  | LockGranted (clientId username : string)
  | LockReleased
  | LockDenied (holder : string)
  | SyncState (messages : list Client.SyncedMessage)
      (lockHolder : option (string * string))
  | UserMessageBroadcast (username content : string)
  | AssistantCompleteBroadcast (content : Client.MessageContent).

Definition step (online : bool) (input : Input) (st : State)
    : State * list Action :=
  match input with
  | Submit line =>
      if String.prefix "/" line then handleCommand online line st
      else if negb (hasLock st) then
        match requestLock online with
        | Some actions =>
            (* Store input for when lock is granted *)
            (with_pendingInput st (Some line), actions)
        | None => (st, [])
        end
      else handleUserMessage online line st
  | LockGranted granted uname =>
      if bool_decide (granted = clientId st) then
        let st' := with_hasLock st true in
        let shown :=
          [Ui (setLockState true);
           Ui (showStatus "You have the lock - type your message")] in
        match pendingInput st with
        | Some line =>
            if bool_decide (line = "") then (st', shown)
            else
              let '(st'', actions) :=
                handleUserMessage online line (with_pendingInput st' None) in
              (st'', shown ++ actions)
        | None => (st', shown)
        end
      else (st, [Ui (updateLockStatus (Some (granted, uname)))])
  | LockReleased =>
      (with_hasLock st false,
       [Ui (setLockState false); Ui (updateLockStatus None)])
  | LockDenied holder =>
      (st, [Ui (showError ("Lock denied. " +:+ holder +:+ " is currently typing."))])
  | SyncState messages holder =>
      (* Only replace conversation on initial sync *)
      if initialSyncDone st then
        (st, [Ui renderConversation; Ui updateParticipants;
              Ui (updateLockStatus holder)])
      else
        ({| clientId := clientId st; username := username st;
            hasLock := hasLock st; pendingInput := pendingInput st;
            conversation := Client.convertToAnthropicFormat messages;
            initialSyncDone := true |},
         [Ui renderConversation; Ui updateParticipants;
          Ui (updateLockStatus holder)])
  | UserMessageBroadcast uname text =>
      (with_conversation st
         (conversation st
            ++ [{| Client.role := user; Client.content := Client.Text text |}]),
       [Ui (appendUserMessage uname text)])
  | AssistantCompleteBroadcast c =>
      (with_conversation st
         (conversation st
            ++ [{| Client.role := assistant; Client.content := c |}]),
       [Ui finalizeAssistantMessage])
  end.

Fixpoint run (inputs : list (bool * Input)) (st : State) : State * list Action :=
  match inputs with
  | [] => (st, [])
  | (online, input) :: inputs' =>
      let '(st', actions) := step online input st in
      let '(st'', actions') := run inputs' st' in
      (st'', actions ++ actions')
  end.

(** A line that is not a command and would be sent when the lock comes. *)
Definition is_message (line : string) : bool :=
  negb (String.prefix "/" line) && negb (bool_decide (line = "")).

Definition starts_turn (a : Action) : bool :=
  match a with
  | Send (user_message _) => true
  | _ => false
  end.

(** While the client waits for the lock: lines that are messages are
    submitted (the connection being up), requests are denied, the lock goes
    to others and comes back, syncs and messages of others arrive. *)
Definition keeps_waiting (me : string) (entry : bool * Input) : bool :=
  match entry with
  | (online, Submit line) => online && is_message line
  | (_, LockGranted granted _) => negb (bool_decide (granted = me))
  | _ => true
  end.

(** The line submitted last, [pending] when none was. *)
Fixpoint last_submitted (inputs : list (bool * Input)) (pending : option string)
    : option string :=
  match inputs with
  | [] => pending
  | (_, Submit line) :: inputs' => last_submitted inputs' (Some line)
  | _ :: inputs' => last_submitted inputs' pending
  end.

End Tui.

(** ** Scenarios

    The concrete codec, environments and events the examples run on. *)

Module Scenario.

Import Relay.

(** A value is written as its JSON text; a text parses when it opens an
    object or an array. *)
Definition opens_json (s : string) : bool :=
  String.prefix "{" s || String.prefix "[" s.

Global Instance text_codec : JsonCodec string := {|
  JSON_stringify := λ v, v;
  JSON_parse := λ s, if opens_json s then Some s else None
|}.

(** Every socket is open, and the clock reads [t]. *)
Definition env_at (t : Z) : Env :=
  {| now := t; rnd := "k3x9q"; readyState := λ _, OPEN |}.

Definition alice_joins : Env * Event string :=
  (env_at 1000, Message 1%nat (client_connect "S1" (str "alice") "Alice")).

Definition bob_joins : Env * Event string :=
  (env_at 1500, Message 2%nat (client_connect "S1" (str "bob") "Bob")).

Definition alice_requests : Env * Event string :=
  (env_at 2000, Message 1%nat (lock_request "S1" (str "alice") "Alice")).

Definition bob_requests : Env * Event string :=
  (env_at 2500, Message 2%nat (lock_request "S1" (str "bob") "Bob")).

Definition alice_says_hello : Env * Event string :=
  (env_at 3000, Message 1%nat (user_message "S1" (str "alice") "Alice" "hello")).

(** A lock request that names a client the session does not have. *)
Definition stranger_requests : Env * Event string :=
  (env_at 2000, Message 3%nat (lock_request "S1" (str "ghost") "Ghost")).

(** A lock request whose [clientId] is the empty string. *)
Definition nameless_requests : Env * Event string :=
  (env_at 2000, Message 3%nat (lock_request "S1" (str "") "Nobody")).

(** A lock request whose [clientId] is [null]. *)
Definition null_requests : Env * Event string :=
  (env_at 2000, Message 3%nat (lock_request "S1" null "Mallory")).

(** A user.message whose [clientId] is [null]. *)
Definition null_says_hi : Env * Event string :=
  (env_at 3000, Message 3%nat (user_message "S1" null "Mallory" "hi")).

(** A tool.result whose [clientId] is [null]. *)
Definition null_reports_tool : Env * Event string :=
  (env_at 3500, Message 3%nat (tool_result "S1" null "toolu_01" "{}" false)).

Definition alice_reports_tool : Env * Event string :=
  (env_at 3500,
   Message 1%nat (tool_result "S1" (str "alice") "toolu_01" "{}" false)).

Definition alice_leaves : Env * Event string :=
  (env_at 4000, Close 1%nat).

Definition check_at (t : Z) : Env * Event string :=
  (env_at t, LockTimeoutCheck).

Definition cleanup_at (t : Z) : Env * Event string :=
  (env_at t, DailyCleanup).

(** Alice and Bob are in session S1 and Alice holds the lock, granted at
    2000. *)
Definition alice_holds : State :=
  (run [alice_joins; bob_joins; alice_requests] initial).1.

(** Alice is alone in session S1, holds the lock and has said hello. *)
Definition alice_alone : State :=
  (run [alice_joins; alice_requests; alice_says_hello] initial).1.

(** Alice and Bob have stayed connected and silent for 31 days: the daily
    cleanup has removed the row of S1 from the store.  Then Alice asks for
    the lock, speaks, and reports a tool result. *)
Definition alice_stale : State :=
  (run [alice_joins; bob_joins; cleanup_at 2678400000] initial).1.

Definition alice_requests_late : Env * Event string :=
  (env_at 2678401000, Message 1%nat (lock_request "S1" (str "alice") "Alice")).

Definition alice_says_late : Env * Event string :=
  (env_at 2678402000,
   Message 1%nat (user_message "S1" (str "alice") "Alice" "anyone there?")).


(** A project root, and a sibling directory whose name starts with the name
    of the root. *)
Definition project_root : string := "/home/user/proj".

Definition sibling_file : Executor.ToolInput :=
  {| Executor.input_path := Some "../proj-evil/secret.txt";
     Executor.input_content := None;
     Executor.input_pattern := None |}.

(** Alice has joined and a tool result of hers is stored. *)
Definition alice_reported : State :=
  (run [alice_joins; alice_reports_tool] initial).1.

(** The terminal client of Alice, as started, and once it has the lock. *)
Definition alice_client : Tui.State := Tui.start "alice" "Alice".

Definition alice_typing : Tui.State := Tui.with_hasLock alice_client true.

(** Alice submits a line, is denied the lock, and submits another. *)
Definition alice_waits : list (bool * Tui.Input) :=
  [(true, Tui.Submit "hello"); (true, Tui.LockDenied "Bob");
   (true, Tui.Submit "hello again")].

(** A connection that is opened and closes, twice. *)
Definition flaky_link : list Connection.Event :=
  [Connection.Connect; Connection.Closed; Connection.Connect; Connection.Closed].

(** A file system without any file, where nothing can be created. *)
Definition empty_disk : Executor.FileSystem :=
  let enoent :=
    {| Executor.code := "ENOENT"; Executor.message := "no such file or directory" |} in
  {| Executor.fs_readFile := λ _, inr enoent;
     Executor.fs_mkdir := λ _, Some enoent;
     Executor.fs_writeFile := λ _ _, Some enoent;
     Executor.fs_readdir := λ _, inr enoent;
     Executor.fs_glob := λ _ _, inr enoent |}.

End Scenario.

(** * Properties *)

(** ** The repair of tool messages *)

Section ClientProperties.
Import Client.

Lemma validateToolMessages_snoc ms m :
  validateToolMessages (ms ++ [m])
  = validate_message (validateToolMessages ms) m.
Proof. unfold validateToolMessages. by rewrite foldl_app. Qed.

Lemma matching_is_tool_result ids b :
  has_matching_tool_use ids b → is_tool_result b.
Proof. by destruct b. Qed.

Lemma filter_matching_tool_results ids (blocks : list ContentBlock) :
  filter (has_matching_tool_use ids) (filter is_tool_result blocks)
  = filter (has_matching_tool_use ids) blocks.
Proof. apply list_filter_filter_l, matching_is_tool_result. Qed.

Lemma filter_tool_result_others (blocks : list ContentBlock) :
  filter is_tool_result (filter (λ b, negb (is_tool_result b)) blocks) = [].
Proof.
  rewrite list_filter_filter. induction blocks as [|b blocks IH]; [done|].
  rewrite filter_cons_False; [done|]. intros [H1 H2]. by destruct (is_tool_result b).
Qed.

Lemma filter_others_tool_results (P : ContentBlock → Prop) `{!∀ b, Decision (P b)}
    (blocks : list ContentBlock) :
  (∀ b, P b → is_tool_result b) →
  filter (λ b, negb (is_tool_result b)) (filter P blocks) = [].
Proof.
  intros HP. rewrite list_filter_filter. induction blocks as [|b blocks IH]; [done|].
  rewrite filter_cons_False; [done|]. intros [H1 H2%HP]. by destruct (is_tool_result b).
Qed.

Lemma existsb_tool_result_filter (blocks : list ContentBlock) :
  existsb is_tool_result blocks = true ↔ filter is_tool_result blocks ≠ [].
Proof.
  induction blocks as [|b blocks IH]; simpl; [done|].
  destruct (is_tool_result b) eqn:E; simpl.
  - rewrite filter_cons_True; [done|by apply Is_true_true_2].
  - rewrite filter_cons_False; [done|by apply Is_true_false_2].
Qed.

Lemma length_pos_nonempty {A} (l : list A) : (0 < length l)%nat ↔ l ≠ [].
Proof. destruct l; simpl; split; (done || lia). Qed.

(** The loop body on a user message that carries tool results. *)
Lemma validate_message_carrier out blocks :
  existsb is_tool_result blocks = true →
  validate_message out {| role := user; content := Blocks blocks |}
  = match last out with
    | None => out
    | Some prev =>
        if bool_decide (role prev = assistant) then
          let valid :=
            filter (has_matching_tool_use (tool_use_ids (content prev))) blocks in
          if bool_decide (valid = []) then out
          else out ++ [{| role := user;
                          content := Blocks (filter (λ b, negb (is_tool_result b)) blocks
                                             ++ valid) |}]
        else out
    end.
Proof.
  intros Hc%existsb_tool_result_filter. unfold validate_message; simpl.
  rewrite bool_decide_eq_true_2 by (by apply length_pos_nonempty).
  destruct (last out) as [prev|]; [|done].
  rewrite filter_matching_tool_results.
  destruct (decide (role prev = assistant)) as [Ha|Ha].
  - rewrite (bool_decide_eq_false_2 (role prev ≠ assistant)) by (by intros ?).
    rewrite (bool_decide_eq_true_2 (role prev = assistant)) by done. simpl.
    set (valid := filter _ blocks).
    destruct (decide (valid = [])) as [Hv|Hv].
    + rewrite Hv. by rewrite !bool_decide_eq_true_2.
    + rewrite (bool_decide_eq_false_2 (length valid = 0%nat))
        by (by intros ?%length_zero_iff_nil).
      rewrite (bool_decide_eq_false_2 (valid = [])) by done.
      rewrite bool_decide_eq_true_2; [done|].
      rewrite length_app. apply length_pos_nonempty in Hv. lia.
  - rewrite (bool_decide_eq_true_2 (role prev ≠ assistant)) by done.
    by rewrite (bool_decide_eq_false_2 (role prev = assistant)).
Qed.

Lemma validate_message_other out m :
  carries_tool_result m = false → validate_message out m = out ++ [m].
Proof.
  unfold carries_tool_result, validate_message.
  destruct (role m); [|done]. destruct (content m) as [s|blocks]; [done|].
  intros Hc. rewrite bool_decide_eq_false_2; [done|].
  rewrite length_pos_nonempty, <-existsb_tool_result_filter. by rewrite Hc.
Qed.

Lemma kept_carries (others valid : list ContentBlock) :
  valid ≠ [] → (∀ b, b ∈ valid → is_tool_result b) →
  carries_tool_result {| role := user; content := Blocks (others ++ valid) |} = true.
Proof.
  intros Hne Hall. simpl. unfold carries_tool_result; simpl.
  rewrite existsb_app. destruct valid as [|b valid]; [done|].
  simpl. rewrite (Is_true_true_1 (is_tool_result b)); [|apply Hall; left].
  by rewrite orb_true_r.
Qed.

Lemma validateToolMessages_others ms :
  filter (λ m, carries_tool_result m = false) (validateToolMessages ms)
  = filter (λ m, carries_tool_result m = false) ms.
Proof.
  induction ms as [|m ms IH] using rev_ind; [done|].
  rewrite validateToolMessages_snoc, (filter_app _ ms).
  destruct (carries_tool_result m) eqn:Hc.
  - rewrite (filter_cons_False _ m), filter_nil, app_nil_r by (by rewrite Hc).
    destruct m as [[] [s|blocks]]; try done.
    rewrite validate_message_carrier by done.
    destruct (last _) as [prev|]; [|done].
    case_bool_decide; [|done]. simpl. case_bool_decide; [done|].
    rewrite filter_app, IH, filter_cons_False, filter_nil, app_nil_r; [done|].
    rewrite kept_carries; [done..|].
    intros b [Hb _]%list_elem_of_filter. by eapply matching_is_tool_result.
  - rewrite validate_message_other, filter_app, IH by done. done.
Qed.

Lemma validateToolMessages_paired ms : ∀ i m,
  validateToolMessages ms !! i = Some m →
  carries_tool_result m = true →
  ∃ prev, (0 < i)%nat
    ∧ validateToolMessages ms !! pred i = Some prev
    ∧ role prev = assistant
    ∧ ∀ tool_use_id c, tool_result tool_use_id c ∈ blocks_of m →
        tool_use_id ∈ tool_use_ids (content prev).
Proof.
  induction ms as [|x ms IH] using rev_ind; intros i m Hi Hm; [done|].
  rewrite validateToolMessages_snoc in Hi |- *.
  set (out := validateToolMessages ms) in *.
  assert (Hkeep : ∀ y, (out ++ [y]) !! i = Some m →
            (y = m → ∃ prev, last out = Some prev ∧ role prev = assistant
               ∧ ∀ tool_use_id c, tool_result tool_use_id c ∈ blocks_of m →
                   tool_use_id ∈ tool_use_ids (content prev)) →
            ∃ prev, (0 < i)%nat ∧ (out ++ [y]) !! pred i = Some prev
              ∧ role prev = assistant
              ∧ ∀ tool_use_id c, tool_result tool_use_id c ∈ blocks_of m →
                  tool_use_id ∈ tool_use_ids (content prev)).
  { intros y [[Hlt Hy]|[-> Hy]]%lookup_snoc_Some Hnew.
    - destruct (IH _ _ Hy Hm) as (prev & ? & Hp & ?).
      exists prev. split; [done|]. split; [|done].
      apply lookup_app_l_Some. done.
    - destruct (Hnew Hy) as (prev & Hlast & ? & ?).
      exists prev. rewrite last_lookup in Hlast.
      assert (0 < length out)%nat.
      { destruct out; [done|simpl; lia]. }
      split; [done|]. split; [|done]. by apply lookup_app_l_Some. }
  destruct (carries_tool_result x) eqn:Hc.
  - destruct x as [[] [s|blocks]]; try done.
    rewrite validate_message_carrier in Hi |- * by done.
    destruct (last out) as [prev|] eqn:Hlast; [|by apply IH].
    case_bool_decide as Ha; [|by apply IH]. simpl in *.
    case_bool_decide as Hv; [by apply IH|].
    apply Hkeep; [done|]. intros <-. exists prev. split; [done|]. split; [done|].
    simpl. intros id c [Hin|Hin]%elem_of_app.
    + apply list_elem_of_filter in Hin as [Hneg _]. done.
    + apply list_elem_of_filter in Hin as [Hmatch _]. simpl in Hmatch.
      by apply bool_decide_unpack in Hmatch.
  - rewrite validate_message_other in Hi |- * by done.
    apply Hkeep; [done|]. intros ->. by rewrite Hm in Hc.
Qed.

(** C2.  [validateToolMessages], on any sequence of messages.  (1) For a user
    message that carries tool results, appended to any sequence: it is dropped
    when the last message of the repaired sequence is missing or is not an
    assistant message, and when none of its tool results answers a [tool_use]
    of that assistant message; otherwise it is kept as a user message whose
    tool results are exactly the answering ones and whose other blocks are the
    other blocks of the message, unchanged.  (2) Any other message is appended
    as it is, and (3) the messages that carry no tool result are the same, in
    the same order, before and after the repair.  (4) In a repaired sequence
    every user message that carries tool results comes right after an assistant
    message, and each of its tool results answers a [tool_use] of that message.
    (5) Tool uses A and B followed by results for A and C leave the result for
    A only; (6) followed by a result for C only, the user message is dropped. *)
Theorem validateToolMessages_repairs :
  (∀ ms blocks,
     existsb is_tool_result blocks = true →
     let out := validateToolMessages ms in
     let out' :=
       validateToolMessages (ms ++ [{| role := user; content := Blocks blocks |}]) in
     match last out with
     | None => out' = out
     | Some prev =>
         if bool_decide (role prev = assistant) then
           let valid :=
             filter (has_matching_tool_use (tool_use_ids (content prev))) blocks in
           (valid = [] → out' = out)
           ∧ (valid ≠ [] →
              ∃ kept,
                out' = out ++ [{| role := user; content := Blocks kept |}]
                ∧ filter is_tool_result kept = valid
                ∧ filter (λ b, negb (is_tool_result b)) kept
                  = filter (λ b, negb (is_tool_result b)) blocks)
         else out' = out
     end)
  ∧ (∀ ms m,
       carries_tool_result m = false →
       validateToolMessages (ms ++ [m]) = validateToolMessages ms ++ [m])
  ∧ (∀ ms,
       filter (λ m, carries_tool_result m = false) (validateToolMessages ms)
       = filter (λ m, carries_tool_result m = false) ms)
  ∧ (∀ ms i m,
       validateToolMessages ms !! i = Some m →
       carries_tool_result m = true →
       ∃ prev, (0 < i)%nat
         ∧ validateToolMessages ms !! pred i = Some prev
         ∧ role prev = assistant
         ∧ ∀ tool_use_id c, tool_result tool_use_id c ∈ blocks_of m →
             tool_use_id ∈ tool_use_ids (content prev))
  ∧ validateToolMessages
      [ {| role := assistant;
           content := Blocks [tool_use "A" "read_file" "{}"; tool_use "B" "read_file" "{}"] |};
        {| role := user;
           content := Blocks [tool_result "A" "ra"; tool_result "C" "rc"] |} ]
    = [ {| role := assistant;
           content := Blocks [tool_use "A" "read_file" "{}"; tool_use "B" "read_file" "{}"] |};
        {| role := user; content := Blocks [tool_result "A" "ra"] |} ]
  ∧ validateToolMessages
      [ {| role := assistant;
           content := Blocks [tool_use "A" "read_file" "{}"; tool_use "B" "read_file" "{}"] |};
        {| role := user; content := Blocks [tool_result "C" "rc"] |} ]
    = [ {| role := assistant;
           content := Blocks [tool_use "A" "read_file" "{}"; tool_use "B" "read_file" "{}"] |} ].
Proof.
  split_and!.
  - intros ms blocks Hc out out'. subst out'.
    rewrite validateToolMessages_snoc, validate_message_carrier by done.
    fold out. destruct (last out) as [prev|]; [|done].
    case_bool_decide; [|done]. simpl. split.
    + intros ->. by rewrite bool_decide_eq_true_2.
    + intros Hv. rewrite bool_decide_eq_false_2 by done.
      eexists. split; [done|]. rewrite !filter_app. split.
      * rewrite filter_tool_result_others. simpl.
        apply list_filter_filter_r. intros b. apply matching_is_tool_result.
      * assert (filter (λ b, negb (is_tool_result b))
                  (filter (has_matching_tool_use (tool_use_ids (content prev)))
                     blocks) = []) as ->.
        { apply filter_others_tool_results. intros b.
          apply matching_is_tool_result. }
        rewrite app_nil_r, list_filter_filter.
        apply list_filter_iff. intros b. tauto.
  - intros ms m Hc. by rewrite validateToolMessages_snoc, validate_message_other.
  - apply validateToolMessages_others.
  - apply validateToolMessages_paired.
  - by vm_compute.
  - by vm_compute.
Qed.

End ClientProperties.

(** ** The store and the relay *)

Section DatabaseProperties.
Import Database.

Lemma elem_of_insert_by_timestamp {A} (key : A → Z) (x y : A) (l : list A) :
  y ∈ insert_by_timestamp key x l ↔ y = x ∨ y ∈ l.
Proof.
  induction l as [|z l IH]; simpl.
  - rewrite list_elem_of_singleton, elem_of_nil. tauto.
  - case_bool_decide; rewrite !elem_of_cons; [done|]. rewrite IH. tauto.
Qed.

Lemma elem_of_order_by_timestamp {A} (key : A → Z) (y : A) (l : list A) :
  y ∈ order_by_timestamp key l ↔ y ∈ l.
Proof.
  unfold order_by_timestamp. induction l as [|x l IH]; simpl; [done|].
  rewrite elem_of_insert_by_timestamp, IH, elem_of_cons. done.
Qed.

Lemma elem_of_select_messages sessionId db (row : StoredMessage) :
  row ∈ select_messages sessionId db
  ↔ row ∈ messages db ∧ session_id row = sessionId.
Proof.
  unfold select_messages.
  rewrite elem_of_order_by_timestamp, list_elem_of_filter. tauto.
Qed.

Lemma elem_of_select_tool_results sessionId db (row : ToolResultRow) :
  row ∈ select_tool_results sessionId db
  ↔ row ∈ tool_results db ∧ tr_session_id row = sessionId.
Proof.
  unfold select_tool_results.
  rewrite elem_of_order_by_timestamp, list_elem_of_filter. tauto.
Qed.

Context {JSValue : Type} `{!JsonCodec JSValue}.

Lemma getMessages_retains sessionId db (row : StoredMessage) :
  row ∈ messages db → session_id row = sessionId →
  row_entry (JSValue:=JSValue) row ∈ getMessages sessionId db.
Proof.
  intros Hin Hsid. unfold getMessages. apply list_elem_of_fmap.
  exists row. split; [done|]. by apply elem_of_select_messages.
Qed.

Lemma getMessages_same_rows sessionId db db' :
  messages db' = messages db →
  getMessages (JSValue:=JSValue) sessionId db' = getMessages sessionId db.
Proof. unfold getMessages, select_messages. by intros ->. Qed.

Lemma messages_createSession sessionId t db :
  messages (createSession sessionId t db) = messages db.
Proof. unfold createSession. by destruct (sessions db !! sessionId). Qed.

End DatabaseProperties.

Section RelayProperties.
Import Relay.
Context {JSValue : Type} `{!JsonCodec JSValue}.

Implicit Types (st : State) (session : Session) (env : Env).

Lemma elem_of_recipients env session exclude (c : ClientInfo) :
  c ∈ recipients env session exclude
  ↔ (∃ k, clients session !! k = Some c)
    ∧ Some (clientId c) ≠ exclude ∧ readyState env (ws c) = OPEN.
Proof.
  unfold recipients. rewrite list_elem_of_filter, list_elem_of_fmap. split.
  - intros [[? ?] ([k c'] & -> & Hk%elem_of_map_to_list)]. eauto.
  - intros ([k Hk] & ? & ?). split; [done|].
    exists (k, c). split; [done|]. by apply elem_of_map_to_list.
Qed.

Lemma elem_of_broadcast env session (message : ServerMsg JSValue) exclude (e : Effect JSValue) :
  e ∈ broadcast env session message exclude
  ↔ ∃ c, e = Send (ws c) message ∧ c ∈ recipients env session exclude.
Proof. unfold broadcast. by rewrite list_elem_of_fmap. Qed.

Lemma broadcast_reaches env session (message : ServerMsg JSValue) k c :
  clients session !! k = Some c → readyState env (ws c) = OPEN →
  Send (ws c) message ∈ broadcast env session message None.
Proof.
  intros Hk Ho. apply elem_of_broadcast. exists c. split; [done|].
  apply elem_of_recipients. eauto.
Qed.

Lemma holder_connected_insert_client session k info :
  holder_connected session →
  holder_connected (with_clients session (<[k := info]> (clients session))).
Proof.
  intros H Hh. specialize (H Hh). unfold client_of in *. simpl in *.
  destruct (lockHolder session) as [| |h]; simpl in *; [done..|].
  destruct (decide (k = h)) as [->|].
  - rewrite lookup_insert_eq. eauto.
  - by rewrite lookup_insert_ne.
Qed.

Lemma holder_connected_free session :
  lockHolder session = null → holder_connected session.
Proof. by intros Hfree Hheld. Qed.

Lemma lock_invariant_insert st sessionId session :
  lock_invariant st → holder_connected session →
  ∀ d c, lock_invariant
    {| sessions := <[sessionId := session]> (sessions st); db := d; connection := c |}.
Proof.
  intros Hinv Hs d c sid s. simpl.
  intros [[-> ->]|[_ ?]]%lookup_insert_Some; [done|]. by eapply Hinv.
Qed.

Lemma lock_invariant_delete st sessionId :
  lock_invariant st →
  ∀ d c, lock_invariant
    {| sessions := delete sessionId (sessions st); db := d; connection := c |}.
Proof.
  intros Hinv d c sid s. simpl. intros [_ ?]%lookup_delete_Some. by eapply Hinv.
Qed.

Lemma lock_invariant_same_sessions st st' :
  sessions st' = sessions st → lock_invariant st → lock_invariant st'.
Proof. intros Heq Hinv sid s. rewrite Heq. apply Hinv. Qed.

Lemma holder_connected_expire env session :
  holder_connected session →
  holder_connected (expire (JSValue:=JSValue) env session).1.
Proof.
  intros H. unfold expire.
  destruct (lockGrantedAt session) as [t|]; [|done].
  destruct (truthy (lockHolder session) && bool_decide (t ≠ 0)); [|done].
  case_bool_decide; [|done]. by apply holder_connected_free.
Qed.

Lemma handleClientDisconnect_preserves env sessionId clientId st :
  lock_invariant st →
  lock_invariant (handleClientDisconnect (JSValue:=JSValue) env sessionId clientId st).1.
Proof.
  intros Hinv. unfold handleClientDisconnect.
  destruct (sessions st !! sessionId) as [session|] eqn:Hs; [|done].
  destruct (clients session !! clientId) as [info|] eqn:Hc; [|done].
  assert (Hold := Hinv _ _ Hs).
  simpl. case_bool_decide as Hh; simpl.
  - case_bool_decide; [by apply lock_invariant_delete|].
    apply lock_invariant_insert; [done|]. by apply holder_connected_free.
  - case_bool_decide; [by apply lock_invariant_delete|].
    apply lock_invariant_insert; [done|]. intros Hheld. simpl in *.
    specialize (Hold Hheld). unfold client_of in *. simpl.
    destruct (lockHolder session) as [| |h]; simpl in *; [done..|].
    rewrite lookup_delete_ne by congruence. done.
Qed.

(** The three handlers that save store the session back with a new
    [lastActivity], whether the store call throws or not. *)
Lemma settle_sessions socket (outcome : Outcome (State * list (Effect JSValue))) :
  sessions (settle socket outcome).1
  = match outcome with returned r | threw r => sessions r.1 end.
Proof. by destruct outcome as [[? ?]|[? ?]]. Qed.

Lemma handleUserMessage_sessions env sessionId clientId uname text st :
  sessions (settle (JSValue:=JSValue) 0%nat
              (handleUserMessage env sessionId clientId uname text st)).1
  = match sessions st !! sessionId with
    | Some session =>
        if bool_decide (lockHolder session ≠ clientId) then sessions st
        else <[sessionId := with_lastActivity session (now env)]> (sessions st)
    | None => sessions st
    end.
Proof.
  rewrite settle_sessions. unfold handleUserMessage.
  destruct (sessions st !! sessionId) as [session|]; [|done].
  case_bool_decide; [done|]. by destruct (Database.saveMessage _ _ _ _ _).
Qed.

Lemma handleAssistantComplete_sessions env sessionId clientId message st :
  sessions (settle (JSValue:=JSValue) 0%nat
              (handleAssistantComplete env sessionId clientId message st)).1
  = match sessions st !! sessionId with
    | Some session =>
        if bool_decide (lockHolder session ≠ clientId) then sessions st
        else <[sessionId := with_lastActivity session (now env)]> (sessions st)
    | None => sessions st
    end.
Proof.
  rewrite settle_sessions. unfold handleAssistantComplete.
  destruct (sessions st !! sessionId) as [session|]; [|done].
  case_bool_decide; [done|]. by destruct (Database.saveMessage _ _ _ _ _).
Qed.

Lemma handleToolResult_sessions env sessionId clientId toolUseId result isError st :
  sessions (settle (JSValue:=JSValue) 0%nat
              (handleToolResult env sessionId clientId toolUseId result isError st)).1
  = sessions st.
Proof.
  rewrite settle_sessions. unfold handleToolResult.
  destruct (sessions st !! sessionId) as [session|]; [|done].
  by destruct (Database.saveToolResult _ _ _ _ _ _ _).
Qed.

Lemma settle_state socket socket' (outcome : Outcome (State * list (Effect JSValue))) :
  (settle socket outcome).1 = (settle socket' outcome).1.
Proof. by destruct outcome as [[? ?]|[? ?]]. Qed.

(** The sessions after a message, handler by handler. *)
Lemma handleMessage_sessions env socket (msg : ClientMsg JSValue) st :
  sessions (handleMessage env socket msg st).1
  = match msg with
    | client_connect sessionId clientId uname =>
        sessions (handleClientConnect (JSValue:=JSValue) env socket sessionId
                    clientId uname st).1
    | lock_request sessionId clientId uname =>
        sessions (handleLockRequest (JSValue:=JSValue) env sessionId clientId
                    uname st).1
    | lock_release sessionId clientId =>
        sessions (handleLockRelease (JSValue:=JSValue) env sessionId clientId st).1
    | user_message sessionId clientId _ _
    | assistant_chunk sessionId clientId _
    | assistant_complete sessionId clientId _ =>
        match sessions st !! sessionId with
        | Some session =>
            if bool_decide (lockHolder session ≠ clientId) then sessions st
            else <[sessionId := with_lastActivity session (now env)]> (sessions st)
        | None => sessions st
        end
    | _ => sessions st
    end.
Proof.
  destruct msg as [sid cid uname|sid cid|sid cid uname|sid cid
    |sid cid uname text|sid cid delta|sid cid message
    |sid cid toolUseId toolName input|sid cid toolUseId result isError|type];
    simpl; try done.
  - unfold handleSyncRequest. by destruct (sessions st !! sid).
  - rewrite (settle_state socket 0%nat). apply handleUserMessage_sessions.
  - unfold handleAssistantChunk. destruct (sessions st !! sid); [|done].
    by case_bool_decide.
  - rewrite (settle_state socket 0%nat). apply handleAssistantComplete_sessions.
  - unfold handleToolExecute. by destruct (sessions st !! sid).
  - rewrite (settle_state socket 0%nat). apply handleToolResult_sessions.
Qed.

Lemma handleMessage_preserves_lock_invariant env socket (msg : ClientMsg JSValue) st :
  from_participant st (Message socket msg) = true →
  lock_invariant st → lock_invariant (handleMessage env socket msg st).1.
Proof.
  intros Hev Hinv k s Hs. rewrite handleMessage_sessions in Hs.
  assert (Hactive : ∀ sid cid,
    match sessions st !! sid with
    | Some session =>
        if bool_decide (lockHolder session ≠ cid) then sessions st
        else <[sid := with_lastActivity session (now env)]> (sessions st)
    | None => sessions st
    end !! k = Some s → holder_connected s).
  { intros sid cid Hl.
    destruct (sessions st !! sid) as [session|] eqn:Hsid; [|by eapply Hinv].
    case_bool_decide; [by eapply Hinv|].
    apply lookup_insert_Some in Hl as [[<- <-]|[_ Hl]]; [|by eapply Hinv].
    exact (Hinv _ _ Hsid). }
  destruct msg as [sid cid uname|sid cid|sid cid uname|sid cid
    |sid cid uname text|sid cid delta|sid cid message
    |sid cid toolUseId toolName input|sid cid toolUseId result isError|type];
    simpl in *; try (by eapply Hinv); try (by eapply Hactive).
  - clear Hactive. revert k s Hs.
    change (lock_invariant
              (handleClientConnect (JSValue:=JSValue) env socket sid cid uname st).1).
    unfold handleClientConnect. destruct cid as [| |cid]; [done..|].
    case_bool_decide; [done|].
    destruct (sessions st !! sid) as [session|] eqn:Hs; simpl.
    + apply lock_invariant_insert; [done|].
      apply (holder_connected_insert_client session). by eapply Hinv.
    + apply lock_invariant_insert; [done|]. by apply holder_connected_free.
  - clear Hactive. revert k s Hs.
    change (lock_invariant
              (handleLockRequest (JSValue:=JSValue) env sid cid uname st).1).
    unfold handleLockRequest.
    destruct (sessions st !! sid) as [session|] eqn:Hs; [|done].
    apply bool_decide_eq_true_1 in Hev. case_bool_decide.
    + apply lock_invariant_insert; [done|]. by intros _.
    + by destruct (client_of session cid).
  - clear Hactive. revert k s Hs.
    change (lock_invariant (handleLockRelease (JSValue:=JSValue) env sid cid st).1).
    unfold handleLockRelease.
    destruct (sessions st !! sid) as [session|] eqn:Hs; [|done].
    case_bool_decide; [|done].
    apply lock_invariant_insert; [done|]. by apply holder_connected_free.
Qed.

Lemma step_preserves_lock_invariant env (ev : Event JSValue) st :
  from_participant st ev = true →
  lock_invariant st → lock_invariant (step env ev st).1.
Proof.
  intros Hev Hinv. destruct ev as [socket msg|socket| | |socket]; simpl.
  - by apply handleMessage_preserves_lock_invariant.
  - unfold handleClose. destruct (connection st !! socket) as [[sid cid]|]; [|done].
    pose proof (handleClientDisconnect_preserves env sid cid st Hinv) as H.
    destruct (handleClientDisconnect env sid cid st) as [st' effects]. done.
  - intros sid s. simpl. rewrite lookup_fmap.
    destruct (sessions st !! sid) as [s0|] eqn:Hs; [|done]. intros [= <-].
    apply holder_connected_expire. by eapply Hinv.
  - done.
  - done.
Qed.

Lemma lock_invariant_initial : lock_invariant initial.
Proof. by intros sid s. Qed.

Lemma run_preserves_lock_invariant (trace : list (Env * Event JSValue)) : ∀ st,
  requests_from_participants trace st = true →
  lock_invariant st → lock_invariant (run trace st).1.
Proof.
  induction trace as [|[env ev] trace IH]; intros st Hok Hinv; [done|].
  simpl in *. apply andb_prop in Hok as [Hev Hok].
  pose proof (step_preserves_lock_invariant env ev st Hev Hinv) as Hstep.
  destruct (step env ev st) as [st' effects] eqn:E. simpl in *.
  specialize (IH st' Hok Hstep).
  destruct (run trace st') as [st'' effects'']. done.
Qed.

(** Where a handler stores one session back, a held lock of the state after
    is either the one stored or one of the state before. *)
Local Ltac stored H :=
  simpl in H; apply lookup_insert_Some in H as [[<- <-]|[_ H]];
  [|by left; eauto].

Lemma holder_provenance env (ev : Event JSValue) st sessionId session' holder :
  sessions (step env ev st).1 !! sessionId = Some session' →
  lockHolder session' = holder → holder ≠ null →
  (∃ session, sessions st !! sessionId = Some session
              ∧ lockHolder session = holder)
  ∨ (∃ socket uname session,
       ev = Message socket (lock_request sessionId holder uname)
       ∧ sessions st !! sessionId = Some session ∧ lockHolder session = null).
Proof.
  intros Hs' Hh Hheld. destruct ev as [socket msg|socket| | |socket]; simpl in Hs'.
  - rewrite handleMessage_sessions in Hs'.
    assert (Hactive : ∀ sid cid,
      match sessions st !! sid with
      | Some session =>
          if bool_decide (lockHolder session ≠ cid) then sessions st
          else <[sid := with_lastActivity session (now env)]> (sessions st)
      | None => sessions st
      end !! sessionId = Some session' →
      ∃ session, sessions st !! sessionId = Some session
                 ∧ lockHolder session = holder).
    { intros sid cid Hl. destruct (sessions st !! sid) as [session|] eqn:Hs;
        [|by eauto].
      case_bool_decide; [by eauto|].
      apply lookup_insert_Some in Hl as [[<- <-]|[_ Hl]]; [|by eauto].
      by exists session. }
    destruct msg as [sid cid uname|sid cid|sid cid uname|sid cid
      |sid cid uname text|sid cid delta|sid cid message
      |sid cid toolUseId toolName input|sid cid toolUseId result isError|type];
      try (by left; eauto).
    + unfold handleClientConnect in Hs'.
      destruct cid as [| |cid]; [by left; eauto..|].
      case_bool_decide; [by left; eauto|].
      destruct (sessions st !! sid) as [session|] eqn:Hs; stored Hs'.
      * left. by exists session.
      * done.
    + unfold handleLockRequest in Hs'.
      destruct (sessions st !! sid) as [session|] eqn:Hs; [|by left; eauto].
      case_bool_decide as Hfree.
      * stored Hs'. simpl in Hh. subst cid.
        destruct Hfree as [Hnone|Hsame];
          [right; by exists socket, uname, session|left; by exists session].
      * destruct (client_of session cid); left; eauto.
    + unfold handleLockRelease in Hs'.
      destruct (sessions st !! sid) as [session|] eqn:Hs; [|by left; eauto].
      case_bool_decide; [|by left; eauto]. by stored Hs'.
  - unfold handleClose in Hs'.
    destruct (connection st !! socket) as [[sid cid]|]; [|by left; eauto].
    unfold handleClientDisconnect in Hs'.
    destruct (sessions st !! sid) as [session|] eqn:Hs; [|by left; eauto].
    destruct (clients session !! cid) as [info|]; [|by left; eauto].
    simpl in Hs'. case_bool_decide; simpl in Hs'.
    + case_bool_decide; simpl in Hs'.
      * apply lookup_delete_Some in Hs' as [_ ?]. left; eauto.
      * by stored Hs'.
    + case_bool_decide; simpl in Hs'.
      * apply lookup_delete_Some in Hs' as [_ ?]. left; eauto.
      * stored Hs'. left. by exists session.
  - rewrite lookup_fmap in Hs'.
    destruct (sessions st !! sessionId) as [session|] eqn:Hs; [|done].
    injection Hs' as <-. left. exists session. split; [done|].
    unfold expire in Hh.
    destruct (lockGrantedAt session) as [t|]; [|done].
    destruct (truthy (lockHolder session) && bool_decide (t ≠ 0)); [|done].
    case_bool_decide; [|done]. simpl in Hh. congruence.
  - left; eauto.
  - left; eauto.
Qed.

Lemma requests_from_participants_prefix (before after : list (Env * Event JSValue)) :
  ∀ st, requests_from_participants (before ++ after) st = true →
        requests_from_participants before st = true.
Proof.
  induction before as [|[env ev] before IH]; intros st; [done|].
  simpl. intros [Hev Hrest]%andb_prop. rewrite Hev. simpl. by apply IH.
Qed.

(** C1 (as amended).  Along every run of the relay from its initial state in
    which each lock request names a client of the session it asks for, at
    every point between two events the holder of every session, when it is not
    null, is among the clients of that session; a session has at most one
    holder; and whatever the event, a holder after it either was the holder
    before it, or was granted the lock by a lock request of its own on a
    session whose lock was free. *)
Theorem lock_holder_invariant (trace : list (Env * Event JSValue)) :
  requests_from_participants trace initial = true →
  (∀ before after, trace = before ++ after →
                   lock_invariant (run before initial).1)
  ∧ (∀ sessionId session h1 h2,
       sessions (run trace initial).1 !! sessionId = Some session →
       lockHolder session = h1 → lockHolder session = h2 → h1 = h2)
  ∧ (∀ env ev sessionId session' holder,
       sessions (step env ev (run trace initial).1).1 !! sessionId = Some session' →
       lockHolder session' = holder → holder ≠ null →
       (∃ session, sessions (run trace initial).1 !! sessionId = Some session
                   ∧ lockHolder session = holder)
       ∨ (∃ socket uname session,
            ev = Message socket (lock_request sessionId holder uname)
            ∧ sessions (run trace initial).1 !! sessionId = Some session
            ∧ lockHolder session = null)).
Proof.
  intros Hok. split_and!.
  - intros before after ->.
    apply run_preserves_lock_invariant; [|apply lock_invariant_initial].
    by eapply requests_from_participants_prefix.
  - intros sid session h1 h2 _ H1 H2. congruence.
  - intros env ev sid session' holder. apply holder_provenance.
Qed.

(** X26.  A user.message, assistant.chunk or assistant.complete whose
    [clientId] differs from the [lockHolder] field of its session is dropped:
    the state (store, sessions, locks, rosters) is unchanged and nothing is
    sent, neither a broadcast nor an error reply. *)
Theorem non_holder_dropped env st sessionId clientId session :
  sessions st !! sessionId = Some session →
  lockHolder session ≠ clientId →
  (∀ socket uname text,
     handleMessage env socket (user_message sessionId clientId uname text) st
     = (st, []))
  ∧ (∀ socket delta,
       handleMessage env socket (assistant_chunk sessionId clientId delta) st
       = (st, []))
  ∧ (∀ socket message,
       handleMessage env socket (assistant_complete sessionId clientId message) st
       = (st, [])).
Proof.
  intros Hs Hh. split_and!; intros; simpl.
  - unfold handleUserMessage. rewrite Hs. by rewrite bool_decide_eq_true_2.
  - unfold handleAssistantChunk. rewrite Hs. by rewrite bool_decide_eq_true_2.
  - unfold handleAssistantComplete. rewrite Hs. by rewrite bool_decide_eq_true_2.
Qed.

(** C5 (as amended).  A lock.request on an existing session.  When the lock
    field is null or equal to the [clientId] of the request, the lock fields
    are set to that [clientId], the name of the request and the present time,
    the roster is unchanged, and lock.granted is sent to every client of the
    session whose socket is open.  Otherwise the state is unchanged; a
    requester that is a client of the session is sent a lock.denied carrying
    the holder name of the lock, and nothing else is sent; a requester that is
    not a client of the session is sent nothing.  The statement is for every
    [clientId]; for a string, the lock is then held by the requester. *)
Theorem lock_request_grants_or_denies env st sessionId clientId uname session :
  sessions st !! sessionId = Some session →
  (lockHolder session = null ∨ lockHolder session = clientId →
   ∃ session',
     handleLockRequest (JSValue:=JSValue) env sessionId clientId uname st
     = (with_sessions st (<[sessionId := session']> (sessions st)),
        broadcast env session' (lock_granted clientId uname) None)
     ∧ lockHolder session' = clientId
     ∧ lockUsername session' = Some uname
     ∧ lockGrantedAt session' = Some (now env)
     ∧ clients session' = clients session
     ∧ id session' = id session
     ∧ sessions (handleLockRequest (JSValue:=JSValue) env sessionId clientId uname st).1
       = <[sessionId := session']> (sessions st)
     ∧ db (handleLockRequest (JSValue:=JSValue) env sessionId clientId uname st).1
       = db st
     ∧ connection
         (handleLockRequest (JSValue:=JSValue) env sessionId clientId uname st).1
       = connection st
     ∧ ∀ k c, clients session !! k = Some c → readyState env (ws c) = OPEN →
         (Send (ws c) (lock_granted clientId uname) : Effect JSValue)
         ∈ (handleLockRequest env sessionId clientId uname st).2)
  ∧ (lockHolder session ≠ null → lockHolder session ≠ clientId →
     (∀ client, client_of session clientId = Some client →
        handleLockRequest (JSValue:=JSValue) env sessionId clientId uname st
        = (st, [Send (ws client) (lock_denied (lockUsername session) "lock_held")]))
     ∧ (client_of session clientId = None →
        handleLockRequest (JSValue:=JSValue) env sessionId clientId uname st
        = (st, []))).
Proof.
  intros Hs. unfold handleLockRequest. rewrite Hs. split.
  - intros Hfree. rewrite bool_decide_eq_true_2 by done.
    eexists. split; [done|]. split_and!; try done.
    intros k c Hk Ho. simpl. by eapply broadcast_reaches.
  - intros Hheld Hne. rewrite bool_decide_eq_false_2 by tauto.
    split; [intros client Hc|intros Hc]; by rewrite Hc.
Qed.


Lemma lockTimeoutCheck_effects env st sessionId session (e : Effect JSValue) :
  sessions st !! sessionId = Some session →
  e ∈ (expire env session).2 → e ∈ (lockTimeoutCheck env st).2.
Proof.
  intros Hs He. simpl. apply list_elem_of_join.
  exists (expire env session).2. split; [done|].
  apply list_elem_of_fmap. exists (sessionId, session). split; [done|].
  by apply elem_of_map_to_list.
Qed.

(** X27.  The lock timeout check handles every session by [expire] and
    leaves the store alone.  A lock whose holder is truthy (a non-empty
    string), whose grant time is not 0 and lies more than 30000 ms in the
    past is cleared (holder, holder name and grant time), and lock.released
    with reason timeout is sent to every client of the session whose socket is
    open.  A lock granted no longer ago than the timeout, and a lock whose
    holder is falsy, is left as it is, with nothing sent. *)
Theorem lock_timeout_check_expires env st sessionId session :
  sessions st !! sessionId = Some session →
  sessions (lockTimeoutCheck (JSValue:=JSValue) env st).1 !! sessionId
  = Some (expire (JSValue:=JSValue) env session).1
  ∧ db (lockTimeoutCheck (JSValue:=JSValue) env st).1 = db st
  ∧ (∀ holder grantedAt,
       lockHolder session = str holder → lockGrantedAt session = Some grantedAt →
       holder ≠ "" → grantedAt ≠ 0 →
       now env - grantedAt > 30000 →
       expire (JSValue:=JSValue) env session
       = (with_lock session null None None,
          broadcast env (with_lock session null None None)
            (lock_released (Some "timeout")) None)
       ∧ lockHolder (expire (JSValue:=JSValue) env session).1 = null
       ∧ lockUsername (expire (JSValue:=JSValue) env session).1 = None
       ∧ lockGrantedAt (expire (JSValue:=JSValue) env session).1 = None
       ∧ clients (expire (JSValue:=JSValue) env session).1 = clients session
       ∧ ∀ k c, clients session !! k = Some c → readyState env (ws c) = OPEN →
           (Send (ws c) (lock_released (Some "timeout")) : Effect JSValue)
           ∈ (lockTimeoutCheck env st).2)
  ∧ (∀ grantedAt,
       lockGrantedAt session = Some grantedAt →
       now env - grantedAt ≤ 30000 →
       expire (JSValue:=JSValue) env session = (session, []))
  ∧ (truthy (lockHolder session) = false →
     expire (JSValue:=JSValue) env session = (session, [])).
Proof.
  intros Hs. split_and!; try done.
  - simpl. by rewrite lookup_fmap, Hs.
  - intros holder grantedAt Hh Hg Hne Hnz Hold.
    assert (Hex : expire (JSValue:=JSValue) env session
       = (with_lock session null None None,
          broadcast env (with_lock session null None None)
            (lock_released (Some "timeout")) None)).
    { unfold expire, LOCK_TIMEOUT_MS. rewrite Hh, Hg. simpl.
      rewrite (bool_decide_eq_false_2 (holder = "")); [|done].
      rewrite (bool_decide_eq_true_2 (grantedAt ≠ 0)); [|done]. simpl.
      rewrite bool_decide_eq_true_2; [done|lia]. }
    rewrite Hex. split_and!; try done. intros k c Hk Ho.
    eapply lockTimeoutCheck_effects; [done|]. rewrite Hex. simpl.
    by eapply broadcast_reaches.
  - intros grantedAt Hg Hyoung. unfold expire, LOCK_TIMEOUT_MS. rewrite Hg.
    destruct (truthy (lockHolder session) && bool_decide (grantedAt ≠ 0)); [|done].
    rewrite bool_decide_eq_false_2; [done|lia].
  - intros Hh. unfold expire. rewrite Hh.
    by destruct (lockGrantedAt session).
Qed.

(** C7.  When the client that holds the lock of a session is disconnected,
    the handler removes it from the roster and, in the same step and whatever
    the grant time, clears the lock and sends lock.released with reason
    holder_disconnected, then participant.left, to every remaining client whose
    socket is open; the session stays, with a free lock, as long as a client
    remains.  The close of the holder's connection does the same. *)
Theorem holder_disconnect_releases env st sessionId clientId session info :
  sessions st !! sessionId = Some session →
  clients session !! clientId = Some info →
  lockHolder session = str clientId →
  let remaining := delete clientId (clients session) in
  let idle := with_lock (with_clients session remaining) null None None in
  handleClientDisconnect (JSValue:=JSValue) env sessionId clientId st
  = (with_sessions st
       (if bool_decide (size remaining = 0%nat)
        then delete sessionId (sessions st)
        else <[sessionId := idle]> (sessions st)),
     broadcast env idle (lock_released (Some "holder_disconnected")) None
       ++ broadcast env idle (participant_left (username info) clientId) None)
  ∧ lockHolder idle = null ∧ lockUsername idle = None ∧ lockGrantedAt idle = None
  ∧ (∀ k c, remaining !! k = Some c → readyState env (ws c) = OPEN →
       (Send (ws c) (lock_released (Some "holder_disconnected")) : Effect JSValue)
       ∈ (handleClientDisconnect env sessionId clientId st).2)
  ∧ (∀ k c, remaining !! k = Some c →
       sessions (handleClientDisconnect (JSValue:=JSValue) env sessionId clientId st).1
         !! sessionId = Some idle)
  ∧ (∀ socket, connection st !! socket = Some (sessionId, clientId) →
       (step (JSValue:=JSValue) env (Close socket) st).2
       = (handleClientDisconnect env sessionId clientId st).2).
Proof.
  intros Hs Hc Hh remaining idle.
  assert (Heq : handleClientDisconnect (JSValue:=JSValue) env sessionId clientId st
    = (with_sessions st
         (if bool_decide (size remaining = 0%nat)
          then delete sessionId (sessions st)
          else <[sessionId := idle]> (sessions st)),
       broadcast env idle (lock_released (Some "holder_disconnected")) None
         ++ broadcast env idle (participant_left (username info) clientId) None)).
  { unfold handleClientDisconnect. rewrite Hs, Hc. simpl.
    by rewrite bool_decide_eq_true_2. }
  split_and!; try done.
  - intros k c Hk Ho. rewrite Heq. simpl. apply elem_of_app. left.
    by eapply broadcast_reaches.
  - intros k c Hk. rewrite Heq. simpl.
    rewrite bool_decide_eq_false_2.
    + by rewrite lookup_insert_eq.
    + intros Hz%map_size_empty_iff. by rewrite Hz in Hk.
  - intros socket Hconn. simpl. unfold handleClose. rewrite Hconn.
    by destruct (handleClientDisconnect env sessionId clientId st).
Qed.

Lemma broadcast_only_sends env session (message : ServerMsg JSValue) exclude e :
  e ∈ broadcast env session message exclude → ∃ to, e = Send to message.
Proof. intros (c & -> & _)%elem_of_broadcast. eauto. Qed.

Lemma sync_returns_saved socket st sessionId session (row : Database.StoredMessage) :
  sessions st !! sessionId = Some session →
  row ∈ Database.messages (db st) → Database.session_id row = sessionId →
  ∃ entries participants holder hname,
    (handleSyncRequest (JSValue:=JSValue) socket sessionId st).2
    = [Query (db_getMessages sessionId);
       Send socket (sync_state sessionId entries participants holder hname)]
    ∧ Database.row_entry row ∈ entries.
Proof.
  intros Hs Hin Hsid. unfold handleSyncRequest. rewrite Hs. simpl.
  do 4 eexists. split; [done|]. by apply getMessages_retains.
Qed.

(** What a message that is saved does, whether the store takes it or
    throws: [saved] is the message handed to the store. *)
Lemma save_and_broadcast env st sessionId session
    (saved : Database.NewMessage JSValue) (notice : ServerMsg JSValue) exclude
    socket (after : State * list (Effect JSValue)) :
  sessions st !! sessionId = Some session →
  after
  = settle socket
      (let session' := with_lastActivity session (now env) in
       let st' := with_sessions st (<[sessionId := session']> (sessions st)) in
       match Database.saveMessage sessionId saved (now env) (rnd env) (db st) with
       | None => threw (st', [Failed (db_saveMessage sessionId saved)])
       | Some db' =>
           returned (with_db st' db',
                     Persist (db_saveMessage sessionId saved)
                       :: broadcast env session' notice exclude)
       end) →
  let row := Database.message_row sessionId saved (now env) (rnd env) in
  (is_Some (Database.sessions (db st) !! sessionId) →
   ∃ sends,
     after.2 = Persist (db_saveMessage sessionId saved) :: sends
     ∧ (∀ e, e ∈ sends → ∃ to, e = Send to notice)
     ∧ Database.messages (db after.1) = Database.messages (db st) ++ [row]
     ∧ Database.tool_results (db after.1) = Database.tool_results (db st)
     ∧ ∀ socket', ∃ entries participants holder hname,
         (handleSyncRequest (JSValue:=JSValue) socket' sessionId after.1).2
         = [Query (db_getMessages sessionId);
            Send socket' (sync_state sessionId entries participants holder hname)]
         ∧ Database.row_entry row ∈ entries)
  ∧ (Database.sessions (db st) !! sessionId = None →
     after.2 = [Failed (db_saveMessage sessionId saved);
                Send socket (error "Internal server error")]
     ∧ db after.1 = db st).
Proof.
  intros Hs -> row. unfold Database.saveMessage. split.
  - intros [stored Hstored]. rewrite Hstored. simpl.
    eexists. split; [done|]. split_and!; try done.
    + intros e. apply broadcast_only_sends.
    + intros socket'. eapply sync_returns_saved.
      * simpl. apply lookup_insert_eq.
      * simpl. apply elem_of_app. right. by left.
      * done.
  - intros Hnone. by rewrite Hnone.
Qed.

(** C3 (as amended).  On an existing session, the handler of a user.message
    or assistant.complete whose [clientId] equals the lock field, and of any
    tool.result, first calls the store and only then sends its broadcast.
    When the store takes the write (it has the row of the session, and a
    tool.result carries a string [clientId]): for user.message and
    assistant.complete the row is appended to the messages of the store, and
    the answer to a sync request made in the state after carries its entry;
    for tool.result the row is appended to the tool results of the store (and
    selected for its session), while the messages, which a sync answers with,
    are unchanged.  When the store throws, the store is unchanged, nothing is
    broadcast, and the sender is answered with an error. *)
Theorem durable_write_precedes_broadcast env st sessionId clientId session :
  sessions st !! sessionId = Some session →
  (∀ socket uname text,
     lockHolder session = clientId →
     let saved :=
       {| Database.nm_role := user;
          Database.nm_content := CString text;
          Database.nm_author_username := Some uname |} in
     let row := Database.message_row sessionId saved (now env) (rnd env) in
     let after :=
       handleMessage env socket (user_message sessionId clientId uname text) st in
     (is_Some (Database.sessions (db st) !! sessionId) →
      ∃ sends,
        after.2 = Persist (db_saveMessage sessionId saved) :: sends
        ∧ (∀ e, e ∈ sends →
             ∃ to, e = Send to (user_message_broadcast uname text (now env)))
        ∧ Database.messages (db after.1) = Database.messages (db st) ++ [row]
        ∧ Database.tool_results (db after.1) = Database.tool_results (db st)
        ∧ ∀ socket', ∃ entries participants holder hname,
            (handleSyncRequest (JSValue:=JSValue) socket' sessionId after.1).2
            = [Query (db_getMessages sessionId);
               Send socket' (sync_state sessionId entries participants holder hname)]
            ∧ Database.row_entry row ∈ entries)
     ∧ (Database.sessions (db st) !! sessionId = None →
        after.2 = [Failed (db_saveMessage sessionId saved);
                   Send socket (error "Internal server error")]
        ∧ db after.1 = db st)
     ∧ row = {| Database.id := Database.generateMessageId (now env) (rnd env);
                Database.session_id := sessionId;
                Database.role := user;
                Database.content := text;
                Database.author_username :=
                  if bool_decide (uname = "") then None else Some uname;
                Database.timestamp := now env |})
  ∧ (∀ socket message,
       lockHolder session = clientId →
       let saved :=
         {| Database.nm_role := assistant;
            Database.nm_content := content message;
            Database.nm_author_username := None |} in
       let row := Database.message_row sessionId saved (now env) (rnd env) in
       let after :=
         handleMessage env socket (assistant_complete sessionId clientId message) st in
       (is_Some (Database.sessions (db st) !! sessionId) →
        ∃ sends,
          after.2 = Persist (db_saveMessage sessionId saved) :: sends
          ∧ (∀ e, e ∈ sends →
               ∃ to, e = Send to (assistant_complete_broadcast message))
          ∧ Database.messages (db after.1) = Database.messages (db st) ++ [row]
          ∧ Database.tool_results (db after.1) = Database.tool_results (db st)
          ∧ ∀ socket', ∃ entries participants holder hname,
              (handleSyncRequest (JSValue:=JSValue) socket' sessionId after.1).2
              = [Query (db_getMessages sessionId);
                 Send socket' (sync_state sessionId entries participants holder hname)]
              ∧ Database.row_entry row ∈ entries)
       ∧ (Database.sessions (db st) !! sessionId = None →
          after.2 = [Failed (db_saveMessage sessionId saved);
                     Send socket (error "Internal server error")]
          ∧ db after.1 = db st)
       ∧ row = {| Database.id := Database.generateMessageId (now env) (rnd env);
                  Database.session_id := sessionId;
                  Database.role := assistant;
                  Database.content :=
                    match content message with
                    | CString s => s
                    | CValue v => JSON_stringify v
                    end;
                  Database.author_username := None;
                  Database.timestamp := now env |})
  ∧ (∀ socket toolUseId result isError,
       let after :=
         handleMessage env socket
           (tool_result sessionId clientId toolUseId result isError) st in
       (∀ client,
          clientId = str client →
          is_Some (Database.sessions (db st) !! sessionId) →
          let row :=
            {| Database.tr_id := Database.generateId (now env) (rnd env);
               Database.tr_session_id := sessionId;
               Database.tool_use_id := toolUseId;
               Database.tr_content := JSON_stringify result;
               Database.client_id := client;
               Database.tr_timestamp := now env |} in
          ∃ sends,
            after.2
            = Persist (db_saveToolResult sessionId toolUseId result clientId)
                :: sends
            ∧ (∀ e, e ∈ sends →
                 ∃ to, e = Send to (tool_result_broadcast toolUseId result isError))
            ∧ Database.tool_results (db after.1)
              = Database.tool_results (db st) ++ [row]
            ∧ Database.messages (db after.1) = Database.messages (db st)
            ∧ row ∈ Database.select_tool_results sessionId (db after.1))
       ∧ (as_string clientId = None
          ∨ Database.sessions (db st) !! sessionId = None →
          after.2 = [Failed (db_saveToolResult sessionId toolUseId result clientId);
                     Send socket (error "Internal server error")]
          ∧ db after.1 = db st)).
Proof.
  intros Hs. split_and!.
  - intros socket uname text Hh saved row after.
    edestruct (save_and_broadcast env st sessionId session saved
                 (user_message_broadcast uname text (now env))
                 (as_string clientId) socket after Hs) as [Htaken Hthrown].
    { subst after. simpl. unfold handleUserMessage. rewrite Hs.
      by rewrite bool_decide_eq_false_2 by (by intros ?). }
    split_and!; [exact Htaken|exact Hthrown|].
    subst row saved. unfold Database.message_row. simpl.
    by destruct uname.
  - intros socket message Hh saved row after.
    edestruct (save_and_broadcast env st sessionId session saved
                 (assistant_complete_broadcast message)
                 (as_string clientId) socket after Hs) as [Htaken Hthrown].
    { subst after. simpl. unfold handleAssistantComplete. rewrite Hs.
      by rewrite bool_decide_eq_false_2 by (by intros ?). }
    split_and!; [exact Htaken|exact Hthrown|done].
  - intros socket toolUseId result isError after. subst after. simpl.
    unfold handleToolResult, Database.saveToolResult. rewrite Hs. split.
    + intros client -> [stored Hstored]. rewrite Hstored. simpl.
      eexists. split; [done|]. split_and!; try done.
      * intros e. apply broadcast_only_sends.
      * apply elem_of_select_tool_results. split; [|done].
        simpl. apply elem_of_app. right. by left.
    + intros [Hbad|Hbad].
      * by destruct clientId.
      * rewrite Hbad. by destruct clientId.
Qed.

(** C8.  When the only client of a session (a roster of size one) is
    disconnected, the session is
    removed from the session table and the store is unchanged; when a client
    then connects to the same session id the session exists again, the
    messages of the store are still the same, a sync request is answered with
    the messages of the session as they were, and every stored message of the
    session is among them.  Disconnecting a client that the session does not
    have (or from a session that does not exist) changes nothing and sends
    nothing. *)
Theorem last_disconnect_keeps_history env st sessionId clientId session info :
  sessions st !! sessionId = Some session →
  clients session !! clientId = Some info →
  size (clients session) = 1%nat →
  sessions (handleClientDisconnect (JSValue:=JSValue) env sessionId clientId st).1
    !! sessionId = None
  ∧ db (handleClientDisconnect (JSValue:=JSValue) env sessionId clientId st).1 = db st
  ∧ (∀ env' socket clientId' uname,
       sessionId ≠ "" → clientId' ≠ "" →
       let st' :=
         (handleClientConnect (JSValue:=JSValue) env' socket sessionId
            (str clientId') uname
            (handleClientDisconnect (JSValue:=JSValue) env sessionId clientId st).1).1 in
       is_Some (sessions st' !! sessionId)
       ∧ Database.messages (db st') = Database.messages (db st)
       ∧ (∃ participants, ∀ socket',
            (handleSyncRequest (JSValue:=JSValue) socket' sessionId st').2
            = [Query (db_getMessages sessionId);
               Send socket'
                 (sync_state sessionId (Database.getMessages sessionId (db st))
                    participants null None)])
       ∧ ∀ row, row ∈ Database.messages (db st) →
           Database.session_id row = sessionId →
           Database.row_entry (JSValue:=JSValue) row
           ∈ Database.getMessages sessionId (db st'))
  ∧ (∀ st0 (env0 : Env) sessionId0 clientId0,
       (∀ session0, sessions st0 !! sessionId0 = Some session0 →
                    clients session0 !! clientId0 = None) →
       handleClientDisconnect (JSValue:=JSValue) env0 sessionId0 clientId0 st0
       = (st0, [])).
Proof.
  intros Hs Hc Honly.
  assert (Hempty : delete clientId (clients session) = ∅).
  { apply map_size_empty_iff. by rewrite map_size_delete, Hc, Honly. }
  assert (Heq : (handleClientDisconnect (JSValue:=JSValue) env sessionId clientId st).1
                = with_sessions st (delete sessionId (sessions st))).
  { unfold handleClientDisconnect. rewrite Hs, Hc. simpl.
    case_bool_decide; simpl; rewrite Hempty, map_size_empty;
      by rewrite bool_decide_eq_true_2. }
  rewrite Heq. split_and!.
  - simpl. apply lookup_delete_eq.
  - done.
  - intros env' socket clientId' uname Hsid Hcid st'.
    assert (Hst' : sessions st' !! sessionId
       = Some (with_lastActivity
                 (with_clients
                    {| id := sessionId; clients := ∅;
                       lockHolder := null; lockUsername := None;
                       lockGrantedAt := None; lastActivity := now env' |}
                    (<[clientId' := {| clientId := clientId'; 
                                       username := if bool_decide (uname = "")
                                                   then "Anonymous" else uname;
                                       ws := socket; connectedAt := now env' |}]> ∅))
                 (now env'))
         ∧ db st' = Database.createSession sessionId (now env') (db st)).
    { subst st'. unfold handleClientConnect.
      rewrite bool_decide_eq_false_2 by (by intros [?|?]).
      simpl. rewrite lookup_delete_eq. simpl. by rewrite lookup_insert_eq. }
    destruct Hst' as [Hsess Hdb].
    assert (Hrows : Database.messages (db st') = Database.messages (db st)).
    { rewrite Hdb. apply messages_createSession. }
    split_and!.
    + by rewrite Hsess.
    + done.
    + eexists. intros socket'. unfold handleSyncRequest. rewrite Hsess. simpl.
      by rewrite (getMessages_same_rows sessionId (db st) (db st')).
    + intros row Hin Hrow. apply getMessages_retains; [|done].
      by rewrite Hrows.
  - intros st0 env0 sid0 cid0 Habs. unfold handleClientDisconnect.
    destruct (sessions st0 !! sid0) as [session0|] eqn:Hs0; [|done].
    by rewrite (Habs _ eq_refl).
Qed.

End RelayProperties.

(** ** The tool executor *)

Section ExecutorProperties.
Import Executor.

(** What the check does refuse: nothing of the file system is called and the
    result is the failure. *)
Lemma execute_refused cwd projectRoot fs toolName input :
  path_refused cwd projectRoot input = true →
  execute cwd projectRoot fs toolName input
  = ([], with_suggestion (failed "Path must be within project root")
           "Use relative paths from the project directory").
Proof. intros H. unfold execute. by rewrite H. Qed.

(** What the check ensures of a path it lets through: the root is a prefix
    of the resolved path, as a string. *)
Lemma execute_read_prefix cwd projectRoot fs p call :
  p ≠ "" →
  call ∈ (execute cwd projectRoot fs "read_file"
            {| input_path := Some p; input_content := None;
               input_pattern := None |}).1 →
  String.prefix projectRoot (touched call) = true.
Proof.
  intros Hp. unfold execute, path_refused. cbn [input_path].
  rewrite bool_decide_eq_false_2 by done.
  destruct (String.prefix projectRoot (resolve cwd projectRoot p)) eqn:Hpre;
    cbn [negb].
  - rewrite bool_decide_eq_true_2 by done. unfold readFile. cbn [fst].
    by intros ->%list_elem_of_singleton.
  - by intros ?%elem_of_nil.
Qed.

(** C9.  The claim fails on the code: with the root /home/user/proj, a
    read_file of ../proj-evil/secret.txt is not refused, whatever the file
    system answers; the executor reads /home/user/proj-evil/secret.txt, which
    is neither the root nor below it. *)
Theorem execute_reads_outside_root (fs : FileSystem) :
  path_refused "/" Scenario.project_root Scenario.sibling_file = false
  ∧ (execute "/" Scenario.project_root fs "read_file" Scenario.sibling_file).1
    = [call_readFile "/home/user/proj-evil/secret.txt"]
  ∧ within_root Scenario.project_root "/home/user/proj-evil/secret.txt" = false
  ∧ String.prefix Scenario.project_root "/home/user/proj-evil/secret.txt" = true.
Proof. by vm_compute. Qed.

End ExecutorProperties.

(** ** The store: order, round trips, purge *)

Section StoreProperties.
Import Database.

Lemma insert_by_timestamp_perm {A} (key : A → Z) (x : A) (l : list A) :
  insert_by_timestamp key x l ≡ₚ x :: l.
Proof.
  induction l as [|y l IH]; simpl; [done|].
  case_bool_decide; [done|]. rewrite IH. apply Permutation_swap.
Qed.

Lemma order_by_timestamp_perm {A} (key : A → Z) (l : list A) :
  order_by_timestamp key l ≡ₚ l.
Proof.
  unfold order_by_timestamp. induction l as [|x l IH]; simpl; [done|].
  by rewrite insert_by_timestamp_perm, IH.
Qed.

Lemma insert_by_timestamp_sorted {A} (key : A → Z) (x : A) (l : list A) :
  StronglySorted (λ a b, key a ≤ key b) l →
  StronglySorted (λ a b, key a ≤ key b) (insert_by_timestamp key x l).
Proof.
  induction 1 as [|y l Hl IH Hy]; simpl.
  - repeat constructor.
  - case_bool_decide as Hxy.
    + constructor; [by constructor|]. constructor; [done|].
      eapply Forall_impl; [done|]. simpl. intros. lia.
    + constructor; [done|].
      rewrite insert_by_timestamp_perm. constructor; [lia|done].
Qed.

Lemma order_by_timestamp_sorted {A} (key : A → Z) (l : list A) :
  StronglySorted (λ a b, key a ≤ key b) (order_by_timestamp key l).
Proof.
  unfold order_by_timestamp. induction l as [|x l IH]; simpl; [constructor|].
  by apply insert_by_timestamp_sorted.
Qed.

Lemma insert_by_timestamp_last {A} (key : A → Z) (x y : A) (l : list A) :
  key y ≤ key x →
  insert_by_timestamp key y (l ++ [x]) = insert_by_timestamp key y l ++ [x].
Proof.
  intros Hyx. induction l as [|z l IH]; simpl.
  - by rewrite bool_decide_eq_true_2.
  - case_bool_decide; [done|]. by rewrite IH.
Qed.

Lemma order_by_timestamp_snoc {A} (key : A → Z) (x : A) (l : list A) :
  (∀ y, y ∈ l → key y ≤ key x) →
  order_by_timestamp key (l ++ [x]) = order_by_timestamp key l ++ [x].
Proof.
  unfold order_by_timestamp. induction l as [|y l IH]; intros Hle; [done|].
  simpl. rewrite IH by (intros; apply Hle; by right).
  apply insert_by_timestamp_last. apply Hle. by left.
Qed.

(** Rows already in order stay as they are. *)
Lemma order_by_timestamp_stable {A} (key : A → Z) (l : list A) :
  StronglySorted (λ a b, key a ≤ key b) l → order_by_timestamp key l = l.
Proof.
  unfold order_by_timestamp. induction 1 as [|x l Hl IH Hx]; [done|].
  simpl. rewrite IH. destruct l as [|y l]; [done|]. simpl.
  rewrite bool_decide_eq_true_2; [done|]. by inversion Hx.
Qed.

Lemma filter_session_purged cutoff db sessionId :
  inactive_since cutoff db sessionId = false →
  filter (λ row, session_id row = sessionId)
    (filter (λ row, ¬ inactive_since cutoff db (session_id row)) (messages db))
  = filter (λ row, session_id row = sessionId) (messages db).
Proof.
  intros Hactive. rewrite list_filter_filter. apply list_filter_iff.
  intros row. split; [tauto|]. intros Hrow. split; [done|].
  rewrite Hrow, Hactive. by intros ?.
Qed.

Lemma filter_tool_results_purged cutoff db sessionId :
  inactive_since cutoff db sessionId = false →
  filter (λ row, tr_session_id row = sessionId)
    (filter (λ row, ¬ inactive_since cutoff db (tr_session_id row))
            (tool_results db))
  = filter (λ row, tr_session_id row = sessionId) (tool_results db).
Proof.
  intros Hactive. rewrite list_filter_filter. apply list_filter_iff.
  intros row. split; [tauto|]. intros Hrow. split; [done|].
  rewrite Hrow, Hactive. by intros ?.
Qed.

Lemma filter_none {A} (P : A → Prop) `{!∀ x, Decision (P x)} (l : list A) :
  (∀ x, x ∈ l → ¬ P x) → filter P l = [].
Proof.
  induction l as [|x l IH]; intros Hl; [done|].
  rewrite filter_cons_False by (apply Hl; by left).
  apply IH. intros y Hy. apply Hl. by right.
Qed.

Lemma StronglySorted_filter {A} (R : relation A) (P : A → Prop)
    `{!∀ x, Decision (P x)} (l : list A) :
  StronglySorted R l → StronglySorted R (filter P l).
Proof.
  induction 1 as [|x l Hl IH Hx]; [constructor|].
  rewrite filter_cons. case_decide; [|done].
  constructor; [done|]. apply Forall_forall.
  intros y [_ Hy]%list_elem_of_filter. by eapply (proj1 (Forall_forall _ _)).
Qed.

Lemma StronglySorted_weaken {A} (R1 R2 : relation A) (l : list A) :
  (∀ x y, R1 x y → R2 x y) → StronglySorted R1 l → StronglySorted R2 l.
Proof.
  intros HR. induction 1 as [|x l Hl IH Hx]; constructor; [done|].
  eapply Forall_impl; [done|]. intros y. apply HR.
Qed.

(** X1.  [createSession] is an INSERT OR IGNORE: creating a session twice
    keeps the row of the first creation, the session exists afterwards,
    creating a session that exists changes nothing, a new session gets both
    of its times set to the time of creation, and no other session, message
    or tool result is touched. *)
Theorem createSession_keeps_first sessionId t1 t2 db :
  createSession sessionId t2 (createSession sessionId t1 db)
  = createSession sessionId t1 db
  ∧ sessionExists sessionId (createSession sessionId t1 db) = true
  ∧ (sessionExists sessionId db = true → createSession sessionId t1 db = db)
  ∧ (sessionExists sessionId db = false →
     sessions (createSession sessionId t1 db) !! sessionId
     = Some {| created_at := t1; last_activity := t1 |})
  ∧ (∀ other, other ≠ sessionId →
       sessions (createSession sessionId t1 db) !! other = sessions db !! other)
  ∧ messages (createSession sessionId t1 db) = messages db
  ∧ tool_results (createSession sessionId t1 db) = tool_results db.
Proof.
  unfold sessionExists, createSession.
  destruct (sessions db !! sessionId) as [row|] eqn:Hrow; simpl.
  - rewrite Hrow. split_and!; done.
  - rewrite lookup_insert_eq. split_and!; try done.
    intros other Hne. by rewrite lookup_insert_ne.
Qed.

Section WithCodec.
Context {JSValue : Type} `{!JsonCodec JSValue}.

(** X2.  [getMessages] answers the rows of the session and no others, each
    converted, in ascending order of timestamp; when the rows were
    inserted at strictly increasing times, the answer is the rows of the
    session in insertion order. *)
Theorem getMessages_ordered sessionId db :
  StronglySorted (λ a b : Entry JSValue, e_timestamp a ≤ e_timestamp b)
    (getMessages sessionId db)
  ∧ getMessages sessionId db
    ≡ₚ row_entry <$> filter (λ row, session_id row = sessionId) (messages db)
  ∧ (∀ entry : Entry JSValue, entry ∈ getMessages sessionId db ↔
       ∃ row, row ∈ messages db ∧ session_id row = sessionId
              ∧ entry = row_entry row)
  ∧ (StronglySorted (λ a b, timestamp a < timestamp b) (messages db) →
     getMessages (JSValue:=JSValue) sessionId db
     = row_entry <$> filter (λ row, session_id row = sessionId) (messages db)).
Proof.
  unfold getMessages, select_messages. split_and!.
  - eapply StronglySorted_fmap; [|apply order_by_timestamp_sorted]. done.
  - by rewrite order_by_timestamp_perm.
  - intros entry. rewrite list_elem_of_fmap. split.
    + intros (row & -> & Hrow). exists row.
      apply elem_of_order_by_timestamp, list_elem_of_filter in Hrow. tauto.
    + intros (row & Hin & Hsid & ->). exists row. split; [done|].
      apply elem_of_order_by_timestamp, list_elem_of_filter. tauto.
  - intros Hsorted. f_equal. apply order_by_timestamp_stable.
    apply StronglySorted_filter.
    eapply StronglySorted_weaken; [|done]. simpl. intros. lia.
Qed.

(** X3.  [saveMessage] on a session that has its row in the store, when
    every stored message of the session is earlier than the clock: the new
    message is put at the end of what [getMessages] answers for the session;
    the answer for every other session and the tool results are unchanged; the
    last activity of the session becomes the time of saving and its creation
    time is kept; the rows of the other sessions are unchanged.  On a session
    without a row the insert throws and nothing is written. *)
Theorem saveMessage_appends sessionId (message : NewMessage JSValue) now rnd db :
  (∀ row, row ∈ messages db → session_id row = sessionId → timestamp row < now) →
  (∀ stored, sessions db !! sessionId = Some stored →
     ∃ db',
       saveMessage sessionId message now rnd db = Some db'
       ∧ getMessages sessionId db'
         = getMessages sessionId db
             ++ [row_entry (message_row sessionId message now rnd)]
       ∧ (∀ other, other ≠ sessionId →
            getMessages (JSValue:=JSValue) other db' = getMessages other db)
       ∧ tool_results db' = tool_results db
       ∧ sessions db' !! sessionId
         = Some {| created_at := created_at stored; last_activity := now |}
       ∧ ∀ other, other ≠ sessionId → sessions db' !! other = sessions db !! other)
  ∧ (sessions db !! sessionId = None →
     saveMessage sessionId message now rnd db = None).
Proof.
  intros Hlate. unfold saveMessage. split.
  - intros stored Hstored. rewrite Hstored. eexists. split; [done|].
    unfold getMessages, select_messages. simpl. split_and!.
    + rewrite filter_app, filter_cons_True, filter_nil by done.
      rewrite order_by_timestamp_snoc, fmap_app; [done|].
      intros row [? ?]%list_elem_of_filter. simpl. apply Z.lt_le_incl.
      by apply Hlate.
    + intros other Hne.
      by rewrite filter_app, filter_cons_False, filter_nil, app_nil_r by done.
    + done.
    + by rewrite lookup_alter_eq, Hstored.
    + intros other Hne. by rewrite lookup_alter_ne.
  - by intros ->.
Qed.

(** X4.  A message saved on a session that has its row in the store is
    among the messages read back, with its role and the time of saving.  A
    structured content whose text parses back to it is read back as that
    value; a string content is read back raw when it is not JSON text, but as
    the parsed value when it is; an empty author name is stored as null. *)
Theorem saved_content_round_trip sessionId (message : NewMessage JSValue)
    now rnd db :
  (is_Some (sessions db !! sessionId) →
   ∃ db',
     saveMessage sessionId message now rnd db = Some db'
     ∧ row_entry (message_row sessionId message now rnd)
       ∈ getMessages sessionId db')
  ∧ e_role (row_entry (JSValue:=JSValue) (message_row sessionId message now rnd))
    = nm_role message
  ∧ e_timestamp (row_entry (JSValue:=JSValue) (message_row sessionId message now rnd))
    = now
  ∧ (∀ v, nm_content message = CValue v →
       JSON_parse (JSON_stringify v) = Some v →
       e_content (row_entry (message_row sessionId message now rnd)) = Parsed v)
  ∧ (∀ s, nm_content message = CString s → JSON_parse s = None →
       e_content (row_entry (JSValue:=JSValue) (message_row sessionId message now rnd))
       = Raw s)
  ∧ (∀ s v, nm_content message = CString s → JSON_parse s = Some v →
       e_content (row_entry (message_row sessionId message now rnd)) = Parsed v)
  ∧ (nm_author_username message = Some "" →
     e_author_username
       (row_entry (JSValue:=JSValue) (message_row sessionId message now rnd))
     = None).
Proof.
  split_and!; try done.
  - intros [stored Hstored]. unfold saveMessage. rewrite Hstored.
    eexists. split; [done|].
    apply getMessages_retains; [|done]. simpl. apply elem_of_app. right. by left.
  - intros v Hc Hrt. unfold row_entry, message_row. simpl. by rewrite Hc; simpl; rewrite Hrt.
  - intros s Hc Hp. unfold row_entry, message_row. simpl. by rewrite Hc; simpl; rewrite Hp.
  - intros s v Hc Hp. unfold row_entry, message_row. simpl. by rewrite Hc; simpl; rewrite Hp.
  - intros Ha. unfold row_entry, message_row. simpl. by rewrite Ha.
Qed.

Lemma deleteOldSessions_active olderThanDays now db sessionId row :
  sessions db !! sessionId = Some row →
  purge_cutoff olderThanDays now ≤ last_activity row →
  getMessages (JSValue:=JSValue) sessionId (deleteOldSessions olderThanDays now db)
  = getMessages sessionId db.
Proof.
  intros Hrow Hactive. unfold getMessages, select_messages. simpl.
  rewrite filter_session_purged; [done|].
  unfold inactive_since. rewrite Hrow. apply bool_decide_eq_false_2. lia.
Qed.

Lemma deleteOldSessions_inactive olderThanDays now db sessionId row :
  sessions db !! sessionId = Some row →
  last_activity row < purge_cutoff olderThanDays now →
  getMessages (JSValue:=JSValue) sessionId (deleteOldSessions olderThanDays now db)
  = [].
Proof.
  intros Hrow Hold. unfold getMessages, select_messages. simpl.
  rewrite list_filter_filter, filter_none; [done|].
  intros r _ [Hsid Hkeep]. apply Hkeep. rewrite Hsid.
  unfold inactive_since. rewrite Hrow. by rewrite bool_decide_eq_true_2.
Qed.

(** X5.  [deleteOldSessions] decides by the last activity of a session: one
    active at or after the cutoff keeps its row, its messages and its tool
    results; one last active before the cutoff loses all three; and a message
    saved at or after the cutoff survives the purge, since saving refreshes
    the activity. *)
Theorem deleteOldSessions_by_activity olderThanDays now db sessionId row :
  sessions db !! sessionId = Some row →
  (purge_cutoff olderThanDays now ≤ last_activity row →
   sessions (deleteOldSessions olderThanDays now db) !! sessionId = Some row
   ∧ getMessages (JSValue:=JSValue) sessionId (deleteOldSessions olderThanDays now db)
     = getMessages sessionId db
   ∧ select_tool_results sessionId (deleteOldSessions olderThanDays now db)
     = select_tool_results sessionId db)
  ∧ (last_activity row < purge_cutoff olderThanDays now →
     sessionExists sessionId (deleteOldSessions olderThanDays now db) = false
     ∧ getMessages (JSValue:=JSValue) sessionId (deleteOldSessions olderThanDays now db)
       = []
     ∧ select_tool_results sessionId (deleteOldSessions olderThanDays now db) = [])
  ∧ (∀ (message : NewMessage JSValue) t rnd,
       purge_cutoff olderThanDays now ≤ t →
       ∃ db',
         saveMessage sessionId message t rnd db = Some db'
         ∧ row_entry (message_row sessionId message t rnd)
           ∈ getMessages sessionId (deleteOldSessions olderThanDays now db')).
Proof.
  intros Hrow. split_and!.
  - intros Hactive.
    assert (inactive_since (purge_cutoff olderThanDays now) db sessionId = false)
      as Hin.
    { unfold inactive_since. rewrite Hrow. apply bool_decide_eq_false_2. lia. }
    split_and!.
    + simpl. apply map_lookup_filter_Some. split; [done|]. simpl. lia.
    + by eapply deleteOldSessions_active.
    + unfold select_tool_results. simpl. by rewrite filter_tool_results_purged.
  - intros Hold.
    assert (inactive_since (purge_cutoff olderThanDays now) db sessionId = true)
      as Hin.
    { unfold inactive_since. rewrite Hrow. by apply bool_decide_eq_true_2. }
    split_and!.
    + unfold sessionExists. apply bool_decide_eq_false_2. intros [row' Hrow'].
      simpl in Hrow'. apply map_lookup_filter_Some in Hrow' as [Hrow' Hkeep].
      simpl in Hkeep. rewrite Hrow in Hrow'. injection Hrow' as <-. lia.
    + by eapply deleteOldSessions_inactive.
    + unfold select_tool_results. simpl.
      rewrite list_filter_filter, filter_none; [done|].
      intros r _ [Hsid Hkeep]. apply Hkeep. by rewrite Hsid, Hin.
  - intros message t rnd Ht. unfold saveMessage. rewrite Hrow.
    eexists. split; [done|]. apply getMessages_retains; [|done].
    simpl. apply list_elem_of_filter. split.
    + simpl. unfold inactive_since. simpl. rewrite lookup_alter_eq, Hrow. simpl.
      rewrite bool_decide_eq_false_2 by lia. by intros ?.
    + apply elem_of_app. right. by left.
Qed.

(** X6.  Let every stored tool result of the session parse and the new
    content parse back from its text.  On a session that has its row in the
    store, [saveToolResult] with a string client id writes, and
    [getToolResults] then does not throw, contains the saved result with its
    tool use id, content, client id and time, and has one entry more than the
    session had rows.  On a session without a row, or with a client id that
    is not a string, the insert throws. *)
Theorem getToolResults_round_trip sessionId toolUseId (v : JSValue)
    clientId now rnd db :
  (∀ row, row ∈ tool_results db → tr_session_id row = sessionId →
          is_Some (JSON_parse (JSValue:=JSValue) (tr_content row))) →
  JSON_parse (JSON_stringify v) = Some v →
  (is_Some (sessions db !! sessionId) →
   ∃ db' entries,
     saveToolResult sessionId toolUseId v (str clientId) now rnd db = Some db'
     ∧ getToolResults sessionId db' = Some entries
     ∧ {| te_id := generateId now rnd; te_tool_use_id := toolUseId;
          te_content := v; te_client_id := clientId; te_timestamp := now |}
       ∈ entries
     ∧ length entries
       = S (length (filter (λ row, tr_session_id row = sessionId)
                      (tool_results db))))
  ∧ (sessions db !! sessionId = None →
     saveToolResult sessionId toolUseId v (str clientId) now rnd db = None)
  ∧ (∀ sender, as_string sender = None →
       saveToolResult sessionId toolUseId v sender now rnd db = None).
Proof.
  intros Hparse Hrt. unfold saveToolResult. split_and!.
  - intros [stored Hstored]. rewrite Hstored.
    exists {| sessions := sessions db; messages := messages db;
              tool_results :=
                tool_results db
                  ++ [tool_result_row sessionId toolUseId v clientId now rnd] |}.
    unfold getToolResults.
    set (f := λ row : ToolResultRow, _).
    set (rows := select_tool_results _ _).
    assert (Hsome : is_Some (mapM f rows)).
    { apply mapM_is_Some, Forall_forall. intros row Hin. subst rows.
      apply elem_of_select_tool_results in Hin as [Hin Hsid]. simpl in Hin.
      apply elem_of_app in Hin as [Hin|Hin].
      - destruct (Hparse row Hin Hsid) as [w Hw]. subst f. simpl. rewrite Hw. eauto.
      - apply list_elem_of_singleton in Hin as ->. subst f. simpl. rewrite Hrt. eauto. }
    destruct Hsome as [entries Hentries]. exists entries.
    split; [done|]. split; [done|].
    pose proof Hentries as Hall. apply mapM_Some in Hall. split.
    + assert (tool_result_row sessionId toolUseId v clientId now rnd ∈ rows) as Hin.
      { subst rows. apply elem_of_select_tool_results. split; [|done].
        simpl. apply elem_of_app. right. by left. }
      apply list_elem_of_lookup in Hin as [i Hi].
      destruct (Forall2_lookup_l _ _ _ _ _ Hall Hi) as (entry & Hentry & Hf).
      subst f. simpl in Hf. rewrite Hrt in Hf. simpl in Hf. injection Hf as <-.
      by eapply list_elem_of_lookup_2.
    + rewrite <-(Forall2_length _ _ _ Hall). subst rows.
      unfold select_tool_results. rewrite order_by_timestamp_perm. simpl.
      rewrite filter_app, length_app, filter_cons_True by done. simpl. lia.
  - by intros ->.
  - intros sender Hsender. by destruct sender.
Qed.

End WithCodec.

End StoreProperties.

(** ** The relay: registry, lock fields, store calls *)

Section RegistryProperties.
Import Relay.
Context {JSValue : Type} `{!JsonCodec JSValue}.

Implicit Types (st : State) (session : Session) (env : Env).

(** The connection variables after a message: only client.connect sets
    them. *)
Lemma handleMessage_connection env socket (msg : ClientMsg JSValue) st :
  connection (handleMessage env socket msg st).1
  = match msg with
    | client_connect sessionId clientId uname =>
        connection (handleClientConnect (JSValue:=JSValue) env socket sessionId
                      clientId uname st).1
    | _ => connection st
    end.
Proof.
  destruct msg as [sid cid uname|sid cid|sid cid uname|sid cid
    |sid cid uname text|sid cid delta|sid cid message
    |sid cid toolUseId toolName input|sid cid toolUseId result isError|type];
    simpl; try done.
  - unfold handleSyncRequest. by destruct (sessions st !! sid).
  - unfold handleLockRequest. destruct (sessions st !! sid) as [session|]; [|done].
    case_bool_decide; [done|]. by destruct (client_of session cid).
  - unfold handleLockRelease. destruct (sessions st !! sid); [|done].
    by case_bool_decide.
  - unfold handleUserMessage. destruct (sessions st !! sid); [|done].
    case_bool_decide; [done|]. by destruct (Database.saveMessage _ _ _ _ _).
  - unfold handleAssistantChunk. destruct (sessions st !! sid); [|done].
    by case_bool_decide.
  - unfold handleAssistantComplete. destruct (sessions st !! sid); [|done].
    case_bool_decide; [done|]. by destruct (Database.saveMessage _ _ _ _ _).
  - unfold handleToolExecute. by destruct (sessions st !! sid).
  - unfold handleToolResult. destruct (sessions st !! sid); [|done].
    by destruct (Database.saveToolResult _ _ _ _ _ _ _).
Qed.

(** The store after a message: what the three saving handlers wrote, when
    the store took it, and the session a connect created. *)
Lemma handleMessage_db env socket (msg : ClientMsg JSValue) st :
  db (handleMessage env socket msg st).1
  = match msg with
    | client_connect sessionId clientId uname =>
        db (handleClientConnect (JSValue:=JSValue) env socket sessionId
              clientId uname st).1
    | user_message sessionId clientId uname text =>
        match sessions st !! sessionId with
        | Some session =>
            if bool_decide (lockHolder session ≠ clientId) then db st
            else default (db st)
                   (Database.saveMessage sessionId
                      {| Database.nm_role := user;
                         Database.nm_content := CString text;
                         Database.nm_author_username := Some uname |}
                      (now env) (rnd env) (db st))
        | None => db st
        end
    | assistant_complete sessionId clientId message =>
        match sessions st !! sessionId with
        | Some session =>
            if bool_decide (lockHolder session ≠ clientId) then db st
            else default (db st)
                   (Database.saveMessage sessionId
                      {| Database.nm_role := assistant;
                         Database.nm_content := content message;
                         Database.nm_author_username := None |}
                      (now env) (rnd env) (db st))
        | None => db st
        end
    | tool_result sessionId clientId toolUseId result isError =>
        match sessions st !! sessionId with
        | Some session =>
            default (db st)
              (Database.saveToolResult sessionId toolUseId result clientId
                 (now env) (rnd env) (db st))
        | None => db st
        end
    | _ => db st
    end.
Proof.
  destruct msg as [sid cid uname|sid cid|sid cid uname|sid cid
    |sid cid uname text|sid cid delta|sid cid message
    |sid cid toolUseId toolName input|sid cid toolUseId result isError|type];
    simpl; try done.
  - unfold handleSyncRequest. by destruct (sessions st !! sid).
  - unfold handleLockRequest. destruct (sessions st !! sid) as [session|]; [|done].
    case_bool_decide; [done|]. by destruct (client_of session cid).
  - unfold handleLockRelease. destruct (sessions st !! sid); [|done].
    by case_bool_decide.
  - unfold handleUserMessage. destruct (sessions st !! sid); [|done].
    case_bool_decide; [done|]. by destruct (Database.saveMessage _ _ _ _ _).
  - unfold handleAssistantChunk. destruct (sessions st !! sid); [|done].
    by case_bool_decide.
  - unfold handleAssistantComplete. destruct (sessions st !! sid); [|done].
    case_bool_decide; [done|]. by destruct (Database.saveMessage _ _ _ _ _).
  - unfold handleToolExecute. by destruct (sessions st !! sid).
  - unfold handleToolResult. destruct (sessions st !! sid); [|done].
    by destruct (Database.saveToolResult _ _ _ _ _ _ _).
Qed.

Lemma sound_initial : registry_sound initial.
Proof. split; intros *; simpl; by rewrite lookup_empty. Qed.

Lemma sound_store st sessionId session d :
  registry_sound st → well_registered sessionId session → lock_consistent session →
  registry_sound {| sessions := <[sessionId := session]> (sessions st); db := d;
           connection := connection st |}.
Proof.
  intros [Hs Hc] Hw Hl. split; [|done]. intros sid s. simpl.
  intros [[<- <-]|[_ ?]]%lookup_insert_Some; [done|]. by apply Hs.
Qed.

Lemma sound_same st st' :
  sessions st' = sessions st → connection st' = connection st →
  registry_sound st → registry_sound st'.
Proof. intros Hs Hc [H1 H2]. split; intros *; rewrite ?Hs, ?Hc; eauto. Qed.

Lemma sound_of st' m c d :
  sessions st' = m → connection st' = c →
  registry_sound {| sessions := m; db := d; connection := c |} →
  registry_sound st'.
Proof. intros <- <- [H1 H2]. by split. Qed.

Lemma sound_handleClientDisconnect env sessionId clientId st :
  registry_sound st →
  registry_sound (handleClientDisconnect (JSValue:=JSValue) env sessionId clientId st).1.
Proof.
  intros Hregistry_sound. pose proof Hregistry_sound as [Hs Hc]. unfold handleClientDisconnect.
  destruct (sessions st !! sessionId) as [session|] eqn:Hsess; [|done].
  destruct (clients session !! clientId) as [info|] eqn:Hinfo; [|done].
  destruct (Hs _ _ Hsess) as [(Hid & Hne & _ & Hkeys) Hlock].
  assert (Hdel : ∀ s', id s' = id session →
            clients s' = delete clientId (clients session) →
            lock_consistent s' →
            registry_sound (with_sessions st
                     (if bool_decide (size (clients s') = 0%nat)
                      then delete sessionId (sessions st)
                      else <[sessionId := s']> (sessions st)))).
  { intros s' Hid' Hcl Hl'. case_bool_decide as Hsize.
    - split; [|done]. intros sid s. simpl.
      intros [_ ?]%lookup_delete_Some. by apply Hs.
    - apply (sound_store st); [done| |done].
      split_and!; [congruence|done| |].
      + intros Hempty. apply Hsize. by rewrite Hempty, map_size_empty.
      + intros k c. rewrite Hcl. intros [_ ?]%lookup_delete_Some. by apply Hkeys. }
  simpl. case_bool_decide; simpl.
  - refine (Hdel (with_lock (with_clients session
                               (delete clientId (clients session)))
                    null None None) _ _ _); [done|done|by left].
  - refine (Hdel (with_clients session (delete clientId (clients session)))
              _ _ _); done.
Qed.

Lemma sound_handleMessage env socket (msg : ClientMsg JSValue) st :
  registry_sound st → registry_sound (handleMessage env socket msg st).1.
Proof.
  intros Hsound. pose proof Hsound as [Hs Hc].
  assert (Hst : registry_sound
                  {| sessions := sessions st; db := db st;
                     connection := connection st |}) by (by destruct st).
  assert (Hactive : ∀ sid cid,
    registry_sound
      {| sessions :=
           match sessions st !! sid with
           | Some session =>
               if bool_decide (lockHolder session ≠ cid) then sessions st
               else <[sid := with_lastActivity session (now env)]> (sessions st)
           | None => sessions st
           end;
         db := db st; connection := connection st |}).
  { intros sid cid. destruct (sessions st !! sid) as [session|] eqn:Hsess; [|done].
    case_bool_decide; [done|]. destruct (Hs _ _ Hsess) as [Hw Hl].
    by apply (sound_store st). }
  eapply (sound_of _ _ _ (db st));
    [apply handleMessage_sessions|apply handleMessage_connection|].
  destruct msg as [sid cid uname|sid cid|sid cid uname|sid cid
    |sid cid uname text|sid cid delta|sid cid message
    |sid cid toolUseId toolName input|sid cid toolUseId result isError|type];
    try done; try apply Hactive.
  - unfold handleClientConnect. destruct cid as [| |cid]; [done..|].
    case_bool_decide as Hids; [done|].
    assert (sid ≠ "" ∧ cid ≠ "") as [Hsid Hcid] by tauto.
    assert (Hnew : ∀ session d,
              id session = sid → lock_consistent session →
              (∀ k c, clients session !! k = Some c → clientId c = k ∧ k ≠ "") →
              registry_sound {| sessions :=
                         <[sid := with_lastActivity
                                    (with_clients session
                                       (<[cid := {| clientId := cid;
                                                    username := if bool_decide (uname = "")
                                                                then "Anonymous" else uname;
                                                    ws := socket;
                                                    connectedAt := now env |}]>
                                          (clients session)))
                                    (now env)]> (sessions st);
                       db := d;
                       connection := <[socket := (sid, cid)]> (connection st) |}).
    { intros session d Hid Hl Hkeys. split.
      - intros sid' s. simpl.
        intros [[<- <-]|[_ ?]]%lookup_insert_Some; [|by apply Hs].
        split; [|done]. split_and!; [done|done| |].
        + simpl. apply insert_non_empty.
        + intros k c. simpl.
          intros [[<- <-]|[_ ?]]%lookup_insert_Some; [done|]. by apply Hkeys.
      - intros socket' sid' cid'. simpl.
        intros [[_ [= <- <-]]|[_ ?]]%lookup_insert_Some; [done|]. by eapply Hc. }
    destruct (sessions st !! sid) as [session|] eqn:Hsess; simpl.
    + destruct (Hs _ _ Hsess) as [(? & ? & ? & ?) ?]. by apply Hnew.
    + apply Hnew; [done|by left|]. intros k c. simpl. by rewrite lookup_empty.
  - unfold handleLockRequest.
    destruct (sessions st !! sid) as [session|] eqn:Hsess; [|done].
    destruct (Hs _ _ Hsess) as [Hw Hl].
    case_bool_decide.
    + apply (sound_store st); [done|done|]. right. simpl. eauto.
    + by destruct (client_of session cid).
  - unfold handleLockRelease.
    destruct (sessions st !! sid) as [session|] eqn:Hsess; [|done].
    destruct (Hs _ _ Hsess) as [Hw Hl].
    case_bool_decide; [|done].
    apply (sound_store st); [done|done|by left].
Qed.

Lemma sound_step env (ev : Event JSValue) st :
  registry_sound st → registry_sound (step env ev st).1.
Proof.
  intros Hregistry_sound. pose proof Hregistry_sound as [Hs Hc].
  destruct ev as [socket msg|socket| | |socket]; simpl.
  - by apply sound_handleMessage.
  - unfold handleClose.
    destruct (connection st !! socket) as [[sid cid]|] eqn:Hconn; [|done].
    pose proof (sound_handleClientDisconnect env sid cid st Hregistry_sound) as H.
    destruct (handleClientDisconnect env sid cid st) as [st' effects].
    destruct H as [H1 H2]. split; [done|]. simpl in *.
    intros socket' sid' cid' [_ ?]%lookup_delete_Some. by eapply H2.
  - split; [|done]. intros sid s. simpl. rewrite lookup_fmap.
    destruct (sessions st !! sid) as [s0|] eqn:Hsess; [|done]. intros [= <-].
    destruct (Hs _ _ Hsess) as [Hw Hl]. unfold expire.
    destruct (lockGrantedAt s0) as [t|]; [|done].
    destruct (truthy (lockHolder s0) && bool_decide (t ≠ 0)); [|done].
    case_bool_decide; [|done]. split; [done|by left].
  - done.
  - done.
Qed.

Lemma sound_run (trace : list (Env * Event JSValue)) : ∀ st,
  registry_sound st → registry_sound (run trace st).1.
Proof.
  induction trace as [|[env ev] trace IH]; intros st Hregistry_sound; [done|].
  simpl. pose proof (sound_step env ev st Hregistry_sound) as Hstep.
  destruct (step env ev st) as [st' effects]. simpl in *.
  specialize (IH st' Hstep). by destruct (run trace st').
Qed.

(** X7.  In every state the relay reaches from its start, a session is
    stored under its own id, which is not empty, it has at least one client
    (a session left empty is removed), each client is stored under its own
    client id, which is not empty; and the session and client ids recorded
    for a socket are not empty. *)
Theorem registry_well_keyed (trace : list (Env * Event JSValue)) :
  (∀ sessionId session,
     sessions (run trace initial).1 !! sessionId = Some session →
     well_registered sessionId session)
  ∧ (∀ socket sessionId clientId,
       connection (run trace initial).1 !! socket = Some (sessionId, clientId) →
       sessionId ≠ "" ∧ clientId ≠ "").
Proof.
  destruct (sound_run trace initial sound_initial) as [Hs Hc].
  split; [|done]. intros sid s Hsess. by destruct (Hs _ _ Hsess).
Qed.

(** X8.  In every state the relay reaches from its start, the lock fields of
    a session are cleared together, and a holder is set only together with a
    grant time: either the holder is null and the holder name and grant time
    are too, or the grant time is set.  (A lock.request whose [clientId] is
    null sets the name and the time and leaves the holder null.) *)
Theorem lock_fields_consistent (trace : list (Env * Event JSValue)) :
  ∀ sessionId session,
    sessions (run trace initial).1 !! sessionId = Some session →
    (lockHolder session = null ∧ lockUsername session = None
     ∧ lockGrantedAt session = None)
    ∨ is_Some (lockGrantedAt session).
Proof.
  destruct (sound_run trace initial sound_initial) as [Hs Hc].
  intros sid s Hsess. by destruct (Hs _ _ Hsess).
Qed.

(** X9.  [handleLockRelease] compares the [clientId] of the message with the
    lock field.  When they are equal (the holder releases; also a null
    [clientId] while the lock is free) it clears the three lock fields and
    tells every client whose socket is open; when they differ it changes
    nothing and sends nothing.  A request granted on a free lock and then
    released by the same [clientId] leaves the session without lock, its last
    activity being the time of the request. *)
Theorem lock_release_only_by_holder env st sessionId clientId session :
  sessions st !! sessionId = Some session →
  (lockHolder session = clientId →
   handleLockRelease (JSValue:=JSValue) env sessionId clientId st
   = (with_sessions st
        (<[sessionId := with_lock session null None None]> (sessions st)),
      broadcast env (with_lock session null None None) (lock_released None) None)
   ∧ (∃ released,
        sessions (handleLockRelease (JSValue:=JSValue) env sessionId clientId st).1
          !! sessionId = Some released
        ∧ lockHolder released = null ∧ lockUsername released = None
        ∧ lockGrantedAt released = None
        ∧ clients released = clients session)
   ∧ db (handleLockRelease (JSValue:=JSValue) env sessionId clientId st).1 = db st
   ∧ ∀ k c, clients session !! k = Some c → readyState env (ws c) = OPEN →
       (Send (ws c) (lock_released None) : Effect JSValue)
       ∈ (handleLockRelease env sessionId clientId st).2)
  ∧ (lockHolder session ≠ clientId →
     handleLockRelease (JSValue:=JSValue) env sessionId clientId st = (st, []))
  ∧ (∀ env' uname,
       lockHolder session = null →
       (handleLockRelease (JSValue:=JSValue) env' sessionId clientId
          (handleLockRequest (JSValue:=JSValue) env sessionId clientId uname st).1).1
       = with_sessions st
           (<[sessionId := with_lock (with_lastActivity session (now env))
                             null None None]> (sessions st))).
Proof.
  intros Hs. split_and!.
  - intros Hh. unfold handleLockRelease. rewrite Hs.
    rewrite bool_decide_eq_true_2 by done. split_and!; try done.
    + eexists. split; [apply lookup_insert_eq|done].
    + intros k c Hk Ho. simpl. by eapply broadcast_reaches.
  - intros Hh. unfold handleLockRelease. rewrite Hs.
    by rewrite bool_decide_eq_false_2.
  - intros env' uname Hfree. unfold handleLockRequest. rewrite Hs.
    rewrite bool_decide_eq_true_2 by (by left). simpl.
    unfold handleLockRelease. simpl. rewrite lookup_insert_eq. simpl.
    rewrite bool_decide_eq_true_2 by done. simpl.
    unfold with_sessions. simpl. by rewrite insert_insert_eq.
Qed.

Lemma messages_saveMessage sessionId (saved : Database.NewMessage JSValue)
    now rnd d d' :
  Database.saveMessage sessionId saved now rnd d = Some d' →
  is_Some (Database.sessions d !! sessionId)
  ∧ Database.messages d'
    = Database.messages d ++ [Database.message_row sessionId saved now rnd]
  ∧ Database.tool_results d' = Database.tool_results d.
Proof.
  unfold Database.saveMessage.
  destruct (Database.sessions d !! sessionId); [|done]. intros [= <-]. eauto.
Qed.

Lemma saveToolResult_rows sessionId toolUseId (result : JSValue) clientId
    now rnd d d' :
  Database.saveToolResult sessionId toolUseId result clientId now rnd d = Some d' →
  Database.messages d' = Database.messages d
  ∧ Database.tool_results d `prefix_of` Database.tool_results d'.
Proof.
  unfold Database.saveToolResult. destruct clientId as [| |c]; [done..|].
  destruct (Database.sessions d !! sessionId); [|done]. intros [= <-].
  split; [done|]. by apply prefix_app_r.
Qed.

Lemma handleClientConnect_db env socket sessionId clientId uname st :
  Database.messages
    (db (handleClientConnect (JSValue:=JSValue) env socket sessionId clientId
           uname st).1)
  = Database.messages (db st)
  ∧ Database.tool_results
      (db (handleClientConnect (JSValue:=JSValue) env socket sessionId clientId
             uname st).1)
    = Database.tool_results (db st).
Proof.
  unfold handleClientConnect. destruct clientId as [| |cid]; [done..|].
  case_bool_decide; [done|].
  destruct (sessions st !! sessionId); simpl; [done|].
  unfold Database.createSession. by destruct (_ !! _).
Qed.

Lemma step_messages env (ev : Event JSValue) st :
  is_cleanup ev = false →
  (Database.messages (db (step env ev st).1) = Database.messages (db st))
  ∨ (∃ socket sessionId clientId session (saved : Database.NewMessage JSValue),
       sessions st !! sessionId = Some session
       ∧ lockHolder session = clientId
       ∧ is_Some (Database.sessions (db st) !! sessionId)
       ∧ Database.messages (db (step env ev st).1)
         = Database.messages (db st)
             ++ [Database.message_row sessionId saved (now env) (rnd env)]
       ∧ ((∃ uname text,
             ev = Message socket (user_message sessionId clientId uname text)
             ∧ saved = {| Database.nm_role := user;
                          Database.nm_content := CString text;
                          Database.nm_author_username := Some uname |})
          ∨ (∃ message,
               ev = Message socket (assistant_complete sessionId clientId message)
               ∧ saved = {| Database.nm_role := assistant;
                            Database.nm_content := content message;
                            Database.nm_author_username := None |}))).
Proof.
  intros Hev. destruct ev as [socket msg|socket| | |socket]; simpl; [| | |done|by left].
  - rewrite handleMessage_db.
    destruct msg as [sid cid uname|sid cid|sid cid uname|sid cid
      |sid cid uname text|sid cid delta|sid cid message
      |sid cid toolUseId toolName input|sid cid toolUseId result isError|type];
      try (by left).
    + left. apply handleClientConnect_db.
    + destruct (sessions st !! sid) as [session|] eqn:Hs; [|by left].
      case_bool_decide as Hh; [by left|].
      destruct (Database.saveMessage _ _ _ _ _) as [d'|] eqn:Hsave; [|by left].
      apply messages_saveMessage in Hsave as (Hrow & Hrows & _). right.
      exists socket, sid, cid, session. eexists. split_and!; [done| |done|done|].
      * by destruct (decide (lockHolder session = cid)).
      * left. eauto.
    + destruct (sessions st !! sid) as [session|] eqn:Hs; [|by left].
      case_bool_decide as Hh; [by left|].
      destruct (Database.saveMessage _ _ _ _ _) as [d'|] eqn:Hsave; [|by left].
      apply messages_saveMessage in Hsave as (Hrow & Hrows & _). right.
      exists socket, sid, cid, session. eexists. split_and!; [done| |done|done|].
      * by destruct (decide (lockHolder session = cid)).
      * right. eauto.
    + left. destruct (sessions st !! sid); [|done].
      destruct (Database.saveToolResult _ _ _ _ _ _ _) as [d'|] eqn:Hsave; [|done].
      by apply saveToolResult_rows in Hsave as [? _].
  - left. unfold handleClose.
    destruct (connection st !! socket) as [[sid cid]|]; [|done].
    unfold handleClientDisconnect.
    destruct (sessions st !! sid) as [session|]; [|done].
    destruct (clients session !! cid); [|done].
    simpl. by case_bool_decide.
  - by left.
Qed.

Lemma step_tool_results env (ev : Event JSValue) st :
  is_cleanup ev = false →
  Database.tool_results (db st)
  `prefix_of` Database.tool_results (db (step env ev st).1).
Proof.
  intros Hev. destruct ev as [socket msg|socket| | |socket]; simpl; [| |done|done|done].
  - rewrite handleMessage_db.
    destruct msg as [sid cid uname|sid cid|sid cid uname|sid cid
      |sid cid uname text|sid cid delta|sid cid message
      |sid cid toolUseId toolName input|sid cid toolUseId result isError|type];
      try done.
    + by destruct (handleClientConnect_db env socket sid cid uname st) as [_ ->].
    + destruct (sessions st !! sid) as [session|]; [|done].
      case_bool_decide; [done|].
      destruct (Database.saveMessage _ _ _ _ _) as [d'|] eqn:Hsave; [|done].
      simpl. by apply messages_saveMessage in Hsave as (_ & _ & ->).
    + destruct (sessions st !! sid) as [session|]; [|done].
      case_bool_decide; [done|].
      destruct (Database.saveMessage _ _ _ _ _) as [d'|] eqn:Hsave; [|done].
      simpl. by apply messages_saveMessage in Hsave as (_ & _ & ->).
    + destruct (sessions st !! sid); [|done].
      destruct (Database.saveToolResult _ _ _ _ _ _ _) as [d'|] eqn:Hsave; [|done].
      simpl. by apply saveToolResult_rows in Hsave as [_ ?].
  - unfold handleClose.
    destruct (connection st !! socket) as [[sid cid]|]; [|done].
    unfold handleClientDisconnect.
    destruct (sessions st !! sid) as [session|]; [|done].
    destruct (clients session !! cid); [|done].
    simpl. by case_bool_decide.
Qed.

(** X10.  Between two daily cleanups the relay only appends to the store.
    An event other than the cleanup leaves the stored messages as they are or
    appends one row; it appends when it is a user.message or an
    assistant.complete whose [clientId] equals the lock field of an existing
    session that has its row in the store, and the row is that message with
    the role user or assistant.  Along a run without a cleanup the stored
    messages and tool results at the start are a prefix of those at the end.
    The cleanup itself only removes rows. *)
Theorem store_appends_between_cleanups env (ev : Event JSValue) st
    (trace : list (Env * Event JSValue)) :
  (is_cleanup ev = false →
   (Database.messages (db (step env ev st).1) = Database.messages (db st))
   ∨ (∃ socket sessionId clientId session (saved : Database.NewMessage JSValue),
        sessions st !! sessionId = Some session
        ∧ lockHolder session = clientId
        ∧ is_Some (Database.sessions (db st) !! sessionId)
        ∧ Database.messages (db (step env ev st).1)
          = Database.messages (db st)
              ++ [Database.message_row sessionId saved (now env) (rnd env)]
        ∧ ((∃ uname text,
              ev = Message socket (user_message sessionId clientId uname text)
              ∧ saved = {| Database.nm_role := user;
                           Database.nm_content := CString text;
                           Database.nm_author_username := Some uname |})
           ∨ (∃ message,
                ev = Message socket (assistant_complete sessionId clientId message)
                ∧ saved = {| Database.nm_role := assistant;
                             Database.nm_content := content message;
                             Database.nm_author_username := None |}))))
  ∧ (forallb (λ entry, negb (is_cleanup entry.2)) trace = true →
     Database.messages (db st) `prefix_of` Database.messages (db (run trace st).1)
     ∧ Database.tool_results (db st)
       `prefix_of` Database.tool_results (db (run trace st).1))
  ∧ Database.messages (db (step (JSValue:=JSValue) env DailyCleanup st).1)
    `sublist_of` Database.messages (db st)
  ∧ Database.tool_results (db (step (JSValue:=JSValue) env DailyCleanup st).1)
    `sublist_of` Database.tool_results (db st).
Proof.
  split; [apply step_messages|]. split; [|split; apply sublist_filter].
  revert st. induction trace as [|[env' ev'] trace IH]; intros st Hall; [done|].
  simpl in Hall. apply andb_prop in Hall as [Hev Hall].
  apply negb_true_iff in Hev.
  simpl. destruct (step env' ev' st) as [st' effects] eqn:Hstep.
  destruct (IH st' Hall) as [IH1 IH2].
  destruct (run trace st') as [st'' effects'']. simpl in *. split.
  - etrans; [|exact IH1].
    destruct (step_messages env' ev' st Hev) as [Heq|(?&?&?&?&?&_&_&_&Heq&_)];
      rewrite Hstep in Heq; simpl in Heq; rewrite Heq; [done|].
    by apply prefix_app_r.
  - etrans; [|exact IH2].
    pose proof (step_tool_results env' ev' st Hev) as H. by rewrite Hstep in H.
Qed.

(** X11.  [handleClientConnect] answers with an error and changes nothing when
    the session id is empty or the client id is falsy (empty, null or
    absent).  Otherwise it registers the
    client under its id with the socket, the time and the name (Anonymous for
    an empty name), records the ids for the socket, sets the last activity,
    confirms to the socket and then notifies the other open clients; joining
    an existing session keeps its lock and its other clients and calls the
    store for nothing, a new session starts without lock or other clients and
    is created in the store; no message is stored either way. *)
Theorem client_connect_admits env socket sessionId clientId uname st :
  (sessionId = "" ∨ clientId = "" →
   handleClientConnect (JSValue:=JSValue) env socket sessionId (str clientId) uname st
   = (st, [Send socket (error "Missing sessionId or clientId")]))
  ∧ (∀ falsy, truthy falsy = false →
       handleClientConnect (JSValue:=JSValue) env socket sessionId falsy uname st
       = (st, [Send socket (error "Missing sessionId or clientId")]))
  ∧ (sessionId ≠ "" → clientId ≠ "" →
     ∃ session' db' created,
       handleClientConnect (JSValue:=JSValue) env socket sessionId (str clientId)
         uname st
       = ({| sessions := <[sessionId := session']> (sessions st);
             db := db';
             connection := <[socket := (sessionId, clientId)]> (connection st) |},
          created
            ++ [Send socket (connected clientId sessionId)]
            ++ broadcast env session'
                 (participant_joined
                    (if bool_decide (uname = "") then "Anonymous" else uname)
                    clientId)
                 (Some clientId))
       ∧ clients session' !! clientId
         = Some {| Relay.clientId := clientId;
                   username := if bool_decide (uname = "") then "Anonymous" else uname;
                   ws := socket; connectedAt := now env |}
       ∧ lastActivity session' = now env
       ∧ Database.messages db' = Database.messages (db st)
       ∧ (∀ session, sessions st !! sessionId = Some session →
            created = [] ∧ db' = db st
            ∧ lockHolder session' = lockHolder session
            ∧ lockUsername session' = lockUsername session
            ∧ lockGrantedAt session' = lockGrantedAt session
            ∧ ∀ k, k ≠ clientId → clients session' !! k = clients session !! k)
       ∧ (sessions st !! sessionId = None →
          created = [Persist (db_createSession sessionId)]
          ∧ db' = Database.createSession sessionId (now env) (db st)
          ∧ lockHolder session' = null ∧ lockUsername session' = None
          ∧ lockGrantedAt session' = None
          ∧ ∀ k, k ≠ clientId → clients session' !! k = None)
       ∧ ∀ k c, clients session' !! k = Some c → Relay.clientId c ≠ clientId →
           readyState env (ws c) = OPEN →
           (Send (ws c)
              (participant_joined
                 (if bool_decide (uname = "") then "Anonymous" else uname)
                 clientId) : Effect JSValue)
           ∈ (handleClientConnect env socket sessionId (str clientId) uname st).2).
Proof.
  split_and!.
  - intros Hmissing. unfold handleClientConnect.
    by rewrite bool_decide_eq_true_2.
  - intros falsy Hfalsy. unfold handleClientConnect.
    destruct falsy as [| |cid]; [done..|]. simpl in Hfalsy.
    apply negb_false_iff, bool_decide_eq_true_1 in Hfalsy.
    by rewrite bool_decide_eq_true_2 by (by right).
  - intros Hsid Hcid. unfold handleClientConnect.
    rewrite bool_decide_eq_false_2 by (by intros [?|?]).
    assert (Hreach : ∀ session' (message : ServerMsg JSValue) created k c,
              clients session' !! k = Some c → Relay.clientId c ≠ clientId →
              readyState env (ws c) = OPEN →
              Send (ws c) message
              ∈ created ++ [Send socket (connected clientId sessionId)]
                  ++ broadcast env session' message (Some clientId)).
    { intros session' message created k c Hk Hne Ho.
      apply elem_of_app. right. apply elem_of_app. right.
      apply elem_of_broadcast. exists c. split; [done|].
      apply elem_of_recipients. split_and!; [eauto| |done]. congruence. }
    destruct (sessions st !! sessionId) as [session|] eqn:Hs.
    + do 3 eexists. split; [reflexivity|]. split_and!; try done.
      * simpl. apply lookup_insert_eq.
      * intros ? [= <-]. split_and!; try done.
        intros k Hk. simpl. by rewrite lookup_insert_ne.
      * intros k c Hk Hne Ho. by eapply Hreach.
    + do 3 eexists. split; [reflexivity|]. split_and!; try done.
      * simpl. apply lookup_insert_eq.
      * apply messages_createSession.
      * intros _. split_and!; try done.
        intros k Hk. simpl. rewrite lookup_insert_ne by done. apply lookup_empty.
      * intros k c Hk Hne Ho. by eapply Hreach.
Qed.

(** X12.  [handleSyncRequest] changes nothing.  For an unknown session it
    answers Session not found, without a call on the store; for a known one
    it reads the messages of the session from the store and sends the
    requesting socket alone one sync.state with them, the lock holder and
    username of the session, and one participant for each client of the
    session. *)
Theorem sync_request_reads_only socket sessionId st :
  (handleSyncRequest (JSValue:=JSValue) socket sessionId st).1 = st
  ∧ (sessions st !! sessionId = None →
     (handleSyncRequest (JSValue:=JSValue) socket sessionId st).2
     = [Send socket (error "Session not found")])
  ∧ (∀ session,
       sessions st !! sessionId = Some session →
       ∃ participants,
         (handleSyncRequest (JSValue:=JSValue) socket sessionId st).2
         = [Query (db_getMessages sessionId);
            Send socket
              (sync_state sessionId (Database.getMessages sessionId (db st))
                 participants (lockHolder session) (lockUsername session))]
         ∧ length participants = size (clients session)
         ∧ ∀ participant,
             participant ∈ participants ↔
             ∃ k c, clients session !! k = Some c
                    ∧ participant = {| p_clientId := Relay.clientId c;
                                       p_username := username c |}).
Proof.
  unfold handleSyncRequest. destruct (sessions st !! sessionId) as [session|].
  - split_and!; try done. intros ? [= <-]. eexists. split; [done|]. split.
    + by rewrite !length_fmap, length_map_to_list.
    + intros participant. rewrite list_elem_of_fmap. split.
      * intros (c & -> & Hc). apply list_elem_of_fmap in Hc as ([k c'] & -> & Hk).
        apply elem_of_map_to_list in Hk. eauto.
      * intros (k & c & Hk & ->). exists c. split; [done|].
        apply list_elem_of_fmap. exists (k, c). split; [done|].
        by apply elem_of_map_to_list.
  - by split_and!.
Qed.

Lemma lock_neutral_step env (ev : Event JSValue) st sessionId session :
  lock_neutral ev = true →
  sessions st !! sessionId = Some session →
  ∃ session', sessions (step env ev st).1 !! sessionId = Some session'
    ∧ lockHolder session' = lockHolder session
    ∧ lockUsername session' = lockUsername session
    ∧ lockGrantedAt session' = lockGrantedAt session
    ∧ ∀ k c, clients session !! k = Some c → is_Some (clients session' !! k).
Proof.
  intros Hev Hs.
  assert (Hsame : ∃ session', sessions st !! sessionId = Some session'
            ∧ lockHolder session' = lockHolder session
            ∧ lockUsername session' = lockUsername session
            ∧ lockGrantedAt session' = lockGrantedAt session
            ∧ ∀ k c, clients session !! k = Some c → is_Some (clients session' !! k))
    by (exists session; eauto 10).
  assert (Hput : ∀ sid s0 s1,
            sessions st !! sid = Some s0 →
            lockHolder s1 = lockHolder s0 → lockUsername s1 = lockUsername s0 →
            lockGrantedAt s1 = lockGrantedAt s0 →
            (∀ k c, clients s0 !! k = Some c → is_Some (clients s1 !! k)) →
            ∃ session',
              <[sid := s1]> (sessions st) !! sessionId = Some session'
              ∧ lockHolder session' = lockHolder session
              ∧ lockUsername session' = lockUsername session
              ∧ lockGrantedAt session' = lockGrantedAt session
              ∧ ∀ k c, clients session !! k = Some c → is_Some (clients session' !! k)).
  { intros sid s0 s1 Hs0 H1 H2 H3 H4.
    destruct (decide (sid = sessionId)) as [->|Hne].
    - rewrite lookup_insert_eq. exists s1. rewrite Hs in Hs0. injection Hs0 as <-.
      eauto 10.
    - rewrite lookup_insert_ne by done. done. }
  assert (Hactive : ∀ sid cid,
    ∃ session',
      match sessions st !! sid with
      | Some s0 =>
          if bool_decide (lockHolder s0 ≠ cid) then sessions st
          else <[sid := with_lastActivity s0 (now env)]> (sessions st)
      | None => sessions st
      end !! sessionId = Some session'
      ∧ lockHolder session' = lockHolder session
      ∧ lockUsername session' = lockUsername session
      ∧ lockGrantedAt session' = lockGrantedAt session
      ∧ ∀ k c, clients session !! k = Some c → is_Some (clients session' !! k)).
  { intros sid cid. destruct (sessions st !! sid) as [s0|] eqn:Hs0; [|done].
    case_bool_decide; [done|]. eapply (Hput sid s0); eauto. }
  destruct ev as [socket msg|socket| | |socket]; [|done..|done]. simpl.
  rewrite handleMessage_sessions.
  destruct msg as [sid cid uname|sid cid|sid cid uname|sid cid
      |sid cid uname text|sid cid delta|sid cid message
      |sid cid toolUseId toolName input|sid cid toolUseId result isError|type];
      simpl in *; try done; try apply Hactive.
  unfold handleClientConnect. destruct cid as [| |cid]; [done..|].
  case_bool_decide; [done|].
  destruct (sessions st !! sid) as [s0|] eqn:Hs0; simpl.
  - eapply (Hput sid s0); [done..|]. intros k c Hk. simpl.
    destruct (decide (cid = k)) as [->|]; [rewrite lookup_insert_eq|
      rewrite lookup_insert_ne by done]; eauto.
  - destruct (decide (sid = sessionId)) as [->|Hne]; [congruence|].
    by rewrite lookup_insert_ne.
Qed.

Lemma lock_neutral_run (trace : list (Env * Event JSValue)) : ∀ st sessionId session,
  forallb (λ entry, lock_neutral entry.2) trace = true →
  sessions st !! sessionId = Some session →
  ∃ session', sessions (run trace st).1 !! sessionId = Some session'
    ∧ lockHolder session' = lockHolder session
    ∧ lockUsername session' = lockUsername session
    ∧ lockGrantedAt session' = lockGrantedAt session
    ∧ ∀ k c, clients session !! k = Some c → is_Some (clients session' !! k).
Proof.
  induction trace as [|[env ev] trace IH]; intros st sid session Hall Hs.
  - exists session. eauto 10.
  - simpl in Hall. apply andb_prop in Hall as [Hev Hall]. simpl.
    destruct (lock_neutral_step env ev st sid session Hev Hs)
      as (s1 & Hs1 & H1 & H2 & H3 & H4).
    destruct (step env ev st) as [st1 effects]. simpl in Hs1.
    destruct (IH st1 sid s1 Hall Hs1) as (s2 & Hs2 & G1 & G2 & G3 & G4).
    destruct (run trace st1) as [st2 effects2]. simpl in *.
    exists s2. split_and!; try congruence.
    intros k c Hk. destruct (H4 k c Hk) as [c1 Hc1]. by eapply G4.
Qed.

(** X13.  The lock expires by the time of its grant, not by activity.  Let
    the holder have a non-empty id and the grant a non-zero time: after any
    run of messages other than lock requests and releases (user messages,
    chunks, completions, tool traffic, connects, syncs), of daily cleanups
    and of texts that are no messages, the holder and the
    grant time are as before, and a sweep made more than 30 seconds after the
    grant clears the lock and tells every open client, with reason
    timeout. *)
Theorem activity_does_not_extend_lock (trace : list (Env * Event JSValue))
    env st sessionId session holder grantedAt :
  forallb (λ entry, lock_neutral entry.2) trace = true →
  sessions st !! sessionId = Some session →
  lockHolder session = str holder → lockGrantedAt session = Some grantedAt →
  holder ≠ "" → grantedAt ≠ 0 →
  now env - grantedAt > LOCK_TIMEOUT_MS →
  ∃ session',
    sessions (run trace st).1 !! sessionId = Some session'
    ∧ lockHolder session' = str holder
    ∧ lockGrantedAt session' = Some grantedAt
    ∧ sessions (step (JSValue:=JSValue) env LockTimeoutCheck (run trace st).1).1
        !! sessionId
      = Some (with_lock session' null None None)
    ∧ (∀ k c, clients session' !! k = Some c → readyState env (ws c) = OPEN →
         (Send (ws c) (lock_released (Some "timeout")) : Effect JSValue)
         ∈ (step env LockTimeoutCheck (run trace st).1).2)
    ∧ lockHolder (with_lock session' null None None) = null
    ∧ lockUsername (with_lock session' null None None) = None
    ∧ lockGrantedAt (with_lock session' null None None) = None
    ∧ clients (with_lock session' null None None) = clients session'.
Proof.
  intros Hall Hs Hh Hg Hne Hnz Hold.
  destruct (lock_neutral_run trace st sessionId session Hall Hs)
    as (s' & Hs' & H1 & H2 & H3 & H4).
  assert (Hex : expire (JSValue:=JSValue) env s'
     = (with_lock s' null None None,
        broadcast env (with_lock s' null None None)
          (lock_released (Some "timeout")) None)).
  { unfold expire. rewrite H1, H3, Hh, Hg. simpl.
    rewrite (bool_decide_eq_false_2 (holder = "")); [|done].
    rewrite (bool_decide_eq_true_2 (grantedAt ≠ 0)); [|done]. simpl.
    by rewrite bool_decide_eq_true_2. }
  exists s'. rewrite H1, H3. split_and!; try done.
  - unfold step, lockTimeoutCheck, with_sessions. cbn [fst sessions].
    rewrite lookup_fmap, Hs'. cbn [fmap option_fmap option_map]. by rewrite Hex.
  - intros k c Hk Ho. eapply lockTimeoutCheck_effects; [done|].
    rewrite Hex. simpl. by eapply broadcast_reaches.
Qed.

Lemma broadcast_no_store_call env session (message : ServerMsg JSValue) exclude e :
  e ∈ broadcast env session message exclude → store_call e = false.
Proof. by intros (c & -> & _)%elem_of_broadcast. Qed.

(** X14.  Which events call the store.  The handlers of client.connect,
    user.message, assistant.complete and tool.result write to it,
    sync.request reads it and the daily cleanup deletes from it; every other
    event (lock traffic, chunks, tool.execute, an unknown message, a text
    that is no message, a close, the sweep) leaves the store as it is and
    makes no call on it.  A
    sync.request leaves the store as it is, and its only call is the one read
    of the messages of an existing session. *)
Theorem store_calls_by_event env (ev : Event JSValue) st :
  (calls_store ev = false →
   db (step env ev st).1 = db st
   ∧ ∀ e, e ∈ (step env ev st).2 → store_call e = false)
  ∧ (∀ socket sessionId clientId,
       ev = Message socket (sync_request sessionId clientId) →
       db (step env ev st).1 = db st
       ∧ (∀ e, e ∈ (step env ev st).2 → store_call e = true →
               e = Query (db_getMessages sessionId)
               ∧ is_Some (sessions st !! sessionId))).
Proof.
  split.
  - intros Hev. destruct ev as [socket msg|socket| | |socket]; simpl;
      [| | |done|].
    + destruct msg as [sid cid uname|sid cid|sid cid uname|sid cid
        |sid cid uname text|sid cid delta|sid cid message
        |sid cid toolUseId toolName input|sid cid toolUseId result isError|type];
        simpl in *; try done.
      * unfold handleLockRequest.
        destruct (sessions st !! sid) as [session|];
          [|split; [done|intros e ?%elem_of_nil; done]].
        case_bool_decide;
          [split; [done|intros e; apply broadcast_no_store_call]|].
        destruct (client_of session cid); (split; [done|]).
        -- by intros e ->%list_elem_of_singleton.
        -- intros e ?%elem_of_nil; done.
      * unfold handleLockRelease.
        destruct (sessions st !! sid) as [session|];
          [|split; [done|intros e ?%elem_of_nil; done]].
        case_bool_decide; split; try done.
        -- intros e; apply broadcast_no_store_call.
        -- intros e ?%elem_of_nil; done.
      * unfold handleAssistantChunk.
        destruct (sessions st !! sid) as [session|];
          [|split; [done|intros e ?%elem_of_nil; done]].
        case_bool_decide; split; try done.
        -- intros e ?%elem_of_nil; done.
        -- intros e; apply broadcast_no_store_call.
      * unfold handleToolExecute.
        destruct (sessions st !! sid) as [session|]; split; try done.
        -- intros e; apply broadcast_no_store_call.
        -- intros e ?%elem_of_nil; done.
      * split; [done|]. intros e ?%elem_of_nil; done.
    + unfold handleClose.
      destruct (connection st !! socket) as [[sid cid]|];
        [|split; [done|intros e ?%elem_of_nil; done]].
      unfold handleClientDisconnect.
      destruct (sessions st !! sid) as [session|];
        [|split; [done|intros e ?%elem_of_nil; done]].
      destruct (clients session !! cid);
        [|split; [done|intros e ?%elem_of_nil; done]].
      simpl. case_bool_decide; simpl; (split; [done|]); intros e.
      * intros [?|?]%elem_of_app; by eapply broadcast_no_store_call.
      * apply broadcast_no_store_call.
    + split; [done|]. intros e Hin. simpl in Hin.
      apply list_elem_of_join in Hin as (l & Hin & Hl).
      apply list_elem_of_fmap in Hl as ([sid s] & -> & _). simpl in Hin.
      unfold expire in Hin.
      destruct (lockGrantedAt s) as [t|]; [|by apply elem_of_nil in Hin].
      destruct (truthy (lockHolder s) && bool_decide (t ≠ 0));
        [|by apply elem_of_nil in Hin].
      case_bool_decide; [|by apply elem_of_nil in Hin].
      simpl in Hin. by eapply broadcast_no_store_call.
    + split; [done|]. by intros e ->%list_elem_of_singleton.
  - intros socket sid cid ->. simpl. unfold handleSyncRequest.
    destruct (sessions st !! sid) as [session|]; (split; [done|]); intros e.
    + intros [->|Hin]%elem_of_cons; [by eauto|].
      by apply list_elem_of_singleton in Hin as ->.
    + by intros ->%list_elem_of_singleton.
Qed.

(** X15.  The daily cleanup is [deleteOldSessions(30)] on the store and
    touches nothing else, neither the session table nor the sockets.  A
    session that is still connected but was last active
    more than 30 days ago stays in the table with its lock, and a sync request
    then answers it with an empty history; for a session active within the 30
    days a sync request answers as before the cleanup. *)
Theorem cleanup_ignores_live_sessions env st :
  step (JSValue:=JSValue) env DailyCleanup st
  = (cleanupOldSessions env st, [Persist (db_deleteOldSessions 30)])
  ∧ sessions (cleanupOldSessions env st) = sessions st
  ∧ connection (cleanupOldSessions env st) = connection st
  ∧ (∀ socket sessionId session row,
       sessions st !! sessionId = Some session →
       Database.sessions (db st) !! sessionId = Some row →
       Database.last_activity row < now env - 2592000000 →
       ∃ participants,
         handleSyncRequest (JSValue:=JSValue) socket sessionId
           (cleanupOldSessions env st)
         = (cleanupOldSessions env st,
            [Query (db_getMessages sessionId);
             Send socket
               (sync_state sessionId [] participants
                  (lockHolder session) (lockUsername session))]))
  ∧ (∀ socket sessionId session row,
       sessions st !! sessionId = Some session →
       Database.sessions (db st) !! sessionId = Some row →
       now env - 2592000000 ≤ Database.last_activity row →
       (handleSyncRequest (JSValue:=JSValue) socket sessionId
          (cleanupOldSessions env st)).2
       = (handleSyncRequest socket sessionId st).2).
Proof.
  split_and!; try done.
  - intros socket sid session row Hs Hrow Hold.
    unfold handleSyncRequest, cleanupOldSessions. simpl. rewrite Hs.
    eexists. rewrite (deleteOldSessions_inactive (JSValue:=JSValue) _ _ _ _ _ Hrow);
      [done|unfold Database.purge_cutoff; lia].
  - intros socket sid session row Hs Hrow Hyoung.
    unfold handleSyncRequest, cleanupOldSessions. simpl. rewrite Hs.
    rewrite (deleteOldSessions_active (JSValue:=JSValue) _ _ _ _ _ Hrow);
      [done|unfold Database.purge_cutoff; lia].
Qed.

End RegistryProperties.

(** ** The conversion of a synced history *)

Section ConversionProperties.
Import Client.

Lemma filter_all {A} (P : A → Prop) `{!∀ x, Decision (P x)} (l : list A) :
  (∀ x, x ∈ l → P x) → filter P l = l.
Proof.
  induction l as [|x l IH]; intros Hl; [done|].
  rewrite filter_cons_True by (apply Hl; by left).
  f_equal. apply IH. intros y Hy. apply Hl. by right.
Qed.

Lemma validate_message_kept out prev blocks :
  last out = Some prev → role prev = assistant →
  filter (has_matching_tool_use (tool_use_ids (content prev))) blocks ≠ [] →
  validate_message out
    {| role := user;
       content :=
         Blocks (filter (λ b, negb (is_tool_result b)) blocks
                 ++ filter (has_matching_tool_use (tool_use_ids (content prev)))
                      blocks) |}
  = out ++ [{| role := user;
               content :=
                 Blocks (filter (λ b, negb (is_tool_result b)) blocks
                         ++ filter (has_matching_tool_use
                                      (tool_use_ids (content prev))) blocks) |}].
Proof.
  intros Hlast Hrole Hvalid.
  set (others := filter (λ b, negb (is_tool_result b)) blocks).
  set (valid := filter _ blocks) in *.
  assert (Hv : filter (has_matching_tool_use (tool_use_ids (content prev)))
                 (others ++ valid) = valid).
  { rewrite filter_app, (filter_none _ others), (filter_all _ valid); [done| |].
    - by intros b [? _]%list_elem_of_filter.
    - intros b [Hb _]%list_elem_of_filter Hm.
      apply matching_is_tool_result in Hm. by destruct (is_tool_result b). }
  assert (Ho : filter (λ b, negb (is_tool_result b)) (others ++ valid) = others).
  { rewrite filter_app, (filter_all _ others), (filter_none _ valid).
    - by rewrite app_nil_r.
    - intros b [Hm%matching_is_tool_result _]%list_elem_of_filter Hn.
      by destruct (is_tool_result b).
    - by intros b [? _]%list_elem_of_filter. }
  rewrite validate_message_carrier.
  - rewrite Hlast, bool_decide_eq_true_2 by done. simpl.
    rewrite Hv, Ho. by rewrite bool_decide_eq_false_2.
  - apply existsb_tool_result_filter. intros Hnone. apply Hvalid.
    rewrite <-Hv. rewrite <-(filter_matching_tool_results _ (others ++ valid)).
    by rewrite Hnone.
Qed.

Lemma validate_message_length out m :
  (length (validate_message out m) ≤ S (length out))%nat.
Proof.
  destruct (carries_tool_result m) eqn:Hc.
  - destruct m as [[] [s|blocks]]; try done.
    rewrite validate_message_carrier by done.
    destruct (last out); [|simpl; lia].
    case_bool_decide; [|simpl; lia]. simpl.
    case_bool_decide; rewrite ?length_app; simpl; lia.
  - rewrite validate_message_other, length_app by done. simpl. lia.
Qed.

Lemma validate_message_has_content out m :
  Forall (λ x, has_content x) out → has_content m →
  Forall (λ x, has_content x) (validate_message out m).
Proof.
  intros Hout Hm. destruct (carries_tool_result m) eqn:Hc.
  - destruct m as [[] [s|blocks]]; try done.
    rewrite validate_message_carrier by done.
    destruct (last out) as [prev|]; [|done].
    case_bool_decide; [|done]. simpl. case_bool_decide as Hv; [done|].
    apply Forall_app. split; [done|]. constructor; [|done].
    unfold has_content. simpl. apply bool_decide_pack.
    rewrite length_app. apply length_pos_nonempty in Hv. lia.
  - rewrite validate_message_other by done.
    apply Forall_app. split; [done|]. by constructor.
Qed.

Lemma validateToolMessages_length ms :
  (length (validateToolMessages ms) ≤ length ms)%nat.
Proof.
  induction ms as [|m ms IH] using rev_ind; [done|].
  rewrite validateToolMessages_snoc, length_app. simpl.
  pose proof (validate_message_length (validateToolMessages ms) m). lia.
Qed.

Lemma validateToolMessages_fixed ms :
  validateToolMessages (validateToolMessages ms) = validateToolMessages ms.
Proof.
  induction ms as [|m ms IH] using rev_ind; [done|].
  rewrite (validateToolMessages_snoc ms).
  set (out := validateToolMessages ms) in *.
  destruct (carries_tool_result m) eqn:Hc.
  - destruct m as [[] [s|blocks]]; try done.
    rewrite validate_message_carrier by done.
    destruct (last out) as [prev|] eqn:Hlast; [|done].
    case_bool_decide as Hrole; [|done]. simpl.
    case_bool_decide as Hv; [done|].
    rewrite validateToolMessages_snoc, IH. by apply validate_message_kept.
  - rewrite validate_message_other by done.
    by rewrite validateToolMessages_snoc, IH, validate_message_other.
Qed.

(** X16.  [validateToolMessages] repairs in one pass: validating a validated
    conversation changes nothing.  It never lengthens a conversation, and it
    returns a conversation without tool results unchanged. *)
Theorem validateToolMessages_idempotent ms :
  validateToolMessages (validateToolMessages ms) = validateToolMessages ms
  ∧ (length (validateToolMessages ms) ≤ length ms)%nat
  ∧ (Forall (λ m, carries_tool_result m = false) ms →
     validateToolMessages ms = ms).
Proof.
  split_and!.
  - apply validateToolMessages_fixed.
  - apply validateToolMessages_length.
  - induction ms as [|m ms IH] using rev_ind; [done|].
    intros [Hms Hm]%Forall_app. apply Forall_cons in Hm as [Hm _].
    by rewrite validateToolMessages_snoc, validate_message_other, IH.
Qed.

(** X17.  [convertToAnthropicFormat] answers only messages with content (a
    non-empty string or a non-empty array of blocks), never more than it was
    given, already valid for validateToolMessages; and a synced message whose
    content is null or of another type, the empty string, or the empty array
    is dropped. *)
Theorem convertToAnthropicFormat_content (messages : list SyncedMessage) :
  Forall (λ m, has_content m) (convertToAnthropicFormat messages)
  ∧ (length (convertToAnthropicFormat messages) ≤ length messages)%nat
  ∧ validateToolMessages (convertToAnthropicFormat messages)
    = convertToAnthropicFormat messages
  ∧ (∀ r, convertToAnthropicFormat
            (messages ++ [{| synced_role := r; synced_content := synced_other |}])
          = convertToAnthropicFormat messages)
  ∧ (∀ r, convertToAnthropicFormat
            (messages ++ [{| synced_role := r; synced_content := synced_string "" |}])
          = convertToAnthropicFormat messages)
  ∧ (∀ r, convertToAnthropicFormat
            (messages ++ [{| synced_role := r; synced_content := synced_array [] |}])
          = convertToAnthropicFormat messages).
Proof.
  unfold convertToAnthropicFormat. split_and!.
  - set (l := filter _ _).
    assert (Hl : Forall (λ m, has_content m) l).
    { apply Forall_forall. by intros m [? _]%list_elem_of_filter. }
    clearbody l. induction l as [|m l IH] using rev_ind; [done|].
    apply Forall_app in Hl as [Hl Hm]. apply Forall_cons in Hm as [Hm _].
    rewrite validateToolMessages_snoc. apply validate_message_has_content; auto.
  - etrans; [apply validateToolMessages_length|].
    etrans; [apply (length_filter (λ m, has_content m))|].
    by rewrite length_fmap.
  - apply validateToolMessages_fixed.
  - intros r. by rewrite fmap_app, filter_app, app_nil_r.
  - intros r. by rewrite fmap_app, filter_app, app_nil_r.
  - intros r. by rewrite fmap_app, filter_app, app_nil_r.
Qed.

End ConversionProperties.

(** ** The connection and the terminal client *)

Section ConnectionProperties.
Import Connection.

Lemma backoff_range (n : nat) : (1 ≤ n)%nat → 2000 ≤ backoff n ≤ 30000.
Proof.
  intros Hn. unfold backoff, reconnectDelay.
  assert (1 ≤ 2 ^ (Z.of_nat n - 1)) by (apply Z.pow_le_mono_r with (b := 0); lia).
  lia.
Qed.

(** X18.  The delay before the n-th reconnection attempt (n counted from 1)
    lies between 2 and 30 seconds, never decreases with n, doubles from 2
    seconds for the first four attempts and is 30 seconds from the fifth
    on. *)
Theorem backoff_bounds (n : nat) :
  (1 ≤ n)%nat →
  2000 ≤ backoff n ≤ 30000
  ∧ (∀ m : nat, (n ≤ m)%nat → backoff n ≤ backoff m)
  ∧ ((n ≤ 4)%nat → backoff n = 2000 * 2 ^ (Z.of_nat n - 1))
  ∧ ((5 ≤ n)%nat → backoff n = 30000).
Proof.
  intros Hn. split; [by apply backoff_range|]. split_and!.
  - intros m Hm. unfold backoff, reconnectDelay.
    assert (2 ^ (Z.of_nat n - 1) ≤ 2 ^ (Z.of_nat m - 1))
      by (apply Z.pow_le_mono_r; lia).
    lia.
  - intros H4. unfold backoff, reconnectDelay.
    assert (2 ^ (Z.of_nat n - 1) ≤ 2 ^ 3) by (apply Z.pow_le_mono_r; lia).
    lia.
  - intros H5. unfold backoff, reconnectDelay.
    assert (2 ^ 4 ≤ 2 ^ (Z.of_nat n - 1)) by (apply Z.pow_le_mono_r; lia).
    lia.
Qed.

Lemma step_reconnections ev st :
  ev ≠ Opened →
  (reconnectAttempts st ≤ maxReconnectAttempts)%nat →
  (length (filter is_reconnection (step ev st).2) + reconnectAttempts st
   ≤ reconnectAttempts (step ev st).1)%nat
  ∧ (reconnectAttempts (step ev st).1 ≤ maxReconnectAttempts)%nat
  ∧ ∀ d, ConnectAfter d ∈ (step ev st).2 → 2000 ≤ d ≤ 30000.
Proof.
  intros Hev Hmax. destruct ev; try done; simpl.
  - split_and!; [lia|done|]. by intros d ?%elem_of_nil.
  - case_bool_decide; simpl.
    + split_and!; [lia|unfold maxReconnectAttempts in *; lia|].
      intros d Hd. repeat (apply elem_of_cons in Hd as [Hd|Hd]; [try done|]).
      * injection Hd as ->. apply backoff_range. lia.
      * by apply elem_of_nil in Hd.
    + split_and!; [lia|done|].
      intros d Hd. repeat (apply elem_of_cons in Hd as [Hd|Hd]; [done|]).
      by apply elem_of_nil in Hd.
  - destruct (ws st); simpl.
    + split_and!; [lia|done|].
      intros d Hd. apply elem_of_cons in Hd as [Hd|Hd]; [done|].
      by apply elem_of_nil in Hd.
    + split_and!; [lia|done|]. by intros d ?%elem_of_nil.
Qed.

Lemma run_reconnections events : ∀ st,
  Forall (λ ev, ev ≠ Opened) events →
  (reconnectAttempts st ≤ maxReconnectAttempts)%nat →
  (length (filter is_reconnection (run events st).2) + reconnectAttempts st
   ≤ reconnectAttempts (run events st).1)%nat
  ∧ (reconnectAttempts (run events st).1 ≤ maxReconnectAttempts)%nat
  ∧ ∀ d, ConnectAfter d ∈ (run events st).2 → 2000 ≤ d ≤ 30000.
Proof.
  induction events as [|ev events IH]; intros st Hev Hmax.
  - simpl. split_and!; [lia|done|]. by intros d ?%elem_of_nil.
  - apply Forall_cons in Hev as [Hev Hevs]. simpl.
    destruct (step_reconnections ev st Hev Hmax) as (H1 & H2 & H3).
    destruct (step ev st) as [st' effects]. simpl in *.
    destruct (IH st' Hevs H2) as (G1 & G2 & G3).
    destruct (run events st') as [st'' effects']. simpl in *.
    rewrite filter_app, length_app. split_and!; [lia|done|].
    intros d [?|?]%elem_of_app; eauto.
Qed.

(** X19.  As long as no socket opens, a connection schedules at most as many
    reconnections as its counter leaves to the maximum of 10, each after 2 to
    30 seconds; after disconnect() on a live socket it schedules none and the
    socket is forgotten; an open resets the counter to 0. *)
Theorem reconnection_is_bounded (events : list Event) (st : State) :
  Forall (λ ev, ev ≠ Opened) events →
  (reconnectAttempts st ≤ maxReconnectAttempts)%nat →
  (length (filter is_reconnection (run events st).2)
   ≤ maxReconnectAttempts - reconnectAttempts st)%nat
  ∧ (∀ d, ConnectAfter d ∈ (run events st).2 → 2000 ≤ d ≤ 30000)
  ∧ (is_Some (ws st) →
     filter is_reconnection (run (Disconnect :: events) st).2 = []
     ∧ ws (step Disconnect st).1 = None)
  ∧ reconnectAttempts (step Opened st).1 = 0%nat.
Proof.
  intros Hev Hmax.
  destruct (run_reconnections events st Hev Hmax) as (H1 & H2 & H3).
  split_and!; [lia|done| |done].
  intros [r Hr]. simpl. rewrite Hr. simpl.
  destruct (run_reconnections events
              {| ws := None; reconnectAttempts := maxReconnectAttempts |} Hev)
    as (G1 & G2 & _); [done|].
  destruct (run events {| ws := None; reconnectAttempts := maxReconnectAttempts |})
    as [st' effects]. simpl in *.
  split; [|done]. rewrite filter_cons_False by (simpl; tauto).
  apply length_zero_iff_nil. lia.
Qed.

End ConnectionProperties.

Section TuiProperties.
Import Tui.

Lemma releaseLock_no_turn online st a :
  a ∈ (releaseLock online st).2 → starts_turn a = false.
Proof.
  unfold releaseLock. destruct (hasLock st), online; simpl;
    intros Ha; repeat (apply elem_of_cons in Ha as [->|Ha]; [done|]);
    by apply elem_of_nil in Ha.
Qed.

Lemma handleCommand_no_turn online cmd st a :
  a ∈ (handleCommand online cmd st).2 → starts_turn a = false.
Proof.
  unfold handleCommand. repeat case_bool_decide.
  - unfold requestLock. destruct online; simpl; intros Ha;
      repeat (apply elem_of_cons in Ha as [->|Ha]; [done|]);
      by apply elem_of_nil in Ha.
  - pose proof (releaseLock_no_turn online st a).
    by destruct (releaseLock online st) as [[?|] ?].
  - simpl. intros Ha. repeat (apply elem_of_cons in Ha as [->|Ha]; [done|]).
    by apply elem_of_nil in Ha.
  - pose proof (releaseLock_no_turn online st a).
    destruct (releaseLock online st) as [[?|] ?]; simpl in *; [|done].
    intros [?|Ha]%elem_of_app; [auto|].
    repeat (apply elem_of_cons in Ha as [->|Ha]; [done|]).
    by apply elem_of_nil in Ha.
  - simpl. intros Ha. repeat (apply elem_of_cons in Ha as [->|Ha]; [done|]).
    by apply elem_of_nil in Ha.
  - simpl. intros Ha. repeat (apply elem_of_cons in Ha as [->|Ha]; [done|]).
    by apply elem_of_nil in Ha.
Qed.



Lemma handleUserMessage_turn online line st a :
  a ∈ (handleUserMessage online line st).2 → starts_turn a = true →
  online = true ∧ a = Send (user_message line)
  ∧ hasLock (handleUserMessage online line st).1 = hasLock st.
Proof.
  unfold handleUserMessage. destruct online.
  - simpl. intros Ha Hturn. split; [done|].
    repeat (apply elem_of_cons in Ha as [->|Ha]; [done|]).
    by apply elem_of_nil in Ha.
  - pose proof (releaseLock_no_turn false st a) as Hno.
    destruct (releaseLock false st) as [released actions]. simpl in *.
    intros [->|Ha]%elem_of_cons Hturn; [done|].
    rewrite Hno in Hturn; done.
Qed.

(** X20.  The client sends a user.message to the relay only while the
    connection is up and only when it believes it holds the lock: it had the
    lock already, or the event is the grant of the lock to itself; and it
    still has the lock flag afterwards. *)
Theorem user_message_needs_lock online input st a :
  a ∈ (step online input st).2 →
  starts_turn a = true →
  online = true
  ∧ (hasLock st = true ∨ ∃ uname, input = LockGranted (clientId st) uname)
  ∧ hasLock (step online input st).1 = true.
Proof.
  destruct input as [line|granted uname| |holder|messages holder|uname text|c];
    simpl.
  - destruct (String.prefix "/" line).
    + intros Ha Hturn. by rewrite (handleCommand_no_turn _ _ _ _ Ha) in Hturn.
    + destruct (hasLock st) eqn:Hl; simpl.
      * intros Ha Hturn.
        destruct (handleUserMessage_turn _ _ _ _ Ha Hturn) as (-> & _ & Hsame).
        rewrite Hsame. eauto.
      * unfold requestLock. destruct online; simpl; intros Ha Hturn;
          repeat (apply elem_of_cons in Ha as [->|Ha]; [done|]);
          by apply elem_of_nil in Ha.
  - case_bool_decide as Hme; simpl.
    + assert (Hshown : a ∈ [Ui (setLockState true);
                  Ui (showStatus "You have the lock - type your message")] →
                starts_turn a = true → False).
      { intros Ha Hturn.
        repeat (apply elem_of_cons in Ha as [->|Ha]; [done|]).
        by apply elem_of_nil in Ha. }
      destruct (pendingInput st) as [line|];
        [|intros Ha Hturn; destruct (Hshown Ha Hturn)].
      case_bool_decide; [intros Ha Hturn; destruct (Hshown Ha Hturn)|].
      pose proof (handleUserMessage_turn online line
                    (with_pendingInput (with_hasLock st true) None) a) as Hum.
      destruct (handleUserMessage online line _) as [st'' actions]. simpl in *.
      intros Ha Hturn.
      repeat (apply elem_of_cons in Ha as [->|Ha]; [done|]).
      destruct (Hum Ha Hturn) as (-> & _ & ->). subst. eauto.
    + intros Ha Hturn. apply elem_of_cons in Ha as [->|Ha]; [done|].
      by apply elem_of_nil in Ha.
  - intros Ha Hturn. repeat (apply elem_of_cons in Ha as [->|Ha]; [done|]).
    by apply elem_of_nil in Ha.
  - intros Ha Hturn. repeat (apply elem_of_cons in Ha as [->|Ha]; [done|]).
    by apply elem_of_nil in Ha.
  - destruct (initialSyncDone st); simpl; intros Ha Hturn;
      repeat (apply elem_of_cons in Ha as [->|Ha]; [done|]);
      by apply elem_of_nil in Ha.
  - intros Ha Hturn. repeat (apply elem_of_cons in Ha as [->|Ha]; [done|]).
    by apply elem_of_nil in Ha.
  - intros Ha Hturn. repeat (apply elem_of_cons in Ha as [->|Ha]; [done|]).
    by apply elem_of_nil in Ha.
Qed.

Lemma waiting_step entry st :
  hasLock st = false →
  keeps_waiting (clientId st) entry = true →
  hasLock (step entry.1 entry.2 st).1 = false
  ∧ clientId (step entry.1 entry.2 st).1 = clientId st
  ∧ username (step entry.1 entry.2 st).1 = username st
  ∧ pendingInput (step entry.1 entry.2 st).1
    = last_submitted [entry] (pendingInput st)
  ∧ ∀ a, a ∈ (step entry.1 entry.2 st).2 → starts_turn a = false.
Proof.
  intros Hl Hw. destruct entry as [online input].
  destruct input as [line|granted uname| |holder|messages holder|uname text|c];
    simpl in *.
  - apply andb_prop in Hw as [-> Hmsg]. unfold is_message in Hmsg.
    apply andb_prop in Hmsg as [Hcmd _].
    destruct (String.prefix "/" line); [done|]. rewrite Hl. simpl.
    split_and!; try done. intros a Ha.
    repeat (apply elem_of_cons in Ha as [->|Ha]; [done|]).
    by apply elem_of_nil in Ha.
  - apply negb_true_iff, bool_decide_eq_false_1 in Hw.
    rewrite bool_decide_eq_false_2 by done. split_and!; try done.
    intros a Ha. repeat (apply elem_of_cons in Ha as [->|Ha]; [done|]).
    by apply elem_of_nil in Ha.
  - split_and!; try done.
    intros a Ha. repeat (apply elem_of_cons in Ha as [->|Ha]; [done|]).
    by apply elem_of_nil in Ha.
  - split_and!; try done.
    intros a Ha. repeat (apply elem_of_cons in Ha as [->|Ha]; [done|]).
    by apply elem_of_nil in Ha.
  - destruct (initialSyncDone st); simpl; (split_and!; try done);
      intros a Ha; repeat (apply elem_of_cons in Ha as [->|Ha]; [done|]);
      by apply elem_of_nil in Ha.
  - split_and!; try done.
    intros a Ha. repeat (apply elem_of_cons in Ha as [->|Ha]; [done|]).
    by apply elem_of_nil in Ha.
  - split_and!; try done.
    intros a Ha. repeat (apply elem_of_cons in Ha as [->|Ha]; [done|]).
    by apply elem_of_nil in Ha.
Qed.

Lemma waiting_run inputs : ∀ st,
  hasLock st = false →
  forallb (keeps_waiting (clientId st)) inputs = true →
  hasLock (run inputs st).1 = false
  ∧ clientId (run inputs st).1 = clientId st
  ∧ username (run inputs st).1 = username st
  ∧ pendingInput (run inputs st).1 = last_submitted inputs (pendingInput st)
  ∧ ∀ a, a ∈ (run inputs st).2 → starts_turn a = false.
Proof.
  induction inputs as [|[online input] inputs IH]; intros st Hl Hw.
  - simpl. split_and!; try done. by intros a ?%elem_of_nil.
  - simpl in Hw. apply andb_prop in Hw as [Hw Hws].
    destruct (waiting_step (online, input) st Hl Hw) as (H1 & H2 & H3 & H4 & H5).
    simpl in *. destruct (step online input st) as [st' actions]. simpl in *.
    rewrite <-H2 in Hws. destruct (IH st' H1 Hws) as (G1 & G2 & G3 & G4 & G5).
    destruct (run inputs st') as [st'' actions']. simpl in *.
    split_and!; try congruence.
    + rewrite G4, H4. by destruct input.
    + intros a [?|?]%elem_of_app; eauto.
Qed.

(** X21.  While the client waits for the lock (it submits lines that are
    messages, is denied, sees the lock go to others and be released, receives
    syncs and messages of others), it sends no user.message and does not get
    the lock flag; when the lock is then granted to it, it sends the line
    submitted last, and that line only, adds it to its conversation, clears
    the pending input and calls the model on the conversation so extended. *)
Theorem pending_input_sent_on_grant inputs st uname line :
  hasLock st = false →
  forallb (keeps_waiting (clientId st)) inputs = true →
  last_submitted inputs (pendingInput st) = Some line →
  line ≠ "" →
  (∀ a, a ∈ (run inputs st).2 → starts_turn a = false)
  ∧ hasLock (run inputs st).1 = false
  ∧ step true (LockGranted (clientId st) uname) (run inputs st).1
    = (with_conversation
         (with_pendingInput (with_hasLock (run inputs st).1 true) None)
         (conversation (run inputs st).1
            ++ [{| Client.role := user; Client.content := Client.Text line |}]),
       [Ui (setLockState true);
        Ui (showStatus "You have the lock - type your message");
        Send (user_message line);
        Ui (appendUserMessage (username st) line);
        Ui showThinking;
        CallModel
          (conversation (run inputs st).1
             ++ [{| Client.role := user; Client.content := Client.Text line |}])]).
Proof.
  intros Hl Hw Hlast Hline.
  destruct (waiting_run inputs st Hl Hw) as (H1 & H2 & H3 & H4 & H5).
  split_and!; [done..|]. simpl.
  rewrite H2, bool_decide_eq_true_2 by done.
  rewrite H4, Hlast, bool_decide_eq_false_2 by done.
  unfold handleUserMessage. simpl. by rewrite H3.
Qed.




End TuiProperties.

(** ** The calls of the tool executor *)

Section ExecutorCalls.
Import Executor.

Lemma writeFile_calls cwd projectRoot fs p text :
  (writeFile cwd projectRoot fs p text).1
  = call_mkdir (dirname (resolve cwd projectRoot p))
      :: match fs_mkdir fs (dirname (resolve cwd projectRoot p)), text with
         | None, Some t => [call_writeFile (resolve cwd projectRoot p) t]
         | _, _ => []
         end.
Proof.
  unfold writeFile. destruct (fs_mkdir fs _); [done|]. by destruct text.
Qed.

(** X23.  [execute] makes at most two calls on the file system; no tool but
    write_file makes a call that changes it; and a tool name other than the
    four known ones makes no call at all and fails. *)
Theorem read_only_tools_never_write cwd projectRoot fs toolName input :
  (length (execute cwd projectRoot fs toolName input).1 ≤ 2)%nat
  ∧ (toolName ≠ "write_file" →
     ∀ call, call ∈ (execute cwd projectRoot fs toolName input).1 →
             writes call = false)
  ∧ (toolName ≠ "read_file" → toolName ≠ "write_file" →
     toolName ≠ "list_directory" → toolName ≠ "search_files" →
     (execute cwd projectRoot fs toolName input).1 = []
     ∧ success (execute cwd projectRoot fs toolName input).2 = false).
Proof.
  unfold execute. destruct (path_refused cwd projectRoot input).
  { split_and!; try done. simpl. lia. by intros _ call ?%elem_of_nil. }
  repeat case_bool_decide; subst.
  - split_and!; try done.
    + destruct (input_path input); simpl; lia.
    + intros _ call. destruct (input_path input); simpl.
      * by intros ->%list_elem_of_singleton.
      * by intros ?%elem_of_nil.
  - split_and!; try done.
    destruct (input_path input); [|simpl; lia].
    rewrite writeFile_calls. simpl.
    destruct (fs_mkdir fs _), (input_content input); simpl; lia.
  - split_and!; try done.
    + destruct (input_path input); simpl; lia.
    + intros _ call. destruct (input_path input); simpl.
      * by intros ->%list_elem_of_singleton.
      * by intros ?%elem_of_nil.
  - split_and!; try done.
    + destruct (input_pattern input); simpl; lia.
    + intros _ call. destruct (input_pattern input); simpl.
      * by intros ->%list_elem_of_singleton.
      * by intros ?%elem_of_nil.
  - split_and!; try done.
    + simpl. lia.
    + by intros _ call ?%elem_of_nil.
Qed.

(** X24.  [writeFile] first creates the parent directory of the resolved path
    and writes the file only when that succeeded and a content was given.  It
    succeeds exactly when both calls succeeded; it then reports the path as
    given and the length of the content as bytes written; every failure is
    reported as Error writing file. *)
Theorem write_file_creates_parent_first cwd projectRoot fs p text :
  (writeFile cwd projectRoot fs p text).1
  = call_mkdir (dirname (resolve cwd projectRoot p))
      :: match fs_mkdir fs (dirname (resolve cwd projectRoot p)), text with
         | None, Some t => [call_writeFile (resolve cwd projectRoot p) t]
         | _, _ => []
         end
  ∧ (success (writeFile cwd projectRoot fs p text).2 = true ↔
     ∃ t, text = Some t
          ∧ fs_mkdir fs (dirname (resolve cwd projectRoot p)) = None
          ∧ fs_writeFile fs (resolve cwd projectRoot p) t = None)
  ∧ (∀ t, text = Some t →
       success (writeFile cwd projectRoot fs p text).2 = true →
       bytesWritten (writeFile cwd projectRoot fs p text).2
       = Some (String.length t)
       ∧ path (writeFile cwd projectRoot fs p text).2 = Some p
       ∧ error (writeFile cwd projectRoot fs p text).2 = None)
  ∧ (success (writeFile cwd projectRoot fs p text).2 = false →
     ∃ e, error (writeFile cwd projectRoot fs p text).2
          = Some ("Error writing file: " +:+ e)).
Proof.
  split; [apply writeFile_calls|]. unfold writeFile.
  destruct (fs_mkdir fs _) as [e|] eqn:Hmk; simpl.
  - split_and!; try done.
    + split; [done|]. by intros (t & _ & ? & _).
    + eauto.
  - destruct text as [t|]; simpl.
    + destruct (fs_writeFile fs _ t) as [e|] eqn:Hw; simpl.
      * split_and!; try done.
        -- split; [done|]. intros (t' & [= <-] & _ & ?). congruence.
        -- eauto.
      * split_and!; try done.
        -- split; [|done]. intros _. eauto.
        -- by intros t' [= <-] _.
    + split_and!; try done.
      * split; [done|]. by intros (t & ? & _).
      * eauto.
Qed.

(** X25.  Whatever read_file and list_directory touch for a non-empty path is
    the resolved path and has the project root as a prefix of its text; of
    the calls of write_file this holds for the write, the other call being
    the creation of the parent directory of the resolved path. *)
Theorem checked_paths_have_root_prefix cwd projectRoot fs toolName p text
    pattern call :
  p ≠ "" →
  call ∈ (execute cwd projectRoot fs toolName
            {| input_path := Some p; input_content := text;
               input_pattern := pattern |}).1 →
  (toolName = "read_file" ∨ toolName = "list_directory" →
   String.prefix projectRoot (touched call) = true
   ∧ touched call = resolve cwd projectRoot p)
  ∧ (toolName = "write_file" →
     call = call_mkdir (dirname (resolve cwd projectRoot p))
     ∨ String.prefix projectRoot (touched call) = true
       ∧ touched call = resolve cwd projectRoot p).
Proof.
  intros Hp. unfold execute, path_refused. cbn [input_path input_content
    input_pattern].
  rewrite bool_decide_eq_false_2 by done.
  destruct (String.prefix projectRoot (resolve cwd projectRoot p)) eqn:Hpre;
    cbn [negb]; [|by intros ?%elem_of_nil].
  intros Hcall. split.
  - intros [->| ->].
    + rewrite bool_decide_eq_true_2 in Hcall by done.
      unfold readFile in Hcall. cbn [fst] in Hcall.
      by apply list_elem_of_singleton in Hcall as ->.
    + repeat (rewrite bool_decide_eq_false_2 in Hcall by done).
      rewrite bool_decide_eq_true_2 in Hcall by done.
      unfold listDirectory in Hcall. cbn [fst] in Hcall.
      by apply list_elem_of_singleton in Hcall as ->.
  - intros ->. rewrite bool_decide_eq_false_2 in Hcall by done.
    rewrite bool_decide_eq_true_2 in Hcall by done.
    rewrite writeFile_calls in Hcall.
    apply elem_of_cons in Hcall as [->|Hcall]; [by left|]. right.
    destruct (fs_mkdir fs _); [by apply elem_of_nil in Hcall|].
    destruct text; [|by apply elem_of_nil in Hcall].
    by apply list_elem_of_singleton in Hcall as ->.
Qed.

End ExecutorCalls.

(** ** The scenarios, run *)

Import Relay Scenario.

(** C1, the claim as stated fails: a lock request that names a client the
    session does not have is granted. *)
Lemma lock_granted_to_stranger :
  ¬ lock_invariant (run [alice_joins; stranger_requests] initial).1.
Proof.
  intros Hinv.
  destruct (sessions (run [alice_joins; stranger_requests] initial).1 !! "S1")
    as [session|] eqn:Hs; [|by vm_compute in Hs].
  pose proof (Hinv "S1" session Hs) as Hc.
  vm_compute in Hs. injection Hs as <-.
  destruct Hc as [c Hc]; [done|]. by vm_compute in Hc.
Qed.

Lemma lock_holder_invariant_scenario :
  requests_from_participants
    [alice_joins; bob_joins; alice_requests; bob_requests; check_at 40000;
     alice_leaves] initial = true
  ∧ lock_invariant
      (run [alice_joins; bob_joins; alice_requests; bob_requests; check_at 40000;
            alice_leaves] initial).1.
Proof.
  split; [by vm_compute|].
  apply (proj1 (lock_holder_invariant
                  [alice_joins; bob_joins; alice_requests; bob_requests;
                   check_at 40000; alice_leaves] eq_refl)
           _ []).
  by rewrite app_nil_r.
Defined.

(** C3, the claim as stated fails.  After a tool.result was stored and
    broadcast, the answer to a sync request carries no entry.  And on a
    session whose row the daily cleanup has removed from the store, the
    user.message of the lock holder is not written: the store throws, nothing
    is broadcast and the sender is answered with an error; so is a
    tool.result whose [clientId] is null. *)
Lemma tool_result_absent_from_sync :
  (run [alice_joins; alice_reports_tool] initial).2
  = [Persist (db_createSession "S1"); Send 1%nat (connected "alice" "S1");
     Persist (db_saveToolResult "S1" "toolu_01" "{}" (str "alice"));
     Send 1%nat (tool_result_broadcast "toolu_01" "{}" false)]
  ∧ (step (env_at 5000) (Message 1%nat (sync_request "S1" (str "alice")))
       (run [alice_joins; alice_reports_tool] initial).1).2
    = [Query (db_getMessages "S1");
       Send 1%nat
         (sync_state "S1" []
            [{| p_clientId := "alice"; p_username := "Alice" |}] null None)]
  ∧ (run [alice_requests_late; alice_says_late] alice_stale).2
    = [Send 1%nat (lock_granted (str "alice") "Alice");
       Send 2%nat (lock_granted (str "alice") "Alice");
       Failed
         (db_saveMessage "S1"
            {| Database.nm_role := user;
               Database.nm_content := CString "anyone there?";
               Database.nm_author_username := Some "Alice" |});
       Send 1%nat (error "Internal server error")]
  ∧ Database.messages
      (db (run [alice_requests_late; alice_says_late] alice_stale).1) = []
  ∧ step null_reports_tool.1 null_reports_tool.2 alice_holds
    = (alice_holds,
       [Failed (db_saveToolResult "S1" "toolu_01" "{}" null);
        Send 3%nat (error "Internal server error")]).
Proof. by vm_compute. Qed.

Lemma durable_write_scenario :
  ∃ sends,
    (handleMessage (env_at 3000) 1%nat
       (user_message "S1" (str "alice") "Alice" "hello") alice_holds).2
    = Persist
        (db_saveMessage "S1"
           {| Database.nm_role := user;
              Database.nm_content := CString "hello";
              Database.nm_author_username := Some "Alice" |})
        :: sends.
Proof.
  edestruct (durable_write_precedes_broadcast (env_at 3000) alice_holds "S1"
               (str "alice")) as (Huser & _); [vm_compute; reflexivity|].
  pose proof (Huser 1%nat "Alice" "hello" eq_refl) as Hboth.
  cbv zeta in Hboth. destruct Hboth as [Hok _].
  destruct Hok as (sends & Heq & _); [eexists; vm_compute; reflexivity|].
  exists sends. exact Heq.
Defined.

(** C4.  The claim fails on the code: the check of the lock holder compares
    [session.lockHolder] with [msg.clientId], and a free lock is [null].  In
    session S1, where Alice and Bob are and nobody holds the lock, a
    user.message whose [clientId] is null is not dropped: it is written to the
    store and broadcast to Alice and Bob. *)
Theorem null_sender_is_accepted :
  (lockHolder <$> sessions (run [alice_joins; bob_joins] initial).1 !! "S1")
  = Some null
  ∧ (session ← sessions (run [alice_joins; bob_joins] initial).1 !! "S1";
     client_of session null) = None
  ∧ (step null_says_hi.1 null_says_hi.2 (run [alice_joins; bob_joins] initial).1).2
    = [Persist
         (db_saveMessage "S1"
            {| Database.nm_role := user;
               Database.nm_content := CString "hi";
               Database.nm_author_username := Some "Mallory" |});
       Send 1%nat (user_message_broadcast "Mallory" "hi" 3000);
       Send 2%nat (user_message_broadcast "Mallory" "hi" 3000)]
  ∧ Database.messages
      (db (step null_says_hi.1 null_says_hi.2
             (run [alice_joins; bob_joins] initial).1).1)
    = [{| Database.id := "msg_3000_k3x9q"; Database.session_id := "S1";
          Database.role := user; Database.content := "hi";
          Database.author_username := Some "Mallory";
          Database.timestamp := 3000 |}].
Proof. by vm_compute. Qed.

Lemma non_holder_dropped_scenario :
  handleMessage (env_at 5000) 2%nat (user_message "S1" (str "bob") "Bob" "hi")
    alice_holds
  = (alice_holds, []).
Proof.
  refine (proj1 (non_holder_dropped (env_at 5000) alice_holds "S1" (str "bob") _ _ _)
            2%nat "Bob" "hi").
  - vm_compute. reflexivity.
  - vm_compute. congruence.
Defined.

(** C5, the claim as stated fails: while Alice holds the lock, a lock.request
    that names a client the session does not have is not answered at all.
    And on a free lock, a lock.request whose [clientId] is null is announced
    as granted and leaves the lock free. *)
Lemma lock_request_unanswered :
  (lockHolder <$> sessions alice_holds !! "S1") = Some (str "alice")
  ∧ step stranger_requests.1 stranger_requests.2 alice_holds = (alice_holds, [])
  ∧ (lockHolder <$> sessions (run [alice_joins; bob_joins] initial).1 !! "S1")
    = Some null
  ∧ (step null_requests.1 null_requests.2 (run [alice_joins; bob_joins] initial).1).2
    = [Send 1%nat (lock_granted null "Mallory");
       Send 2%nat (lock_granted null "Mallory")]
  ∧ (lockHolder
       <$> sessions (step null_requests.1 null_requests.2
                       (run [alice_joins; bob_joins] initial).1).1 !! "S1")
    = Some null.
Proof. by vm_compute. Qed.

Lemma lock_denied_scenario :
  handleLockRequest (JSValue:=string) (env_at 2500) "S1" (str "bob") "Bob" alice_holds
  = (alice_holds, [Send 2%nat (lock_denied (Some "Alice") "lock_held")]).
Proof.
  edestruct (lock_request_grants_or_denies (JSValue:=string) (env_at 2500)
               alice_holds "S1" (str "bob") "Bob") as [_ Hdeny];
    [vm_compute; reflexivity|].
  destruct Hdeny as [Hdenied _]; [by vm_compute|by vm_compute|].
  rewrite (Hdenied {| clientId := "bob"; username := "Bob"; ws := 2%nat;
                      connectedAt := 1500 |}); [by vm_compute|by vm_compute].
Defined.

(** C6.  The claim fails on the code: the sweep tests the holder for
    truthiness, the request handler tests it against null.  A lock.request
    whose [clientId] is the empty string is granted; the lock is then held
    (the request of Bob is denied), and a sweep made long after the timeout
    leaves it held, with nothing sent. *)
Theorem sweep_skips_empty_holder :
  (step nameless_requests.1 nameless_requests.2
     (run [alice_joins; bob_joins] initial).1).2
  = [Send 1%nat (lock_granted (str "") "Nobody");
     Send 2%nat (lock_granted (str "") "Nobody")]
  ∧ (lockHolder
       <$> sessions (run [alice_joins; bob_joins; nameless_requests] initial).1
             !! "S1")
    = Some (str "")
  ∧ (lockGrantedAt
       <$> sessions (run [alice_joins; bob_joins; nameless_requests] initial).1
             !! "S1")
    = Some (Some 2000)
  ∧ 100000 - 2000 > LOCK_TIMEOUT_MS
  ∧ step (env_at 100000) LockTimeoutCheck
      (run [alice_joins; bob_joins; nameless_requests] initial).1
    = ((run [alice_joins; bob_joins; nameless_requests] initial).1, [])
  ∧ step (env_at 100500) (Message 2%nat (lock_request "S1" (str "bob") "Bob"))
      (run [alice_joins; bob_joins; nameless_requests] initial).1
    = ((run [alice_joins; bob_joins; nameless_requests] initial).1,
       [Send 2%nat (lock_denied (Some "Nobody") "lock_held")]).
Proof. by vm_compute. Qed.

Lemma lock_timeout_scenario :
  (Send 2%nat (lock_released (Some "timeout")) : Effect string)
  ∈ (lockTimeoutCheck (env_at 40000) alice_holds).2.
Proof.
  edestruct (lock_timeout_check_expires (JSValue:=string) (env_at 40000)
               alice_holds "S1") as (_ & _ & Hexp & _);
    [vm_compute; reflexivity|].
  edestruct (Hexp "alice" 2000) as (_ & _ & _ & _ & _ & Hsent);
    [by vm_compute|by vm_compute|done|done|by vm_compute|].
  apply (Hsent "bob" {| clientId := "bob"; username := "Bob"; ws := 2%nat;
                        connectedAt := 1500 |}); by vm_compute.
Defined.

Lemma holder_disconnect_scenario :
  (handleClientDisconnect (JSValue:=string) (env_at 4000) "S1" "alice" alice_holds).2
  = [Send 2%nat (lock_released (Some "holder_disconnected"));
     Send 2%nat (participant_left "Alice" "alice")].
Proof.
  edestruct (holder_disconnect_releases (JSValue:=string) (env_at 4000)
               alice_holds "S1" "alice") as (Heq & _);
    [vm_compute; reflexivity..|].
  rewrite Heq. by vm_compute.
Defined.

Lemma last_disconnect_scenario :
  sessions (handleClientDisconnect (JSValue:=string) (env_at 4000) "S1" "alice"
              alice_alone).1 !! "S1" = None
  ∧ db (handleClientDisconnect (JSValue:=string) (env_at 4000) "S1" "alice"
          alice_alone).1 = db alice_alone.
Proof.
  edestruct (last_disconnect_keeps_history (JSValue:=string) (env_at 4000)
               alice_alone "S1" "alice") as (Hgone & Hdb & _).
  - vm_compute. reflexivity.
  - vm_compute. reflexivity.
  - by vm_compute.
  - by split.
Defined.



(** The store, the registry and the clients, on the scenarios. *)

Lemma saveMessage_appends_scenario :
  ∃ db',
    Database.saveMessage (JSValue:=string) "S1"
      {| Database.nm_role := assistant;
         Database.nm_content := CValue "[]";
         Database.nm_author_username := None |}
      5000 "k3x9q" (db alice_alone) = Some db'
    ∧ Database.getMessages (JSValue:=string) "S1" db'
      = Database.getMessages "S1" (db alice_alone)
          ++ [Database.row_entry
                (Database.message_row "S1"
                   {| Database.nm_role := assistant;
                      Database.nm_content := CValue "[]";
                      Database.nm_author_username := None |}
                   5000 "k3x9q")].
Proof.
  edestruct (saveMessage_appends (JSValue:=string) "S1"
               {| Database.nm_role := assistant;
                  Database.nm_content := CValue "[]";
                  Database.nm_author_username := None |}
               5000 "k3x9q" (db alice_alone)) as [Hsaved _].
  - intros row Hin _. vm_compute in Hin.
    apply list_elem_of_singleton in Hin as ->. by vm_compute.
  - edestruct Hsaved as (db' & Hsave & Hread & _); [vm_compute; reflexivity|].
    exists db'. by split.
Defined.

Lemma deleteOldSessions_scenario :
  Database.getMessages (JSValue:=string) "S1"
    (Database.deleteOldSessions 30 2678400000 (db alice_alone)) = [].
Proof.
  edestruct (deleteOldSessions_by_activity (JSValue:=string) 30 2678400000
               (db alice_alone) "S1") as (_ & Hold & _);
    [vm_compute; reflexivity|].
  apply Hold. by vm_compute.
Defined.

Lemma getToolResults_scenario :
  ∃ db' entries,
    Database.saveToolResult (JSValue:=string) "S1" "toolu_02" "[1]" (str "alice")
      5000 "k3x9q" (db alice_reported) = Some db'
    ∧ Database.getToolResults (JSValue:=string) "S1" db' = Some entries
    ∧ length entries = 2%nat.
Proof.
  edestruct (getToolResults_round_trip (JSValue:=string) "S1" "toolu_02" "[1]"
               "alice" 5000 "k3x9q" (db alice_reported)) as [Hsaved _].
  - intros row Hin _. vm_compute in Hin.
    apply list_elem_of_singleton in Hin as ->. eexists. vm_compute. reflexivity.
  - by vm_compute.
  - destruct Hsaved as (db' & entries & Hsave & Heq & _ & Hlen);
      [eexists; vm_compute; reflexivity|].
    exists db', entries. split; [done|]. split; [done|].
    rewrite Hlen. by vm_compute.
Defined.

Lemma lock_fields_scenario :
  ∃ session,
    sessions alice_holds !! "S1" = Some session
    ∧ ((lockHolder session = null ∧ lockUsername session = None
        ∧ lockGrantedAt session = None)
       ∨ is_Some (lockGrantedAt session)).
Proof.
  eexists. split; [vm_compute; reflexivity|].
  apply (lock_fields_consistent (JSValue:=string)
           [alice_joins; bob_joins; alice_requests] "S1").
  vm_compute. reflexivity.
Defined.

Lemma lock_release_scenario :
  handleLockRelease (JSValue:=string) (env_at 5000) "S1" (str "bob") alice_holds
  = (alice_holds, []).
Proof.
  edestruct (lock_release_only_by_holder (JSValue:=string) (env_at 5000)
               alice_holds "S1" (str "bob")) as (_ & Hother & _);
    [vm_compute; reflexivity|].
  apply Hother. by vm_compute.
Defined.

Lemma activity_scenario :
  ∃ session,
    sessions (run [alice_says_hello; alice_reports_tool] alice_holds).1 !! "S1"
    = Some session
    ∧ lockGrantedAt session = Some 2000
    ∧ sessions
        (step (env_at 40000) LockTimeoutCheck
           (run [alice_says_hello; alice_reports_tool] alice_holds).1).1 !! "S1"
      = Some (with_lock session null None None).
Proof.
  edestruct (activity_does_not_extend_lock (JSValue:=string)
               [alice_says_hello; alice_reports_tool] (env_at 40000)
               alice_holds "S1")
    as (session & Hs & _ & Hgrant & Hswept & _);
    [by vm_compute|vm_compute; reflexivity|by vm_compute|by vm_compute
    |done|done|by vm_compute|].
  exists session. split; [exact Hs|]. split; [exact Hgrant|exact Hswept].
Defined.

Lemma store_untouched_scenario :
  db (step (env_at 2500) (Message 2%nat (lock_request "S1" (str "bob") "Bob"))
        alice_holds).1
  = db alice_holds.
Proof.
  apply (proj1 (store_calls_by_event (JSValue:=string) (env_at 2500)
                  (Message 2%nat (lock_request "S1" (str "bob") "Bob"))
                  alice_holds)).
  reflexivity.
Defined.

Lemma backoff_scenario : 2000 ≤ Connection.backoff 3 ≤ 30000.
Proof. apply (backoff_bounds 3). lia. Defined.

Lemma reconnection_scenario :
  (length (filter Connection.is_reconnection
             (Connection.run flaky_link Connection.initial).2) ≤ 10)%nat.
Proof.
  apply (reconnection_is_bounded flaky_link Connection.initial).
  - by repeat constructor.
  - vm_compute. lia.
Defined.

Lemma user_message_scenario :
  Tui.hasLock (Tui.step true (Tui.Submit "hi") alice_typing).1 = true.
Proof.
  apply (user_message_needs_lock true (Tui.Submit "hi") alice_typing
           (Tui.Send (Tui.user_message "hi"))).
  - vm_compute. by left.
  - done.
Defined.

Lemma pending_input_scenario :
  Tui.Send (Tui.user_message "hello again")
  ∈ (Tui.step true (Tui.LockGranted "alice" "Alice")
       (Tui.run alice_waits alice_client).1).2.
Proof.
  edestruct (pending_input_sent_on_grant alice_waits alice_client "Alice"
               "hello again") as (_ & _ & Heq);
    [done|by vm_compute|by vm_compute|done|].
  change (Tui.clientId alice_client) with "alice" in Heq.
  rewrite Heq. simpl. do 2 right. by left.
Defined.

Lemma checked_path_scenario :
  String.prefix project_root
    (Executor.touched (Executor.call_readdir "/home/user/proj/src")) = true.
Proof.
  edestruct (checked_paths_have_root_prefix "/" project_root empty_disk
               "list_directory" "src" None None
               (Executor.call_readdir "/home/user/proj/src")) as [Hread _];
    [done|vm_compute; by left|].
  apply Hread. by right.
Defined.
